(** * danmu_api: the request admission pipeline of [handleRequest]

    A shallow embedding of the worker entry point of the repository
    (token gate, path normalisation, dispatch table, cache-first comment
    lookup and the per-client sliding-window rate limiter), followed by
    the properties the specification states about it.

    Conventions.
    - JavaScript strings that occur in request paths are ASCII (a URL
      pathname is percent-encoded), so they are [string]s.
    - [Date.now()] is an input of each call: the argument [currentTime].
    - [globals.requestHistory] (a JS [Map] from client address to an array
      of timestamps) is a [gmap string (list Z)] threaded through the
      handler by a small state monad.
    - The collaborators that live in other modules of the repository
      (comment cache, id index, downstream handlers, log formatting) are
      fields of a record or constructors of the result type; [log] calls
      and the Redis warm-up have no influence on the control flow and are
      left out.

    A second part embeds the URL utilities of [http-util.js]
    ([getPathname], [buildQueryString], [sortedQueryString],
    [updateQueryString]) and the choice of the client address by the three
    entry points, with properties read off the code.  There a [string] is
    the UTF-8 form of a JavaScript string, and an object is the list of
    its own enumerable properties. *)

From Stdlib Require Import ZArith String Ascii List Bool Lia Sorted.
From stdpp Require Import base option list gmap strings.
From stdpp Require Import sorting.

Local Open Scope string_scope.
Local Open Scope Z_scope.

(** ** JavaScript string primitives used by the handler *)

Module Js.

(** [s.startsWith(p)] *)
Definition startsWith (s p : string) : bool := String.prefix p s.

(** [s.substring(n)]: the characters from index [n] on, empty when [n]
    is past the end. *)
Fixpoint substring (n : nat) (s : string) : string :=
  match n, s with
  | O, _ => s
  | S n', String _ s' => substring n' s'
  | S _, EmptyString => EmptyString
  end.

(** [s.split(sep)] for a one-character separator: never returns the empty
    array, ["".split("/")] is [[""]]. *)
Fixpoint split (sep : ascii) (s : string) : list string :=
  match s with
  | EmptyString => [EmptyString]
  | String c s' =>
      if Ascii.eqb c sep then EmptyString :: split sep s'
      else match split sep s' with
           | [] => [String c EmptyString]
           | w :: ws => String c w :: ws
           end
  end.

(** Truthiness of a string: only the empty string is falsy. *)
Definition truthy (s : string) : bool := negb (String.eqb s "").

(** [arr.filter(Boolean)] on an array of strings. *)
Definition filterBoolean (l : list string) : list string :=
  List.filter truthy l.

(** [arr.join(sep)] *)
Definition join (sep : string) (l : list string) : string :=
  String.concat sep l.

(** [arr.slice(1)] *)
Definition slice1 {A} (l : list A) : list A := List.tl l.

(** [arr.pop()] read as an expression: the last element when there is
    one. *)
Definition pop {A} (l : list A) : option A := List.last (List.map Some l) None.

(** The last character of a string, when it has one ([s.at(-1)]); used
    to state that a path does not end in a slash. *)
Fixpoint lastChar (s : string) : option ascii :=
  match s with
  | EmptyString => None
  | String c EmptyString => Some c
  | String _ s' => lastChar s'
  end.

(** *** [parseInt(s)] without a radix

    Leading white space is skipped, an optional sign is read, a [0x] or
    [0X] prefix selects base 16, and the longest prefix of digits of the
    base is converted.  No digit at all gives [NaN], here [None].  The
    value is kept as the exact integer (a JS number rounds it beyond
    2^53). *)

Definition isWhite (c : ascii) : bool :=
  let n := nat_of_ascii c in
  ((9 <=? n) && (n <=? 13))%nat || (n =? 32)%nat.

Fixpoint trimStart (s : string) : string :=
  match s with
  | String c s' => if isWhite c then trimStart s' else s
  | EmptyString => EmptyString
  end.

Definition digitValue (c : ascii) : option Z :=
  let n := nat_of_ascii c in
  if ((48 <=? n) && (n <=? 57))%nat then Some (Z.of_nat n - 48)
  else if ((97 <=? n) && (n <=? 122))%nat then Some (Z.of_nat n - 87)
  else if ((65 <=? n) && (n <=? 90))%nat then Some (Z.of_nat n - 55)
  else None.

Fixpoint digits (radix : Z) (s : string) (acc : option Z) : option Z :=
  match s with
  | String c s' =>
      match digitValue c with
      | Some d =>
          if d <? radix
          then digits radix s' (Some (default 0 acc * radix + d))
          else acc
      | None => acc
      end
  | EmptyString => acc
  end.

Definition parseUnsigned (s : string) : option Z :=
  match s with
  | String "0" (String "x" s') => digits 16 s' None
  | String "0" (String "X" s') => digits 16 s' None
  | _ => digits 10 s None
  end.

Definition parseInt (s : string) : option Z :=
  match trimStart s with
  | String "-" s' => Z.opp <$> parseUnsigned s'
  | String "+" s' => parseUnsigned s'
  | s' => parseUnsigned s'
  end.

End Js.

(** ** Responses *)

#[local] Set Warnings "-register-all".

Inductive Json : Type :=
| JNull
| JBool (b : bool)
| JNum (z : Z)
| JStr (s : string)
| JArr (l : list Json)
| JObj (fields : list (string * Json)).

Inductive Body : Type :=
| BodyNull
| BodyText (s : string)
| BodyJson (data : Json).

Record Response := mkResponse {
  status : Z;
  headers : list (string * string);
  body : Body
}.

(** [jsonResponse(data, status = 200)]: the body is [JSON.stringify(data)],
    kept here as the value that is serialised. *)
Definition jsonResponse (data : Json) (st : Z) : Response :=
  {| status := st;
     headers := [("Content-Type", "application/json")];
     body := BodyJson data |}.

Definition errorBody (code : Z) (msg : string) : Json :=
  JObj [("errorCode", JNum code); ("success", JBool false);
        ("errorMessage", JStr msg)].

(** ** Token gate and path normalisation *)

Module Path.

(** The cleaning loop
    [while (path.startsWith('/api/v2/api/v2/')) path = path.substring(7)],
    with the length of the path as the bound on the number of turns. *)
Fixpoint collapseLoop (fuel : nat) (path : string) : string :=
  match fuel with
  | O => path
  | S fuel' =>
      if Js.startsWith path "/api/v2/api/v2/"
      then collapseLoop fuel' (Js.substring (String.length "/api/v2") path)
      else path
  end.

Definition collapse (path : string) : string :=
  collapseLoop (String.length path) path.

(** Step 2 of the normaliser: add the prefix when it is missing. *)
Definition complete (path : string) : string :=
  if negb (Js.startsWith path "/api/v2") && negb (String.eqb path "/")
     && negb (Js.startsWith path "/api/logs")
  then "/api/v2" +:+ path
  else path.

(** The whole block guarded by [path !== "/" && path !== "/api/logs"]. *)
Definition normalize (path : string) : string :=
  if negb (String.eqb path "/") && negb (String.eqb path "/api/logs")
  then complete (collapse path)
  else path.

(** [path.split("/").filter(Boolean)] *)
Definition segments (path : string) : list string :=
  Js.filterBoolean (Js.split "/" path).

(** The token check: [None] is the 401 branch, [Some p] the working path
    ["/" + parts.slice(1).join("/")]. *)
Definition authenticate (token path : string) : option string :=
  match segments path with
  | [] => None
  | (first :: _) as parts =>
      if String.eqb first token
      then Some ("/" +:+ Js.join "/" (Js.slice1 parts))
      else None
  end.

(** The path that the dispatch table receives. *)
Definition canonical (token path : string) : option string :=
  Path.normalize <$> authenticate token path.

End Path.

(** ** Configuration, collaborators and requests *)

Record LogEntry := {
  timestamp : string;
  level : string;
  message : Json
}.

(** The fields of [globals] that [handleRequest] reads.  The request
    history is kept apart, as the state of the handler. *)
Record Globals := {
  token : string;
  rateLimitMaxRequests : Z;
  VERSION : string;
  accessedEnvVars : list (string * Json);
  redisValid : bool;
  logBuffer : list LogEntry
}.

(** What the handler imports from [cache-util.js] and [log-util.js] and
    only calls: [getCommentCache(url)] answers [null] or the cached array,
    [findUrlById(id)] answers a URL or nothing for the number it is given
    ([None] as argument is [NaN]). *)
Record Collaborators := {
  getCommentCache : string -> option (list Json);
  findUrlById : option Z -> option string;
  formatLogMessage : Json -> string
}.

(** The request after [new URL(req.url)]: path, method and the query
    parameters in their order of appearance. *)
Record Request := {
  pathname : string;
  method : string;
  searchParams : list (string * string)
}.

(** [url.searchParams.get(name)]: the first value, or [null]. *)
Fixpoint searchParams_get (name : string) (ps : list (string * string))
  : option string :=
  match ps with
  | [] => None
  | (k, v) :: ps' => if String.eqb k name then Some v else searchParams_get name ps'
  end.

(** What a call of [handleRequest] evaluates to: a response it builds
    itself, or the call of a downstream handler whose result it returns
    unchanged. *)
Inductive Outcome : Type :=
| Respond (r : Response)
| SearchAnime (url : Request)
| SearchEpisodes (url : Request)
| MatchAnime (url req : Request)
| GetBangumi (path : string)
| FormatDanmuResponse (responseData : Json) (queryFormat : option string)
| GetCommentByUrl (videoUrl : string) (queryFormat : option string)
| GetComment (path : string) (queryFormat : option string).

(** ** The request history and its monad *)

Abbreviation History := (gmap string (list Z)).

Definition M (A : Type) : Type := History -> A * History.

#[global] Instance M_ret : MRet M := fun A a h => (a, h).
#[global] Instance M_bind : MBind M :=
  fun A B f m h => let '(a, h') := m h in f a h'.

Definition gets {A} (f : History -> A) : M A := fun h => (f h, h).
Definition modify (f : History -> History) : M unit := fun h => (tt, f h).

Definition oneMinute : Z := 60 * 1000.

(** The test of the two [history.filter] calls:
    [currentTime - timestamp <= oneMinute]. *)
Definition recent (currentTime timestamp : Z) : Prop :=
  currentTime - timestamp <= oneMinute.

#[global] Instance recent_dec currentTime timestamp :
  Decision (recent currentTime timestamp).
Proof. unfold recent. apply _. Defined.

Definition filterRecent (currentTime : Z) (history : list Z) : list Z :=
  filter (recent currentTime) history.

(** Modelled from the spec: [cleanupExpiredIPs(currentTime)] of
    [cache-util.js], which is not part of the sources at hand.  The
    specification describes it as the sweep of the limiter: for every
    tracked client, drop the timestamps older than [now - 60s]. *)
Definition cleanupExpiredIPs (currentTime : Z) (h : History) : History :=
  filter (fun timestamp => ¬ timestamp < currentTime - oneMinute) <$> h.

Definition tooManyRequests : Response :=
  jsonResponse
    (errorBody 429 "Too many requests, please try again later") 429.

(** The block [if (globals.rateLimitMaxRequests > 0) { ... }], which the
    source has twice with the same text (URL branch and id branch).  The
    result [Some r] is the early [return r]; [None] falls through. *)
Definition rateLimit (g : Globals) (currentTime : Z) (clientIp : string)
  : M (option Response) :=
  if 0 <? rateLimitMaxRequests g then
    modify (cleanupExpiredIPs currentTime);;
    has ← gets (fun h => bool_decide (is_Some (h !! clientIp)));
    (if has : bool then mret tt else modify (insert clientIp []));;
    (* [get] after the [has]/[set] above always finds the entry *)
    history ← gets (fun h => default [] (h !! clientIp));
    let recentRequests := filterRecent currentTime history in
    if rateLimitMaxRequests g <=? Z.of_nat (length recentRequests)
    then mret (Some tooManyRequests)
    else
      modify (insert clientIp (recentRequests ++ [currentTime])%list);;
      mret None
  else mret None.

(** ** The dispatch table *)

Definition objSet (k : string) (v : Json) (fields : list (string * Json))
  : list (string * Json) :=
  if existsb (fun kv => String.eqb (fst kv) k) fields
  then List.map (fun kv => if String.eqb (fst kv) k then (k, v) else kv) fields
  else fields ++ [(k, v)].

Definition handleHomepage (g : Globals) : Outcome :=
  Respond (jsonResponse (JObj [
    ("message", JStr "Welcome to the LogVar Danmu API server");
    ("version", JStr (VERSION g));
    ("envs", JObj (objSet "redisValid" (JBool (redisValid g)) (accessedEnvVars g)));
    ("repository", JStr "https://github.com/huangxd-/danmu_api.git");
    ("description", JStr "一个人人都能部署的基于 js 的弹幕 API 服务器，支持爱优腾芒哔人韩巴弹幕直接获取，兼容弹弹play的搜索、详情查询和弹幕获取接口规范，并提供日志记录，支持vercel/netlify/edgeone/cloudflare/docker/claw等部署方式，不用提前下载弹幕，没有nas或小鸡也能一键部署。");
    ("notice", JStr "本项目仅为个人爱好开发，代码开源。如有任何侵权行为，请联系本人删除。有问题提issue或私信机器人都ok，TG MSG ROBOT: [https://t.me/ddjdd_bot]; 推荐加互助群咨询，TG GROUP: [https://t.me/logvar_danmu_group]; 关注频道获取最新更新内容，TG CHANNEL: [https://t.me/logvar_danmu_channel]。")
  ]) 200).

Definition noContent : Response :=
  {| status := 204; headers := []; body := BodyNull |}.

Definition unauthorized : Response :=
  jsonResponse (errorBody 401 "Unauthorized") 401.

Definition missingParameter : Response :=
  jsonResponse (errorBody 400 "Missing commentId or url parameter") 400.

Definition notFound : Response :=
  jsonResponse (JObj [("message", JStr "Not found")]) 404.

Definition newline : string := String (ascii_of_nat 10) EmptyString.

Definition logsResponse (g : Globals) (w : Collaborators) : Response :=
  {| status := 200;
     headers := [("Content-Type", "text/plain; charset=utf-8")];
     body := BodyText (Js.join newline
       (List.map (fun l => "[" +:+ timestamp l +:+ "] " +:+ level l +:+ ": "
                           +:+ formatLogMessage w (message l))
                 (logBuffer g))) |}.

Definition isGET (req : Request) : bool := String.eqb (method req) "GET".
Definition isPOST (req : Request) : bool := String.eqb (method req) "POST".

(** [{ count: cachedComments.length, comments: cachedComments }] *)
Definition cachedResponseData (cachedComments : list Json) : Json :=
  JObj [("count", JNum (Z.of_nat (length cachedComments)));
        ("comments", JArr cachedComments)].

(** A JS value used as a condition: [null] and the empty string are
    falsy. *)
Definition truthyOpt (v : option string) : option string :=
  match v with
  | Some s => if Js.truthy s then Some s else None
  | None => None
  end.

(** The branch [path.startsWith("/api/v2/comment") && method === "GET"]. *)
Definition handleComment (g : Globals) (w : Collaborators) (currentTime : Z)
    (req : Request) (clientIp : string) (path : string) : M Outcome :=
  let queryFormat := searchParams_get "format" (searchParams req) in
  let videoUrl := searchParams_get "url" (searchParams req) in
  match truthyOpt videoUrl with
  | Some videoUrl =>
      match getCommentCache w videoUrl with
      | Some cachedComments =>
          mret (FormatDanmuResponse (cachedResponseData cachedComments) queryFormat)
      | None =>
          limited ← rateLimit g currentTime clientIp;
          match limited with
          | Some r => mret (Respond r)
          | None => mret (GetCommentByUrl videoUrl queryFormat)
          end
      end
  | None =>
      if negb (Js.startsWith path "/api/v2/comment/")
      then mret (Respond missingParameter)
      else
        let commentId := Js.pop (Js.split "/" path) ≫= Js.parseInt in
        let urlForComment := findUrlById w commentId in
        match truthyOpt urlForComment ≫= getCommentCache w with
        | Some cachedComments =>
            mret (FormatDanmuResponse (cachedResponseData cachedComments) queryFormat)
        | None =>
            limited ← rateLimit g currentTime clientIp;
            match limited with
            | Some r => mret (Respond r)
            | None => mret (GetComment path queryFormat)
            end
        end
  end.

(** The routes that follow the normalisation, in the order of the
    source. *)
Definition dispatch (g : Globals) (w : Collaborators) (currentTime : Z)
    (req : Request) (clientIp : string) (path : string) : M Outcome :=
  if String.eqb path "/" && isGET req then mret (handleHomepage g)
  else if String.eqb path "/api/v2/search/anime" && isGET req
  then mret (SearchAnime req)
  else if String.eqb path "/api/v2/search/episodes" && isGET req
  then mret (SearchEpisodes req)
  else if String.eqb path "/api/v2/match" && isPOST req
  then mret (MatchAnime req req)
  else if Js.startsWith path "/api/v2/bangumi/" && isGET req
  then mret (GetBangumi path)
  else if Js.startsWith path "/api/v2/comment" && isGET req
  then handleComment g w currentTime req clientIp path
  else if String.eqb path "/api/logs" && isGET req
  then mret (Respond (logsResponse g w))
  else mret (Respond notFound).

Definition handleRequest (g : Globals) (w : Collaborators) (currentTime : Z)
    (req : Request) (clientIp : string) : M Outcome :=
  let path := pathname req in
  if String.eqb path "/" && isGET req then mret (handleHomepage g)
  else if String.eqb path "/favicon.ico" || String.eqb path "/robots.txt"
  then mret (Respond noContent)
  else
    match Path.authenticate (token g) path with
    | None => mret (Respond unauthorized)
    | Some path => dispatch g w currentTime req clientIp (Path.normalize path)
    end.

(** ** Sequences of calls and observations on them *)

(** One call of a run: the time [Date.now()] shows, the collaborators as
    they stand at that moment (the cache fills up between calls) and the
    request. *)
Record Call := {
  at_time : Z;
  collaborators : Collaborators;
  request : Request
}.

(** Successive calls of [handleRequest] from one client against the same
    configuration, sharing the request history. *)
Fixpoint run (g : Globals) (clientIp : string) (calls : list Call)
  : M (list Outcome) :=
  match calls with
  | [] => mret []
  | c :: calls' =>
      o ← handleRequest g (collaborators c) (at_time c) (request c) clientIp;
      os ← run g clientIp calls';
      mret (o :: os)
  end.

(** A comment request is admitted when the handler goes on to the fetch
    of the comments ([getCommentByUrl] or [getComment]). *)
Definition admitted (o : Outcome) : bool :=
  match o with
  | GetCommentByUrl _ _ | GetComment _ _ => true
  | _ => false
  end.

(** The times of the admitted calls of a run, oldest first. *)
Fixpoint admissions (calls : list Call) (outs : list Outcome) : list Z :=
  match calls, outs with
  | c :: calls', o :: outs' =>
      if admitted o then at_time c :: admissions calls' outs'
      else admissions calls' outs'
  | _, _ => []
  end.

(** The timestamps on record for a client ([[]] when it is not tracked). *)
Definition historyOf (h : History) (clientIp : string) : list Z :=
  default [] (h !! clientIp).

(** The trailing 60-second window that ends at [T], both ends included. *)
Definition inWindow (T a : Z) : Prop := T - oneMinute <= a <= T.

#[global] Instance inWindow_dec T a : Decision (inWindow T a).
Proof. unfold inWindow. apply _. Defined.

(** The invariant of a run: from time [lo] on, the admitted times that
    pass the window test are on record for the client, in order. *)
Definition recorded (clientIp : string) (lo : Z) (admittedTimes : list Z)
    (h : History) : Prop :=
  forall t, lo <= t ->
    filterRecent t admittedTimes `sublist_of` filterRecent t (historyOf h clientIp).

(** No window holds more than [capacity] of the admitted times. *)
Definition bounded (capacity : Z) (admittedTimes : list Z) : Prop :=
  forall T, Z.of_nat (length (filter (inWindow T) admittedTimes)) <= capacity.

(** The request passes the token gate and the dispatch table sends it,
    with the normalised path [path], to the comment branch. *)
Definition reachesComment (g : Globals) (req : Request) (path : string) : Prop :=
  pathname req <> "/favicon.ico" /\ pathname req <> "/robots.txt" /\
  Path.canonical (token g) (pathname req) = Some path /\
  method req = "GET" /\
  Js.startsWith path "/api/v2/comment" = true.

(** The number [handleComment] hands to [findUrlById]. *)
Definition commentIdOf (path : string) : option Z :=
  Js.pop (Js.split "/" path) ≫= Js.parseInt.

(** The URL whose comments a comment request asks for: the [url] query
    parameter when it is present and not empty, else the URL that the
    identifier at the end of the path resolves to. *)
Inductive Addresses (w : Collaborators) (req : Request) (path : string)
  : string -> Prop :=
| ByUrl (videoUrl : string) :
    searchParams_get "url" (searchParams req) = Some videoUrl ->
    videoUrl <> "" ->
    Addresses w req path videoUrl
| ById (urlForComment : string) :
    truthyOpt (searchParams_get "url" (searchParams req)) = None ->
    Js.startsWith path "/api/v2/comment/" = true ->
    findUrlById w (commentIdOf path) = Some urlForComment ->
    urlForComment <> "" ->
    Addresses w req path urlForComment.

(** The comment request finds nothing in the cache and goes on to the
    rate-limit block. *)
Inductive CacheMiss (w : Collaborators) (req : Request) (path : string) : Prop :=
| MissByUrl (videoUrl : string) :
    searchParams_get "url" (searchParams req) = Some videoUrl ->
    videoUrl <> "" ->
    getCommentCache w videoUrl = None ->
    CacheMiss w req path
| MissById :
    truthyOpt (searchParams_get "url" (searchParams req)) = None ->
    Js.startsWith path "/api/v2/comment/" = true ->
    truthyOpt (findUrlById w (commentIdOf path)) ≫= getCommentCache w = None ->
    CacheMiss w req path.

(** The downstream call a comment request ends in once it is past the
    cache and the rate-limit block. *)
Definition fetch (req : Request) (path : string) : Outcome :=
  match truthyOpt (searchParams_get "url" (searchParams req)) with
  | Some videoUrl =>
      GetCommentByUrl videoUrl (searchParams_get "format" (searchParams req))
  | None => GetComment path (searchParams_get "format" (searchParams req))
  end.

(** The history as the rate-limit block has it when it reads the client's
    entry: after the sweep and the creation of a missing entry. *)
Definition swept (currentTime : Z) (clientIp : string) (h : History) : History :=
  let h1 := cleanupExpiredIPs currentTime h in
  if bool_decide (is_Some (h1 !! clientIp)) then h1 else <[clientIp := []]> h1.

(** ** A sample deployment, for the concrete cases below *)

Module Sample.

Definition globals (capacity : Z) : Globals :=
  {| token := "secret";
     rateLimitMaxRequests := capacity;
     VERSION := "1.0.0";
     accessedEnvVars := [];
     redisValid := false;
     logBuffer := [] |}.

Definition comment : Json :=
  JObj [("cid", JNum 1); ("p", JStr "1.00,1,16777215,[qq]"); ("m", JStr "hello")].

(** Episode 10001 is cached with one comment, episode 10002 with none,
    episode 10003 is known but not cached. *)
Definition world : Collaborators :=
  {| getCommentCache := fun url =>
       if String.eqb url "https://v.example.com/ep1" then Some [comment]
       else if String.eqb url "https://v.example.com/ep2" then Some []
       else None;
     findUrlById := fun id =>
       match id with
       | Some 10001 => Some "https://v.example.com/ep1"
       | Some 10002 => Some "https://v.example.com/ep2"
       | Some 10003 => Some "https://v.example.com/ep3"
       | _ => None
       end;
     formatLogMessage := fun _ => "" |}.

Definition get (path : string) (query : list (string * string)) : Request :=
  {| pathname := path; method := "GET"; searchParams := query |}.

(** A client with three requests on record. *)
Definition busy : History := {[ "10.0.0.1" := [500; 2000; 3000] ]}.

Definition call (t : Z) (path : string) : Call :=
  {| at_time := t; collaborators := world; request := get path [] |}.

End Sample.

(** * The URL utilities of [http-util.js] and the entry points *)

(** ** String searching and slicing, and [getPathname] *)

Module Str.

(** The first position at which [search] occurs in [s], if any. *)
Fixpoint find (search s : string) : option nat :=
  if String.prefix search s then Some O
  else match s with
       | EmptyString => None
       | String _ s' => S <$> find search s'
       end.

(** [s.indexOf(search, position)]: the position is clamped to the length
    of [s], the answer is [-1] when there is no occurrence.  Positions
    count the characters of the [string]; only results of [substring] on
    the same string are ever made of them. *)
Definition indexOf (s search : string) (position : Z) : Z :=
  let from := Nat.min (Z.to_nat position) (String.length s) in
  match find search (Js.substring from s) with
  | Some i => Z.of_nat (from + i)
  | None => -1
  end.

(** The first [n] characters. *)
Fixpoint take (n : nat) (s : string) : string :=
  match n, s with
  | S n', String c s' => String c (take n' s')
  | _, _ => EmptyString
  end.

(** [s.substring(start, end)]: both arguments are clamped to
    [0 .. length], and swapped when [start > end]. *)
Definition substring (s : string) (start finish : Z) : string :=
  let clamp i := Nat.min (Z.to_nat i) (String.length s) in
  let a := Nat.min (clamp start) (clamp finish) in
  let b := Nat.max (clamp start) (clamp finish) in
  take (b - a) (Js.substring a s).

End Str.

(** [getPathname(url)] of [http-util.js]. *)
Definition getPathname (url : string) : string :=
  let pathnameStart := Str.indexOf url "//" 0 + 2 in
  let pathnameStart := if pathnameStart =? 1 then 0 else pathnameStart in
  let pathStart := Str.indexOf url "/" pathnameStart in
  if pathStart =? -1 then "/"
  else
    let queryStart := Str.indexOf url "?" pathStart in
    let hashStart := Str.indexOf url "#" pathStart in
    let pathEnd :=
      if negb (queryStart =? -1) then queryStart
      else if negb (hashStart =? -1) then hashStart
      else Z.of_nat (String.length url) in
    let pathname := Str.substring url pathStart pathEnd in
    if Js.truthy pathname then pathname else "/".

(** ** The entry points and the address of the client *)

Module Entry.

(** [v || d] for a value that is a string or absent. *)
Definition orDefault (v : option string) (d : string) : string :=
  match truthyOpt v with
  | Some s => s
  | None => d
  end.

(** The Cloudflare entry: [request.headers.get('cf-connecting-ip') ||
    request.headers.get('x-forwarded-for') || 'unknown'].  [get] is
    [request.headers.get]. *)
Definition cloudflareClientIp (get : string -> option string) : string :=
  orDefault (get "cf-connecting-ip") (orDefault (get "x-forwarded-for") "unknown").

(** The Vercel entry: [req.headers['x-forwarded-for'] ||
    req.connection.remoteAddress || 'unknown']. *)
Definition vercelClientIp (headers : string -> option string)
    (remoteAddress : option string) : string :=
  orDefault (headers "x-forwarded-for") (orDefault remoteAddress "unknown").

(** The Netlify entry: [event.headers['x-nf-client-connection-ip'] ||
    event.headers['x-forwarded-for'] || context.ip || 'unknown']. *)
Definition netlifyClientIp (headers : string -> option string)
    (contextIp : option string) : string :=
  orDefault (headers "x-nf-client-connection-ip")
    (orDefault (headers "x-forwarded-for") (orDefault contextIp "unknown")).

(** [fetch(request, env, ctx)] of the Cloudflare entry: the handler is
    called with the address found in the headers. *)
Definition fetch (g : Globals) (w : Collaborators) (currentTime : Z)
    (get : string -> option string) (request : Request) : M Outcome :=
  handleRequest g w currentTime request (cloudflareClientIp get).

End Entry.

(** ** Percent-encoding

    In the functions below a [string] is the UTF-8 form of a JavaScript
    string: [encodeURIComponent] escapes bytes, [decodeURIComponent]
    checks that escaped bytes form UTF-8.  A JavaScript string with a lone
    surrogate, on which [encodeURIComponent] throws, has no such form. *)

Module Uri.

Definition between (lo hi : nat) (c : ascii) : bool :=
  (lo <=? nat_of_ascii c)%nat && (nat_of_ascii c <=? hi)%nat.

(** The characters [encodeURIComponent] leaves alone: letters, digits
    and [- _ . ! ~ * ' ( )]. *)
Definition unreserved (c : ascii) : bool :=
  between 48 57 c || between 65 90 c || between 97 122 c
  || existsb (Ascii.eqb c) (list_ascii_of_string "-_.!~*'()").

Definition hexDigit (n : nat) : ascii :=
  if (n <? 10)%nat then ascii_of_nat (48 + n) else ascii_of_nat (55 + n).

(** [%XY] for one byte, in upper case. *)
Definition escape (c : ascii) : string :=
  String "%" (String (hexDigit (nat_of_ascii c / 16))
             (String (hexDigit (nat_of_ascii c mod 16)) EmptyString)).

Fixpoint encodeURIComponent (s : string) : string :=
  match s with
  | EmptyString => EmptyString
  | String c s' =>
      (if unreserved c then String c EmptyString else escape c)
      +:+ encodeURIComponent s'
  end.

Definition hexValue (c : ascii) : option nat :=
  if between 48 57 c then Some (nat_of_ascii c - 48)%nat
  else if between 65 70 c then Some (nat_of_ascii c - 55)%nat
  else if between 97 102 c then Some (nat_of_ascii c - 87)%nat
  else None.

Definition octet (h1 h2 : ascii) : option nat :=
  match hexValue h1, hexValue h2 with
  | Some a, Some b => Some (16 * a + b)%nat
  | _, _ => None
  end.

Definition within (lo hi n : nat) : bool := (lo <=? n)%nat && (n <=? hi)%nat.

(** Well-formed UTF-8 sequences of two, three and four bytes: no overlong
    form, no surrogate, nothing above U+10FFFF. *)
Definition valid2 (b1 b2 : nat) : bool :=
  within 194 223 b1 && within 128 191 b2.

Definition valid3 (b1 b2 b3 : nat) : bool :=
  ((b1 =? 224)%nat && within 160 191 b2
   || within 225 236 b1 && within 128 191 b2
   || (b1 =? 237)%nat && within 128 159 b2
   || within 238 239 b1 && within 128 191 b2)
  && within 128 191 b3.

Definition valid4 (b1 b2 b3 b4 : nat) : bool :=
  ((b1 =? 240)%nat && within 144 191 b2
   || within 241 243 b1 && within 128 191 b2
   || (b1 =? 244)%nat && within 128 143 b2)
  && within 128 191 b3 && within 128 191 b4.

Definition byte (n : nat) : ascii := ascii_of_nat n.

(** [decodeURIComponent(s)]; [None] is the [URIError] it throws on a
    truncated or non-hexadecimal escape and on escaped bytes that are not
    UTF-8.  After an escaped byte that opens a sequence of two, three or
    four bytes, the same number of escapes less one must follow. *)
Fixpoint decodeURIComponent (s : string) : option string :=
  match s with
  | EmptyString => Some EmptyString
  | String c r =>
      if negb (Ascii.eqb c "%") then String c <$> decodeURIComponent r
      else
        match r with
        | String h1 (String h2 r1) =>
            match octet h1 h2 with
            | None => None
            | Some b1 =>
                if (b1 <? 128)%nat
                then String (byte b1) <$> decodeURIComponent r1
                else if within 192 223 b1 then
                  match r1 with
                  | String p1 (String x1 (String x2 r2)) =>
                      match octet x1 x2 with
                      | Some b2 =>
                          if Ascii.eqb p1 "%" && valid2 b1 b2
                          then (fun t => String (byte b1) (String (byte b2) t))
                                 <$> decodeURIComponent r2
                          else None
                      | None => None
                      end
                  | _ => None
                  end
                else if within 224 239 b1 then
                  match r1 with
                  | String p1 (String x1 (String x2
                      (String p2 (String y1 (String y2 r3))))) =>
                      match octet x1 x2, octet y1 y2 with
                      | Some b2, Some b3 =>
                          if Ascii.eqb p1 "%" && Ascii.eqb p2 "%"
                             && valid3 b1 b2 b3
                          then (fun t => String (byte b1) (String (byte b2)
                                           (String (byte b3) t)))
                                 <$> decodeURIComponent r3
                          else None
                      | _, _ => None
                      end
                  | _ => None
                  end
                else if within 240 247 b1 then
                  match r1 with
                  | String p1 (String x1 (String x2
                      (String p2 (String y1 (String y2
                        (String p3 (String z1 (String z2 r4)))))))) =>
                      match octet x1 x2, octet y1 y2, octet z1 z2 with
                      | Some b2, Some b3, Some b4 =>
                          if Ascii.eqb p1 "%" && Ascii.eqb p2 "%"
                             && Ascii.eqb p3 "%" && valid4 b1 b2 b3 b4
                          then (fun t => String (byte b1) (String (byte b2)
                                           (String (byte b3) (String (byte b4) t))))
                                 <$> decodeURIComponent r4
                          else None
                      | _, _, _ => None
                      end
                  | _ => None
                  end
                else None
            end
        | _ => None
        end
  end.

(** The strings that are UTF-8: the forms of JavaScript strings. *)
Fixpoint wellFormed (s : string) : bool :=
  match s with
  | EmptyString => true
  | String c1 r1 =>
      let b1 := nat_of_ascii c1 in
      if (b1 <? 128)%nat then wellFormed r1
      else if within 192 223 b1 then
        match r1 with
        | String c2 r2 => valid2 b1 (nat_of_ascii c2) && wellFormed r2
        | _ => false
        end
      else if within 224 239 b1 then
        match r1 with
        | String c2 (String c3 r3) =>
            valid3 b1 (nat_of_ascii c2) (nat_of_ascii c3) && wellFormed r3
        | _ => false
        end
      else if within 240 247 b1 then
        match r1 with
        | String c2 (String c3 (String c4 r4)) =>
            valid4 b1 (nat_of_ascii c2) (nat_of_ascii c3) (nat_of_ascii c4)
            && wellFormed r4
        | _ => false
        end
      else false
  end.

(** Strings of ASCII characters. *)
Fixpoint isAscii (s : string) : bool :=
  match s with
  | EmptyString => true
  | String c s' => (nat_of_ascii c <? 128)%nat && isAscii s'
  end.

End Uri.

(** ** Objects used as maps from strings to strings

    The list holds the own enumerable properties in the order of their
    creation; a value stands for its conversion to a string. *)

Module Obj.

Abbreviation t := (list (string * string)).

(** [o[k]] *)
Fixpoint get (k : string) (o : t) : option string :=
  match o with
  | [] => None
  | (k', v) :: o' => if String.eqb k' k then Some v else get k o'
  end.

Fixpoint update (k v : string) (o : t) : t :=
  match o with
  | [] => [(k, v)]
  | (k', v') :: o' =>
      if String.eqb k' k then (k, v) :: o' else (k', v') :: update k v o'
  end.

(** [o[k] = v] on an object made by [{}]: an existing property keeps its
    place, a new one goes last, and the name [__proto__] reaches the
    setter of [Object.prototype], which creates no property. *)
Definition set (k v : string) (o : t) : t :=
  if String.eqb k "__proto__" then o else update k v o.

Definition isDigit (c : ascii) : bool :=
  (48 <=? nat_of_ascii c)%nat && (nat_of_ascii c <=? 57)%nat.

Fixpoint decimal (s : string) (acc : N) : option N :=
  match s with
  | EmptyString => Some acc
  | String c s' =>
      if isDigit c
      then decimal s' (10 * acc + N.of_nat (nat_of_ascii c - 48))%N
      else None
  end.

(** The array indices among the property names: the decimal numerals
    without leading zero of the numbers below [2^32 - 1]. *)
Definition arrayIndex (k : string) : option N :=
  match k with
  | EmptyString => None
  | String "0" EmptyString => Some 0%N
  | String "0" _ => None
  | _ =>
      match decimal k 0 with
      | Some n => if (n <? 4294967295)%N then Some n else None
      | None => None
      end
  end.

Definition indexed (o : t) : list (N * (string * string)) :=
  omap (fun kv => (fun n => (n, kv)) <$> arrayIndex kv.1) o.

Definition named (o : t) : t :=
  List.filter (fun kv => negb (bool_decide (is_Some (arrayIndex kv.1)))) o.

Definition indexLe (a b : N * (string * string)) : Prop := (a.1 <= b.1)%N.

#[global] Instance indexLe_dec a b : Decision (indexLe a b).
Proof. unfold indexLe. apply _. Defined.

(** The properties in the order [for ... in] and [Object.entries] visit
    them: array indices by ascending value, then the other names in the
    order of their creation. *)
Definition entries (o : t) : t :=
  (merge_sort indexLe (indexed o)).*2 ++ named o.

Definition keys (o : t) : list string := (entries o).*1.

End Obj.

(** ** The query-string functions of [http-util.js] *)

(** [encodeURIComponent(key) + '=' + encodeURIComponent(value)] *)
Definition encodePair (kv : string * string) : string :=
  Uri.encodeURIComponent kv.1 +:+ "=" +:+ Uri.encodeURIComponent kv.2.

(** [buildQueryString(params)].  [params] is given by its own enumerable
    properties in the order of enumeration.  The test
    [params.hasOwnProperty(key)] calls whatever [params.hasOwnProperty]
    is: with an own property of that name, whose value is data and no
    function, the call throws a [TypeError], here [None]. *)
Definition buildQueryString (params : Obj.t) : option string :=
  if existsb (fun kv => String.eqb kv.1 "hasOwnProperty") params then None
  else
    Some (fold_left
            (fun queryString kv =>
               (if (0 <? String.length queryString)%nat
                then queryString +:+ "&" else queryString)
               +:+ encodePair kv)
            params "").

(** The values [sortedQueryString] tells apart. *)
Inductive ParamValue : Type :=
| PBoolean (b : bool)
| PNullish
| POther (image : string).

(** The three branches of the first loop of [sortedQueryString]; for a
    value that is neither a boolean nor [null] or [undefined], [image] is
    [String(v)]. *)
Definition normalizeValue (v : ParamValue) : string :=
  match v with
  | PBoolean true => "true"
  | PBoolean false => "false"
  | PNullish => ""
  | POther image => image
  end.

Module Utf16.

(** The UTF-16 code units of a string given in UTF-8, the sequence that
    the comparison of strings looks at. *)
Fixpoint codeUnits (s : string) : list N :=
  match s with
  | EmptyString => []
  | String c1 r1 =>
      let b1 := N_of_ascii c1 in
      if (b1 <? 192)%N then b1 :: codeUnits r1
      else if (b1 <? 224)%N then
        match r1 with
        | String c2 r2 =>
            ((b1 mod 32) * 64 + N_of_ascii c2 mod 64)%N :: codeUnits r2
        | _ => b1 :: codeUnits r1
        end
      else if (b1 <? 240)%N then
        match r1 with
        | String c2 (String c3 r3) =>
            ((b1 mod 16) * 4096 + (N_of_ascii c2 mod 64) * 64
             + N_of_ascii c3 mod 64)%N :: codeUnits r3
        | _ => b1 :: codeUnits r1
        end
      else
        match r1 with
        | String c2 (String c3 (String c4 r4)) =>
            let v := ((b1 mod 8) * 262144 + (N_of_ascii c2 mod 64) * 4096
                      + (N_of_ascii c3 mod 64) * 64 + N_of_ascii c4 mod 64
                      - 65536)%N in
            (55296 + v / 1024)%N :: (56320 + v mod 1024)%N :: codeUnits r4
        | _ => b1 :: codeUnits r1
        end
  end.

(** The order of strings: lexicographic on code units, a proper prefix
    first. *)
Fixpoint leb (l1 l2 : list N) : bool :=
  match l1, l2 with
  | [], _ => true
  | _ :: _, [] => false
  | x :: l1', y :: l2' =>
      if (x <? y)%N then true
      else if (y <? x)%N then false
      else leb l1' l2'
  end.

Definition le (a b : string) : Prop := leb (codeUnits a) (codeUnits b) = true.

#[global] Instance le_dec a b : Decision (le a b).
Proof. unfold le. apply _. Defined.

End Utf16.

(** [keys.sort()] without a comparison function. *)
Definition sortKeys (keys : list string) : list string :=
  merge_sort Utf16.le keys.

(** [sortedQueryString(params = {})].  [params] is given by
    [Object.entries(params)]. *)
Definition sortedQueryString (params : list (string * ParamValue)) : string :=
  let normalized :=
    fold_left (fun o kv => Obj.set kv.1 (normalizeValue kv.2) o) params [] in
  let keys := sortKeys (Obj.keys normalized) in
  let pairs :=
    List.map (fun key => encodePair (key, default "" (Obj.get key normalized)))
             keys in
  Js.join "&" pairs.

(** The body of the loop over the pairs of [updateQueryString]:
    [const [key, value = ''] = pair.split('=').map(decodeURIComponent)]
    and [queryParams[key] = value].  Every piece is decoded, also those
    after the second, and any failure is the [URIError] of the call. *)
Definition parsePair (pair : string) (queryParams : Obj.t) : option Obj.t :=
  if Js.truthy pair then
    decoded ← mapM Uri.decodeURIComponent (Js.split "=" pair);
    match decoded with
    | key :: rest => Some (Obj.set key (default "" (head rest)) queryParams)
    | [] => None
    end
  else Some queryParams.

Fixpoint parsePairs (pairs : list string) (queryParams : Obj.t) : option Obj.t :=
  match pairs with
  | [] => Some queryParams
  | p :: pairs' => parsePair p queryParams ≫= parsePairs pairs'
  end.

(** [updateQueryString(url, params)]; [None] is a [URIError] from
    [decodeURIComponent].  As for [buildQueryString], [params] is given
    by its own enumerable properties in the order of enumeration. *)
Definition updateQueryString (url : string) (params : Obj.t) : option string :=
  let hashIndex := Str.indexOf url "#" 0 in
  let '(baseUrl, hash) :=
    if negb (hashIndex =? -1)
    then (Str.substring url 0 hashIndex, Js.substring (Z.to_nat hashIndex) url)
    else (url, "") in
  let queryIndex := Str.indexOf baseUrl "?" 0 in
  let '(baseUrl, queryString) :=
    if negb (queryIndex =? -1)
    then (Str.substring baseUrl 0 queryIndex,
          Js.substring (Z.to_nat (queryIndex + 1)) baseUrl)
    else (baseUrl, "") in
  queryParams ← (if Js.truthy queryString
                 then parsePairs (Js.split "&" queryString) []
                 else Some []);
  let queryParams :=
    fold_left (fun o kv => Obj.set kv.1 kv.2 o) params queryParams in
  let newQuery := List.map encodePair (Obj.entries queryParams) in
  Some (baseUrl
        +:+ (if (0 <? length newQuery)%nat then "?" +:+ Js.join "&" newQuery else "")
        +:+ hash).

(** ** The three parts of a URL, as [updateQueryString] cuts it *)

(** From the first [#] on. *)
Definition urlHash (url : string) : string :=
  match Str.find "#" url with
  | Some i => Js.substring i url
  | None => ""
  end.

(** What comes before the first [#]. *)
Definition urlBeforeHash (url : string) : string :=
  match Str.find "#" url with
  | Some i => Str.take i url
  | None => url
  end.

(** What comes before the first [?] of that. *)
Definition urlBase (url : string) : string :=
  match Str.find "?" (urlBeforeHash url) with
  | Some i => Str.take i (urlBeforeHash url)
  | None => urlBeforeHash url
  end.

(** What comes after it. *)
Definition urlQuery (url : string) : string :=
  match Str.find "?" (urlBeforeHash url) with
  | Some i => Js.substring (S i) (urlBeforeHash url)
  | None => ""
  end.

(** The query that [updateQueryString] writes for an object. *)
Definition renderQuery (queryParams : Obj.t) : string :=
  let newQuery := List.map encodePair (Obj.entries queryParams) in
  if (0 <? length newQuery)%nat then "?" +:+ Js.join "&" newQuery else "".

(** [queryParams[key] = params[key]] for every own property of [params]. *)
Definition assignAll (params queryParams : Obj.t) : Obj.t :=
  fold_left (fun o kv => Obj.set kv.1 kv.2 o) params queryParams.

(** An object as the assignments of [updateQueryString] make it: distinct
    names, none of them [__proto__]. *)
Definition objNames (o : Obj.t) : Prop := NoDup o.*1 /\ "__proto__" ∉ o.*1.

(** Names and values that are UTF-8. *)
Definition objText (o : Obj.t) : Prop :=
  Forall (fun kv => Uri.wellFormed kv.1 = true /\ Uri.wellFormed kv.2 = true) o.

(** [n] copies of the prefix [/api/v2] in a row, as they arrive when the
    client adds the prefix to a base URL that carries it already. *)
Fixpoint apiPrefixes (n : nat) : string :=
  match n with
  | O => ""
  | S n' => "/api/v2" +:+ apiPrefixes n'
  end.

(** The path that is left of a request path when the token is taken off:
    ["/" + parts.join("/")] for the segments [parts] that follow it. *)
Definition pathOfSegments (rest : string) : string :=
  "/" +:+ Js.join "/" (Path.segments rest).

(** The value of a decimal digit and the number of characters of a
    numeral, with which the numerals of array indices are measured. *)
Definition digitOf (c : ascii) : N := N.of_nat (nat_of_ascii c - 48).

Definition width (s : string) : N := N.of_nat (String.length s).

(** * Properties *)

(** ** The string primitives and the normaliser on the cases of the
    specification *)

Example split_ex : Js.split "/" "/a//b/" = [""; "a"; ""; "b"; ""].
Proof. reflexivity. Qed.

Example parseInt_ex :
  Js.parseInt "123abc" = Some 123 /\ Js.parseInt "abc" = None /\
  Js.parseInt "-0x1F" = Some (-31) /\ Js.parseInt "" = None.
Proof. repeat split; reflexivity. Qed.

Example normalize_collapse :
  Path.normalize "/api/v2/api/v2/api/v2/search/anime" = "/api/v2/search/anime".
Proof. reflexivity. Qed.

Example normalize_complete :
  Path.normalize "/search/anime" = "/api/v2/search/anime".
Proof. reflexivity. Qed.

Example canonical_ex :
  Path.canonical "secret" "/secret/search/anime" = Some "/api/v2/search/anime"
  /\ Path.canonical "secret" "/wrongtoken/api/v2/search/anime" = None.
Proof. split; reflexivity. Qed.

(** ** Strings *)

Section StringFacts.

Lemma prefix_nil (s : string) : String.prefix "" s = true.
Proof. destruct s; reflexivity. Qed.

Lemma prefix_cons (a b : ascii) (p s : string) :
  String.prefix (String a p) (String b s)
  = if Ascii.eqb a b then String.prefix p s else false.
Proof.
  simpl. destruct (ascii_dec a b) as [->|Hne].
  - now rewrite Ascii.eqb_refl.
  - apply Ascii.eqb_neq in Hne. now rewrite Hne.
Qed.

Lemma prefix_append (p r : string) : String.prefix p (p +:+ r) = true.
Proof.
  induction p as [|a p IH]; simpl.
  - apply prefix_nil.
  - destruct (ascii_dec a a); [exact IH | congruence].
Qed.

Lemma prefix_split (p s : string) :
  String.prefix p s = true -> exists r, s = p +:+ r.
Proof.
  revert s. induction p as [|a p IH]; intros s H.
  - now exists s.
  - destruct s as [|b s]; [discriminate H|].
    rewrite prefix_cons in H.
    destruct (Ascii.eqb a b) eqn:E; [|discriminate H].
    apply Ascii.eqb_eq in E. subst b.
    destruct (IH _ H) as [r ->]. now exists r.
Qed.

Lemma prefix_weaken (a b s : string) :
  String.prefix (a +:+ b) s = true -> String.prefix a s = true.
Proof.
  revert s. induction a as [|c a IH]; intros s H.
  - apply prefix_nil.
  - destruct s as [|d s]; [discriminate H|].
    change (String c a +:+ b) with (String c (a +:+ b)) in H.
    rewrite prefix_cons in *.
    destruct (Ascii.eqb c d); [now apply IH | discriminate H].
Qed.

Lemma length_substring (n : nat) (s : string) :
  String.length (Js.substring n s) = (String.length s - n)%nat.
Proof.
  revert s. induction n as [|n IH]; intros [|c s]; simpl; try lia.
  apply IH.
Qed.

Lemma length_append (p r : string) :
  String.length (p +:+ r) = (String.length p + String.length r)%nat.
Proof. induction p as [|a p IH]; simpl; [reflexivity | now rewrite IH]. Qed.

Lemma prefix_length (p s : string) :
  String.prefix p s = true -> (String.length p <= String.length s)%nat.
Proof.
  intros H. destruct (prefix_split _ _ H) as [r ->].
  rewrite length_append. lia.
Qed.

End StringFacts.

(** ** The normaliser *)

Section Normaliser.

Local Abbreviation dup := "/api/v2/api/v2/" (only parsing).

(** The bound of [collapseLoop] is never reached: any bound at least the
    length of the path gives the same result, and the function satisfies
    the equation of the [while] loop. *)
Lemma collapseLoop_fuel (n m : nat) (p : string) :
  (String.length p <= n)%nat -> (String.length p <= m)%nat ->
  Path.collapseLoop n p = Path.collapseLoop m p.
Proof.
  revert m p. induction n as [|n IH]; intros m p Hn Hm.
  - destruct p; [|simpl in Hn; lia]. destruct m; reflexivity.
  - destruct m as [|m].
    + destruct p; [reflexivity | simpl in Hm; lia].
    + cbn [Path.collapseLoop]; change (String.length "/api/v2") with 7%nat.
      destruct (Js.startsWith p dup) eqn:E; [|reflexivity].
      apply prefix_length in E. simpl in E.
      apply IH; rewrite length_substring; lia.
Qed.

Lemma collapse_unfold (p : string) :
  Path.collapse p =
  if Js.startsWith p dup then Path.collapse (Js.substring 7 p) else p.
Proof.
  unfold Path.collapse. destruct (String.length p) as [|n] eqn:Hlen.
  - destruct p; [reflexivity | discriminate Hlen].
  - cbn [Path.collapseLoop]; change (String.length "/api/v2") with 7%nat.
    destruct (Js.startsWith p dup) eqn:E; [|reflexivity].
    apply prefix_length in E. simpl in E.
    apply collapseLoop_fuel; rewrite length_substring; lia.
Qed.

Lemma collapseLoop_done (n : nat) (p : string) :
  (String.length p <= n)%nat ->
  Js.startsWith (Path.collapseLoop n p) dup = false.
Proof.
  revert p. induction n as [|n IH]; intros p Hn.
  - destruct p; [reflexivity | simpl in Hn; lia].
  - cbn [Path.collapseLoop]; change (String.length "/api/v2") with 7%nat.
    destruct (Js.startsWith p dup) eqn:E; [|exact E].
    apply prefix_length in E. simpl in E.
    apply IH. rewrite length_substring. lia.
Qed.

Lemma collapse_done (p : string) :
  Js.startsWith (Path.collapse p) dup = false.
Proof. now apply collapseLoop_done. Qed.

Lemma collapse_fixed (p : string) :
  Js.startsWith p dup = false -> Path.collapse p = p.
Proof. intros H. now rewrite collapse_unfold, H. Qed.

Lemma collapse_idem (p : string) :
  Path.collapse (Path.collapse p) = Path.collapse p.
Proof. apply collapse_fixed, collapse_done. Qed.

(** What [complete] returns is left alone by both steps. *)
Lemma complete_cases (q : string) :
  (Path.complete q = "/api/v2" +:+ q /\ Js.startsWith q "/api/v2" = false)
  \/ (Path.complete q = q /\
      (Js.startsWith q "/api/v2" = true \/ q = "/"
       \/ Js.startsWith q "/api/logs" = true)).
Proof.
  unfold Path.complete.
  destruct (Js.startsWith q "/api/v2") eqn:E1; simpl; [right; auto|].
  destruct (String.eqb_spec q "/") as [->|E2]; simpl; [right; auto|].
  destruct (Js.startsWith q "/api/logs") eqn:E3; simpl; [right; auto|].
  left; auto.
Qed.

Lemma complete_fixed (q : string) :
  Js.startsWith q "/api/v2" = true \/ q = "/"
  \/ Js.startsWith q "/api/logs" = true ->
  Path.complete q = q.
Proof.
  unfold Path.complete. intros [H | [-> | H]]; [| reflexivity |];
    rewrite H; simpl; [reflexivity|].
  now rewrite andb_false_r.
Qed.

Lemma prefixed_not_dup (q : string) :
  Js.startsWith q "/api/v2" = false ->
  Js.startsWith ("/api/v2" +:+ q) dup = false.
Proof.
  intros H. unfold Js.startsWith in *.
  change (String.prefix dup ("/api/v2" +:+ q)) with (String.prefix "/api/v2/" q).
  destruct (String.prefix "/api/v2/" q) eqn:E; [|reflexivity].
  apply (prefix_weaken "/api/v2" "/") in E. congruence.
Qed.

Lemma normalize_shape (p : string) :
  Path.normalize p = "/"
  \/ Js.startsWith (Path.normalize p) "/api/v2" = true
  \/ Js.startsWith (Path.normalize p) "/api/logs" = true.
Proof.
  unfold Path.normalize.
  destruct (String.eqb_spec p "/") as [->|E1]; simpl; [now left|].
  destruct (String.eqb_spec p "/api/logs") as [->|E2]; simpl; [now right; right|].
  destruct (complete_cases (Path.collapse p)) as [[-> _] | [-> H]].
  - right; left. apply prefix_append.
  - tauto.
Qed.

Lemma normalize_idem (p : string) :
  Path.normalize (Path.normalize p) = Path.normalize p.
Proof.
  unfold Path.normalize at 2 3.
  destruct (negb (String.eqb p "/") && negb (String.eqb p "/api/logs")) eqn:G.
  2: { unfold Path.normalize. now rewrite G. }
  unfold Path.normalize.
  destruct (negb (String.eqb (Path.complete (Path.collapse p)) "/")
            && negb (String.eqb (Path.complete (Path.collapse p)) "/api/logs"));
    [|reflexivity].
  destruct (complete_cases (Path.collapse p)) as [[E H] | [E H]]; rewrite E.
  - rewrite (collapse_fixed _ (prefixed_not_dup _ H)).
    apply complete_fixed. left. apply prefix_append.
  - rewrite collapse_idem. exact E.
Qed.

End Normaliser.

(** C7.  Re-applying the normaliser to its own output changes nothing:
    for every path other than [/] and [/api/logs],
    [normalize (normalize p) = normalize p]. *)
Theorem normalize_idempotent (p : string) :
  p <> "/" -> p <> "/api/logs" ->
  Path.normalize (Path.normalize p) = Path.normalize p.
Proof. intros _ _. apply normalize_idem. Qed.

Lemma normalize_idempotent_witness :
  Path.normalize (Path.normalize "/api/v2/api/v2/comment/12")
  = Path.normalize "/api/v2/api/v2/comment/12".
Proof.
  apply (normalize_idempotent "/api/v2/api/v2/comment/12"); discriminate.
Defined.

(** ** From the entry point to the dispatch table *)

Section Routing.

Context (g : Globals) (w : Collaborators) (currentTime : Z)
        (req : Request) (clientIp : string).

Lemma segments_root_like (p : string) :
  Path.segments p = [] -> Path.authenticate (token g) p = None.
Proof. unfold Path.authenticate. now intros ->. Qed.

Lemma canonical_Some (p path : string) :
  Path.canonical (token g) p = Some path ->
  exists p', Path.authenticate (token g) p = Some p' /\ Path.normalize p' = path.
Proof.
  unfold Path.canonical. destruct (Path.authenticate (token g) p) as [p'|];
    [|discriminate]. intros [= <-]. now exists p'.
Qed.

(** Past the three early returns the handler is the dispatch table applied
    to the canonical path. *)
Lemma handleRequest_dispatch (path : string) :
  pathname req <> "/favicon.ico" -> pathname req <> "/robots.txt" ->
  Path.canonical (token g) (pathname req) = Some path ->
  handleRequest g w currentTime req clientIp
  = dispatch g w currentTime req clientIp path.
Proof.
  intros Hf Hr Hc. destruct (canonical_Some _ _ Hc) as (p' & Ha & <-).
  unfold handleRequest.
  destruct (String.eqb_spec (pathname req) "/") as [E|_].
  { rewrite E in Ha. discriminate Ha. }
  apply String.eqb_neq in Hf, Hr. rewrite Hf, Hr, Ha. reflexivity.
Qed.

Lemma handleRequest_comment (path : string) :
  reachesComment g req path ->
  handleRequest g w currentTime req clientIp
  = handleComment g w currentTime req clientIp path.
Proof.
  intros (Hf & Hr & Hc & Hm & Hp).
  rewrite (handleRequest_dispatch _ Hf Hr Hc).
  destruct (prefix_split _ _ Hp) as [r ->].
  unfold dispatch, isGET, isPOST. rewrite Hm.
  change (Js.startsWith ("/api/v2/comment" +:+ r) "/api/v2/comment")
    with (String.prefix "/api/v2/comment" ("/api/v2/comment" +:+ r)).
  rewrite prefix_append. reflexivity.
Qed.

End Routing.

(** ** The canonical path *)

(** C3, as the specification words it, fails: a path under [/api/logs]
    other than [/api/logs] itself passes the token gate, is left without
    the [/api/v2] prefix by the normaliser and reaches the dispatch table,
    which answers 404. *)
Lemma canonical_path_under_api_logs :
  Path.canonical "secret" "/secret/api/logs/foo" = Some "/api/logs/foo"
  /\ "/api/logs/foo" <> "/"
  /\ Js.startsWith "/api/logs/foo" "/api/v2" = false
  /\ "/api/logs/foo" <> "/api/logs"
  /\ handleRequest (Sample.globals 0) Sample.world 0
       (Sample.get "/secret/api/logs/foo" []) "10.0.0.1" ∅
     = dispatch (Sample.globals 0) Sample.world 0
         (Sample.get "/secret/api/logs/foo" []) "10.0.0.1" "/api/logs/foo" ∅
  /\ dispatch (Sample.globals 0) Sample.world 0
       (Sample.get "/secret/api/logs/foo" []) "10.0.0.1" "/api/logs/foo" ∅
     = (Respond notFound, ∅).
Proof. repeat split; try discriminate; reflexivity. Qed.

(** C3, amended.  For every request that passes the token gate, the path
    handed to the dispatch table equals [/], or starts with [/api/v2], or
    starts with [/api/logs]; and it is that path the dispatch table is
    applied to. *)
Theorem canonical_path_shape (g : Globals) (w : Collaborators)
    (currentTime : Z) (req : Request) (clientIp : string) (path : string) :
  pathname req <> "/favicon.ico" -> pathname req <> "/robots.txt" ->
  Path.canonical (token g) (pathname req) = Some path ->
  (path = "/" \/ Js.startsWith path "/api/v2" = true
   \/ Js.startsWith path "/api/logs" = true)
  /\ handleRequest g w currentTime req clientIp
     = dispatch g w currentTime req clientIp path.
Proof.
  intros Hf Hr Hc. split; [|now apply handleRequest_dispatch].
  destruct (canonical_Some _ _ _ Hc) as (p' & _ & <-).
  apply normalize_shape.
Qed.

Lemma canonical_path_shape_witness :
  ("/api/v2/comment/10001" = "/"
   \/ Js.startsWith "/api/v2/comment/10001" "/api/v2" = true
   \/ Js.startsWith "/api/v2/comment/10001" "/api/logs" = true)
  /\ handleRequest (Sample.globals 3) Sample.world 0
       (Sample.get "/secret/comment/10001" []) "10.0.0.1"
     = dispatch (Sample.globals 3) Sample.world 0
         (Sample.get "/secret/comment/10001" []) "10.0.0.1"
         "/api/v2/comment/10001".
Proof.
  apply (canonical_path_shape (Sample.globals 3) Sample.world 0
           (Sample.get "/secret/comment/10001" []) "10.0.0.1").
  - discriminate.
  - discriminate.
  - reflexivity.
Defined.

(** ** The token gate *)

(** C8.  A request whose path is none of [/], [/favicon.ico] and
    [/robots.txt], and whose path has no non-empty segment or a first
    non-empty segment other than the token, is answered 401 with the
    [Unauthorized] body; [/favicon.ico] and [/robots.txt] are answered 204
    without any look at the token.  The history is left as it was. *)
Theorem token_gate (g : Globals) (w : Collaborators) (currentTime : Z)
    (req : Request) (clientIp : string) (h : History) :
  (pathname req <> "/" -> pathname req <> "/favicon.ico" ->
   pathname req <> "/robots.txt" ->
   length (Path.segments (pathname req)) = 0%nat
   \/ head (Path.segments (pathname req)) <> Some (token g) ->
   handleRequest g w currentTime req clientIp h
   = (Respond (jsonResponse
        (JObj [("errorCode", JNum 401); ("success", JBool false);
               ("errorMessage", JStr "Unauthorized")]) 401), h))
  /\ (pathname req = "/favicon.ico" \/ pathname req = "/robots.txt" ->
      handleRequest g w currentTime req clientIp h
      = (Respond {| status := 204; headers := []; body := BodyNull |}, h)).
Proof.
  split.
  - intros H0 Hf Hr Hseg. unfold handleRequest.
    apply String.eqb_neq in H0, Hf, Hr. rewrite H0, Hf, Hr. simpl.
    unfold Path.authenticate.
    destruct (Path.segments (pathname req)) as [|first rest]; [reflexivity|].
    destruct Hseg as [Hlen | Hhd]; [discriminate Hlen|].
    destruct (String.eqb_spec first (token g)) as [->|_]; [|reflexivity].
    now contradiction Hhd.
  - intros [E | E]; unfold handleRequest; rewrite E; simpl.
    + now destruct (isGET req).
    + now destruct (isGET req).
Qed.

Lemma token_gate_witness :
  handleRequest (Sample.globals 3) Sample.world 0
    (Sample.get "/wrongtoken/api/v2/search/anime" []) "10.0.0.1" ∅
  = (Respond unauthorized, ∅)
  /\ handleRequest (Sample.globals 3) Sample.world 0
       (Sample.get "/robots.txt" []) "10.0.0.1" ∅
     = (Respond noContent, ∅).
Proof.
  destruct (token_gate (Sample.globals 3) Sample.world 0
              (Sample.get "/wrongtoken/api/v2/search/anime" []) "10.0.0.1" ∅)
    as [H401 _].
  destruct (token_gate (Sample.globals 3) Sample.world 0
              (Sample.get "/robots.txt" []) "10.0.0.1" ∅)
    as [_ H204].
  split.
  - apply H401; try discriminate. right. discriminate.
  - apply H204. right. reflexivity.
Defined.

(** ** The rate-limit block *)

Section Limiter.

Context (g : Globals) (currentTime : Z) (clientIp : string).

(** The block in one equation. *)
Lemma rateLimit_eq (h : History) :
  rateLimit g currentTime clientIp h =
  if 0 <? rateLimitMaxRequests g then
    let recentRequests := filterRecent currentTime (historyOf (swept currentTime clientIp h) clientIp) in
    if rateLimitMaxRequests g <=? Z.of_nat (length recentRequests)
    then (Some tooManyRequests, swept currentTime clientIp h)
    else (None, <[clientIp := (recentRequests ++ [currentTime])%list]> (swept currentTime clientIp h))
  else (None, h).
Proof.
  unfold rateLimit, swept, historyOf.
  destruct (0 <? rateLimitMaxRequests g); [|reflexivity].
  unfold mbind, M_bind, mret, M_ret, gets, modify. cbn beta iota.
  destruct (bool_decide (is_Some (cleanupExpiredIPs currentTime h !! clientIp)));
    cbn beta iota;
    match goal with |- context [?a <=? ?b] => destruct (a <=? b) end;
    reflexivity.
Qed.

Lemma filterRecent_sweep (l : list Z) :
  filterRecent currentTime
    (filter (fun timestamp => ¬ timestamp < currentTime - oneMinute) l)
  = filterRecent currentTime l.
Proof.
  unfold filterRecent. induction l as [|ts l IH]; [reflexivity|].
  rewrite !filter_cons.
  destruct (decide (¬ ts < currentTime - oneMinute)) as [Hk|Hk];
    destruct (decide (recent currentTime ts)) as [Hr|Hr];
    rewrite ?filter_cons, ?IH; unfold recent in *.
  - now rewrite decide_True.
  - now rewrite decide_False.
  - lia.
  - reflexivity.
Qed.

Lemma historyOf_swept (h : History) :
  historyOf (swept currentTime clientIp h) clientIp
  = filter (fun timestamp => ¬ timestamp < currentTime - oneMinute)
      (historyOf h clientIp).
Proof.
  unfold swept, historyOf, cleanupExpiredIPs.
  case_bool_decide as Hs.
  - rewrite lookup_fmap. now destruct (h !! clientIp).
  - rewrite lookup_insert_eq. rewrite lookup_fmap in Hs.
    destruct (h !! clientIp); [|reflexivity].
    exfalso. apply Hs. eauto.
Qed.

Lemma swept_lookup (h : History) :
  swept currentTime clientIp h !! clientIp = Some (historyOf (swept currentTime clientIp h) clientIp).
Proof.
  unfold historyOf, swept. case_bool_decide as Hs.
  - destruct Hs as [l ->]. reflexivity.
  - now rewrite lookup_insert_eq.
Qed.

(** The count that is compared with the capacity is the number of the
    client's timestamps that pass the window test, whether or not the
    sweep ran first. *)
Lemma recent_after_sweep (h : History) :
  filterRecent currentTime (historyOf (swept currentTime clientIp h) clientIp)
  = filterRecent currentTime (historyOf h clientIp).
Proof. rewrite historyOf_swept. apply filterRecent_sweep. Qed.

Lemma rateLimit_rejects (h : History) :
  0 < rateLimitMaxRequests g ->
  rateLimitMaxRequests g
  <= Z.of_nat (length (filterRecent currentTime (historyOf h clientIp))) ->
  rateLimit g currentTime clientIp h = (Some tooManyRequests, swept currentTime clientIp h).
Proof.
  intros Hpos Hfull. rewrite rateLimit_eq.
  apply Z.ltb_lt in Hpos. rewrite Hpos. cbn zeta.
  rewrite recent_after_sweep. apply Z.leb_le in Hfull. now rewrite Hfull.
Qed.

Lemma rateLimit_admits (h : History) :
  0 < rateLimitMaxRequests g ->
  Z.of_nat (length (filterRecent currentTime (historyOf h clientIp)))
  < rateLimitMaxRequests g ->
  rateLimit g currentTime clientIp h
  = (None, <[clientIp := (filterRecent currentTime (historyOf h clientIp)
                          ++ [currentTime])%list]> (swept currentTime clientIp h)).
Proof.
  intros Hpos Hroom. rewrite rateLimit_eq.
  apply Z.ltb_lt in Hpos. rewrite Hpos. cbn zeta.
  rewrite recent_after_sweep.
  destruct (Z.leb_spec (rateLimitMaxRequests g)
              (Z.of_nat (length (filterRecent currentTime (historyOf h clientIp)))));
    [lia | reflexivity].
Qed.

Lemma rateLimit_disabled (h : History) :
  rateLimitMaxRequests g <= 0 ->
  rateLimit g currentTime clientIp h = (None, h).
Proof.
  intros Hoff. unfold rateLimit.
  destruct (Z.ltb_spec 0 (rateLimitMaxRequests g)); [lia | reflexivity].
Qed.

(** Whatever the history, the block either returns the 429 response or
    falls through. *)
Lemma rateLimit_cases (h : History) :
  fst (rateLimit g currentTime clientIp h) = Some tooManyRequests
  \/ fst (rateLimit g currentTime clientIp h) = None.
Proof.
  rewrite rateLimit_eq.
  destruct (0 <? rateLimitMaxRequests g); [|now right]. cbn zeta.
  match goal with |- context [?a <=? ?b] => destruct (a <=? b) end; auto.
Qed.

End Limiter.

(** ** The comment branch *)

Section CommentBranch.

Context (g : Globals) (w : Collaborators) (currentTime : Z)
        (req : Request) (clientIp : string).

Lemma truthyOpt_Some (s : string) : s <> "" -> truthyOpt (Some s) = Some s.
Proof.
  intros Hs. unfold truthyOpt, Js.truthy.
  apply String.eqb_neq in Hs. now rewrite Hs.
Qed.

Lemma handleComment_hit (path url : string) (cachedComments : list Json) :
  Addresses w req path url ->
  getCommentCache w url = Some cachedComments ->
  handleComment g w currentTime req clientIp path
  = mret (FormatDanmuResponse (cachedResponseData cachedComments)
            (searchParams_get "format" (searchParams req))).
Proof.
  intros Haddr Hhit. unfold handleComment.
  destruct Haddr as [videoUrl Hq Hne | urlForComment Hq Hp Hid Hne].
  - rewrite Hq, (truthyOpt_Some _ Hne), Hhit. reflexivity.
  - rewrite Hq, Hp. cbn [negb].
    unfold commentIdOf in Hid. rewrite Hid, (truthyOpt_Some _ Hne).
    cbn [mbind option_bind]. rewrite Hhit. reflexivity.
Qed.

Lemma handleComment_miss (path : string) (h : History) :
  CacheMiss w req path ->
  handleComment g w currentTime req clientIp path h
  = (match fst (rateLimit g currentTime clientIp h) with
     | Some r => Respond r
     | None => fetch req path
     end, snd (rateLimit g currentTime clientIp h)).
Proof.
  intros Hmiss. unfold handleComment, fetch.
  destruct Hmiss as [videoUrl Hq Hne Hc | Hq Hp Hc].
  - rewrite Hq, (truthyOpt_Some _ Hne), Hc.
    unfold mbind, M_bind.
    now destruct (rateLimit g currentTime clientIp h) as [[r|] h'].
  - rewrite Hq, Hp. cbn [negb]. unfold commentIdOf in Hc. rewrite Hc.
    unfold mbind, M_bind.
    now destruct (rateLimit g currentTime clientIp h) as [[r|] h'].
Qed.

Lemma handleComment_no_id (path : string) :
  truthyOpt (searchParams_get "url" (searchParams req)) = None ->
  Js.startsWith path "/api/v2/comment/" = false ->
  handleComment g w currentTime req clientIp path
  = mret (Respond missingParameter).
Proof. intros Hq Hp. unfold handleComment. now rewrite Hq, Hp. Qed.

(** The three ways through the comment branch when the path carries a
    segment after [/api/v2/comment/] or the request carries a URL. *)
Lemma handleComment_cases (path : string) :
  (truthyOpt (searchParams_get "url" (searchParams req)) = None /\
   Js.startsWith path "/api/v2/comment/" = false)
  \/ (exists url cachedComments,
        Addresses w req path url /\
        getCommentCache w url = Some cachedComments)
  \/ CacheMiss w req path.
Proof.
  destruct (truthyOpt (searchParams_get "url" (searchParams req)))
    as [videoUrl|] eqn:Hq.
  - assert (searchParams_get "url" (searchParams req) = Some videoUrl
            /\ videoUrl <> "") as [Hq' Hne].
    { unfold truthyOpt, Js.truthy in Hq.
      destruct (searchParams_get "url" (searchParams req)) as [s|]; [|discriminate].
      destruct (String.eqb_spec s ""); [discriminate|].
      now injection Hq as ->. }
    right. destruct (getCommentCache w videoUrl) as [cs|] eqn:Hc.
    + left. exists videoUrl, cs. split; [now apply ByUrl | exact Hc].
    + right. now apply (MissByUrl _ _ _ videoUrl).
  - destruct (Js.startsWith path "/api/v2/comment/") eqn:Hp; [|now left].
    right.
    destruct (truthyOpt (findUrlById w (commentIdOf path)) ≫= getCommentCache w)
      as [cs|] eqn:Hc.
    + left. unfold truthyOpt, Js.truthy in Hc.
      destruct (findUrlById w (commentIdOf path)) as [u|] eqn:Hid; [|discriminate].
      destruct (String.eqb_spec u ""); [discriminate|].
      exists u, cs. split; [now apply ById | exact Hc].
    + right. now apply MissById.
Qed.

End CommentBranch.

(** Every call of the handler either leaves the history alone and answers
    without admitting anything and without a 429, or is a comment request
    that missed the cache and went through the rate-limit block. *)
Lemma handleRequest_cases (g : Globals) (w : Collaborators) (currentTime : Z)
    (req : Request) (clientIp : string) (h : History) :
  (exists o, handleRequest g w currentTime req clientIp h = (o, h)
             /\ admitted o = false
             /\ forall r, o = Respond r -> status r <> 429)
  \/ (exists path, reachesComment g req path /\ CacheMiss w req path).
Proof.
  unfold handleRequest.
  destruct (String.eqb (pathname req) "/" && isGET req);
    [left; eexists; repeat split; intros r [= <-]; discriminate|].
  destruct (String.eqb_spec (pathname req) "/favicon.ico") as [|Hf];
    [left; eexists; repeat split; intros r [= <-]; discriminate|].
  destruct (String.eqb_spec (pathname req) "/robots.txt") as [|Hr];
    [left; eexists; repeat split; intros r [= <-]; discriminate|].
  cbn [orb].
  destruct (Path.authenticate (token g) (pathname req)) as [p|] eqn:Ha;
    [|left; eexists; repeat split; intros r [= <-]; discriminate].
  unfold dispatch.
  repeat match goal with
  | |- context [if (?a && isGET req) then _ else _] =>
      lazymatch a with
      | Js.startsWith _ "/api/v2/comment" => fail
      | _ => destruct (a && isGET req);
             [left; eexists; repeat split; intros r [= <-]; discriminate|]
      end
  | |- context [if (?a && isPOST req) then _ else _] =>
      destruct (a && isPOST req);
      [left; eexists; repeat split; intros r [= <-]; discriminate|]
  end.
  destruct (Js.startsWith (Path.normalize p) "/api/v2/comment") eqn:Hp;
    cbn [andb].
  2: { destruct (String.eqb (Path.normalize p) "/api/logs" && isGET req);
       left; eexists; repeat split; intros r [= <-]; discriminate. }
  destruct (isGET req) eqn:Hm.
  2: { destruct (String.eqb (Path.normalize p) "/api/logs" && false);
       left; eexists; repeat split; intros r [= <-]; discriminate. }
  assert (reachesComment g req (Path.normalize p)) as Hreach.
  { repeat split; try assumption.
    - unfold Path.canonical. now rewrite Ha.
    - now apply String.eqb_eq. }
  destruct (handleComment_cases w req (Path.normalize p))
    as [[Hq Hn] | [(u & cs & Haddr & Hc) | Hmiss]].
  - rewrite (handleComment_no_id g w currentTime req clientIp _ Hq Hn).
    left; eexists; repeat split; intros r [= <-]; discriminate.
  - rewrite (handleComment_hit g w currentTime req clientIp _ _ _ Haddr Hc).
    left; eexists; repeat split; intros r [= <-].
  - right. now exists (Path.normalize p).
Qed.

(** ** Paths past the token gate do not end in a slash *)

Section Segments.

Local Abbreviation slash := "/"%char (only parsing).

Lemma lastChar_cons (c : ascii) (s : string) :
  s <> "" -> Js.lastChar (String c s) = Js.lastChar s.
Proof. destruct s; [congruence | reflexivity]. Qed.

Lemma lastChar_append (p r : string) :
  r <> "" -> Js.lastChar (p +:+ r) = Js.lastChar r.
Proof.
  intros Hr. induction p as [|c p IH]; [reflexivity|].
  change (String c p +:+ r) with (String c (p +:+ r)).
  rewrite lastChar_cons; [exact IH|]. destruct p; [exact Hr | discriminate].
Qed.

Lemma split_nonempty (sep : ascii) (s : string) : Js.split sep s <> [].
Proof.
  destruct s as [|c s]; cbn [Js.split]; [discriminate|].
  destruct (Ascii.eqb c sep); [discriminate|].
  destruct (Js.split sep s); discriminate.
Qed.

Lemma pop_cons {A} (x y : A) (l : list A) :
  Js.pop (x :: y :: l) = Js.pop (y :: l).
Proof. reflexivity. Qed.

(** The last piece of a split is empty only for the empty string and for
    a string that ends with the separator. *)
Lemma pop_split (sep : ascii) (s : string) :
  exists seg, Js.pop (Js.split sep s) = Some seg
              /\ (seg = "" -> s = "" \/ Js.lastChar s = Some sep).
Proof.
  induction s as [|c s (seg & Hpop & Hseg)].
  - exists "". split; [reflexivity | now left].
  - cbn [Js.split]. pose proof (split_nonempty sep s) as Hne.
    destruct (Ascii.eqb_spec c sep) as [->|Hc].
    + destruct (Js.split sep s) as [|w ws] eqn:E; [congruence|].
      rewrite pop_cons. exists seg. split; [exact Hpop|].
      intros Hempty. right. destruct (Hseg Hempty) as [-> | Hlast].
      * reflexivity.
      * rewrite lastChar_cons; [exact Hlast|]. now intros ->.
    + destruct (Js.split sep s) as [|w [|w' ws]] eqn:E; [congruence| |].
      * exists (String c w). split; [reflexivity | discriminate].
      * rewrite pop_cons. exists seg. split; [exact Hpop|].
        intros Hempty. right. destruct (Hseg Hempty) as [-> | Hlast].
        -- discriminate E.
        -- rewrite lastChar_cons; [exact Hlast|]. now intros ->.
Qed.

Lemma split_pieces (sep : ascii) (s : string) :
  Forall (fun seg => Js.lastChar seg <> Some sep) (Js.split sep s).
Proof.
  induction s as [|c s IH].
  - repeat constructor. discriminate.
  - cbn [Js.split]. destruct (Ascii.eqb_spec c sep) as [->|Hc].
    + constructor; [discriminate | exact IH].
    + destruct (Js.split sep s) as [|w ws]; [repeat constructor; cbn; congruence|].
      apply Forall_cons in IH. destruct IH as [Hw Hws].
      constructor; [|exact Hws].
      destruct w; [cbn; congruence | exact Hw].
Qed.

Lemma join_lastChar (l : list string) :
  l <> [] ->
  Forall (fun seg => seg <> "" /\ Js.lastChar seg <> Some slash) l ->
  Js.join "/" l <> "" /\ Js.lastChar (Js.join "/" l) <> Some slash.
Proof.
  intros Hne Hall. induction Hall as [|x l [Hx Hlast] Hall IH]; [congruence|].
  destruct l as [|y l]; [now split|].
  destruct IH as [IHne IHlast]; [discriminate|].
  change (Js.join "/" (x :: y :: l)) with (x +:+ ("/" +:+ Js.join "/" (y :: l))).
  split.
  - destruct x; [congruence | discriminate].
  - rewrite lastChar_append by discriminate.
    now rewrite (lastChar_append "/" _ IHne).
Qed.

Lemma segments_pieces (p : string) :
  Forall (fun seg => seg <> "" /\ Js.lastChar seg <> Some slash) (Path.segments p).
Proof.
  unfold Path.segments, Js.filterBoolean. apply Forall_forall. intros seg Hin.
  apply list_elem_of_In, filter_In in Hin. destruct Hin as [Hin Ht]. split.
  - intros ->. discriminate Ht.
  - pose proof (split_pieces slash p) as Hall.
    rewrite Forall_forall in Hall. apply Hall. now apply list_elem_of_In.
Qed.

Lemma authenticate_tidy (token p wp : string) :
  Path.authenticate token p = Some wp ->
  wp = "/" \/ Js.lastChar wp <> Some slash.
Proof.
  unfold Path.authenticate. pose proof (segments_pieces p) as Hall.
  destruct (Path.segments p) as [|first rest]; [discriminate|].
  destruct (String.eqb first token); [|discriminate]. intros [= <-].
  apply Forall_cons in Hall. destruct Hall as [_ Hrest].
  destruct rest as [|x rest]; [now left|]. right.
  destruct (join_lastChar (x :: rest)) as [Hne Hlast]; [discriminate | exact Hrest |].
  cbn [Js.slice1 tl]. now rewrite lastChar_append.
Qed.

Lemma collapseLoop_lastChar (n : nat) (p : string) :
  Js.lastChar (Path.collapseLoop n p) = Js.lastChar p.
Proof.
  revert p. induction n as [|n IH]; intros p; [reflexivity|].
  cbn [Path.collapseLoop].
  destruct (Js.startsWith p "/api/v2/api/v2/") eqn:E; [|reflexivity].
  rewrite IH. destruct (prefix_split _ _ E) as [r ->].
  change (Js.substring (String.length "/api/v2") ("/api/v2/api/v2/" +:+ r))
    with ("/api/v2/" +:+ r).
  change ("/api/v2/api/v2/" +:+ r) with ("/api/v2" +:+ ("/api/v2/" +:+ r)).
  now rewrite (lastChar_append "/api/v2").
Qed.

Lemma normalize_tidy (p : string) :
  p = "/" \/ Js.lastChar p <> Some slash ->
  Path.normalize p = "/" \/ Js.lastChar (Path.normalize p) <> Some slash.
Proof.
  intros [-> | Hlast]; [now left|]. right.
  unfold Path.normalize.
  destruct (negb (String.eqb p "/") && negb (String.eqb p "/api/logs"));
    [|exact Hlast].
  unfold Path.complete, Path.collapse.
  destruct (_ && _ && _).
  - destruct (Path.collapseLoop (String.length p) p) eqn:E; [discriminate|].
    rewrite lastChar_append by discriminate.
    now rewrite <- E, collapseLoop_lastChar.
  - now rewrite collapseLoop_lastChar.
Qed.

(** On a canonical path, a start with [/api/v2/comment/] means that a
    non-empty segment follows: it is that segment [parseInt] is given. *)
Lemma comment_id_segment (token p path : string) :
  Path.canonical token p = Some path ->
  Js.startsWith path "/api/v2/comment/" = true ->
  exists seg, Js.pop (Js.split "/" path) = Some seg /\ seg <> "".
Proof.
  intros Hc Hp. unfold Path.canonical in Hc.
  destruct (Path.authenticate token p) as [wp|] eqn:Ha; [|discriminate].
  injection Hc as <-.
  pose proof (normalize_tidy _ (authenticate_tidy _ _ _ Ha)) as Htidy.
  destruct (pop_split slash (Path.normalize wp)) as (seg & Hpop & Hseg).
  exists seg. split; [exact Hpop|]. intros Hempty.
  destruct (prefix_split _ _ Hp) as [r Hr].
  destruct Htidy as [E | Hlast]; [rewrite E in Hr; discriminate Hr|].
  destruct (Hseg Hempty) as [E | E]; [rewrite E in Hr; discriminate Hr|].
  contradiction.
Qed.

End Segments.

(** ** Cache first, then the limiter *)

(** C1.  A GET comment request, addressed by a [url] parameter or by an
    identifier that resolves to a URL, whose URL has an entry in the
    comment cache (the empty list included) is answered with the formatted
    cached comments; the answer is the same for every capacity and every
    request history, and the history comes back as it was: the rate-limit
    block is not run. *)
Theorem cache_hit_skips_rate_limit (g : Globals) (w : Collaborators)
    (currentTime : Z) (req : Request) (clientIp : string)
    (path url : string) (cachedComments : list Json) :
  reachesComment g req path ->
  Addresses w req path url ->
  getCommentCache w url = Some cachedComments ->
  forall h : History,
    handleRequest g w currentTime req clientIp h
    = (FormatDanmuResponse
         (JObj [("count", JNum (Z.of_nat (length cachedComments)));
                ("comments", JArr cachedComments)])
         (searchParams_get "format" (searchParams req)), h).
Proof.
  intros Hreach Haddr Hhit h.
  rewrite (handleRequest_comment _ _ _ _ _ _ Hreach).
  now rewrite (handleComment_hit _ _ _ _ _ _ _ _ Haddr Hhit).
Qed.

Lemma cache_hit_skips_rate_limit_witness :
  handleRequest (Sample.globals 1) Sample.world 1000
    (Sample.get "/secret/api/v2/comment/10002" []) "10.0.0.1"
    {[ "10.0.0.1" := [900] ]}
  = (FormatDanmuResponse (JObj [("count", JNum 0); ("comments", JArr [])]) None,
     {[ "10.0.0.1" := [900] ]})
  /\ handleRequest (Sample.globals 1) Sample.world 1000
       (Sample.get "/secret/comment" [("url", "https://v.example.com/ep1")])
       "10.0.0.1" {[ "10.0.0.1" := [900] ]}
     = (FormatDanmuResponse
          (JObj [("count", JNum 1); ("comments", JArr [Sample.comment])]) None,
        {[ "10.0.0.1" := [900] ]}).
Proof.
  split.
  - apply (cache_hit_skips_rate_limit (Sample.globals 1) Sample.world 1000
             (Sample.get "/secret/api/v2/comment/10002" []) "10.0.0.1"
             "/api/v2/comment/10002" "https://v.example.com/ep2" []).
    + repeat split; try discriminate; reflexivity.
    + apply ById; [reflexivity | reflexivity | reflexivity | discriminate].
    + reflexivity.
  - apply (cache_hit_skips_rate_limit (Sample.globals 1) Sample.world 1000
             (Sample.get "/secret/comment" [("url", "https://v.example.com/ep1")])
             "10.0.0.1" "/api/v2/comment" "https://v.example.com/ep1"
             [Sample.comment]).
    + repeat split; try discriminate; reflexivity.
    + apply ByUrl; [reflexivity | discriminate].
    + reflexivity.
Defined.

(** ** The missing-parameter answer *)

(** C4, as the specification words it, fails: a trailing segment that is
    not a number is not answered 400.  The request goes on to the
    rate-limit block and to [getComment] (or is answered 429 when the
    client has used up its capacity). *)
Lemma unparsable_comment_id_not_400 :
  reachesComment (Sample.globals 0)
    (Sample.get "/secret/api/v2/comment/abc" []) "/api/v2/comment/abc"
  /\ searchParams_get "url" (searchParams (Sample.get "/secret/api/v2/comment/abc" []))
     = None
  /\ Js.pop (Js.split "/" "/api/v2/comment/abc") = Some "abc"
  /\ Js.parseInt "abc" = None
  /\ handleRequest (Sample.globals 0) Sample.world 1000
       (Sample.get "/secret/api/v2/comment/abc" []) "10.0.0.1" ∅
     = (GetComment "/api/v2/comment/abc" None, ∅)
  /\ handleRequest (Sample.globals 1) Sample.world 1000
       (Sample.get "/secret/api/v2/comment/abc" []) "10.0.0.1"
       {[ "10.0.0.1" := [900] ]}
     = (Respond tooManyRequests, {[ "10.0.0.1" := [900] ]})
  /\ GetComment "/api/v2/comment/abc" None <> Respond missingParameter
  /\ tooManyRequests <> missingParameter.
Proof. repeat split; try discriminate; reflexivity. Qed.

(** C4, amended.  A GET request in the [/api/v2/comment] family without a
    (non-empty) [url] parameter is answered 400 with the
    [Missing commentId or url parameter] body when its path does not start
    with [/api/v2/comment/], that is when no segment follows; when the
    path starts with [/api/v2/comment/] a non-empty segment does follow,
    and the handler never answers 400, whether the segment parses as an
    integer or not. *)
Theorem missing_comment_id (g : Globals) (w : Collaborators)
    (currentTime : Z) (req : Request) (clientIp : string) (path : string)
    (h : History) :
  reachesComment g req path ->
  truthyOpt (searchParams_get "url" (searchParams req)) = None ->
  (Js.startsWith path "/api/v2/comment/" = false ->
   handleRequest g w currentTime req clientIp h
   = (Respond (jsonResponse
        (JObj [("errorCode", JNum 400); ("success", JBool false);
               ("errorMessage", JStr "Missing commentId or url parameter")])
        400), h))
  /\ (Js.startsWith path "/api/v2/comment/" = true ->
      (exists seg, Js.pop (Js.split "/" path) = Some seg /\ seg <> "")
      /\ forall r, fst (handleRequest g w currentTime req clientIp h) = Respond r ->
                   status r <> 400).
Proof.
  intros Hreach Hq. rewrite (handleRequest_comment _ _ _ _ _ _ Hreach). split.
  - intros Hp. now rewrite (handleComment_no_id _ _ _ _ _ _ Hq Hp).
  - intros Hp. split.
    { destruct Hreach as (_ & _ & Hc & _). exact (comment_id_segment _ _ _ Hc Hp). }
    intros r.
    destruct (handleComment_cases w req path)
      as [[_ Hn] | [(u & cs & Haddr & Hc) | Hmiss]].
    + congruence.
    + rewrite (handleComment_hit _ _ _ _ _ _ _ _ Haddr Hc). discriminate.
    + rewrite (handleComment_miss _ _ _ _ _ _ _ Hmiss). cbn [fst].
      destruct (rateLimit_cases g currentTime clientIp h) as [-> | ->].
      * intros [= <-]. discriminate.
      * unfold fetch. rewrite Hq. discriminate.
Qed.

Lemma missing_comment_id_witness :
  handleRequest (Sample.globals 3) Sample.world 1000
    (Sample.get "/secret/api/v2/comment" []) "10.0.0.1" ∅
  = (Respond missingParameter, ∅).
Proof.
  apply (missing_comment_id (Sample.globals 3) Sample.world 1000
           (Sample.get "/secret/api/v2/comment" []) "10.0.0.1"
           "/api/v2/comment" ∅).
  - repeat split; try discriminate; reflexivity.
  - reflexivity.
  - reflexivity.
Defined.

(** ** Rejection, admission and the window *)

Lemma historyOf_insert (h : History) (clientIp : string) (l : list Z) :
  historyOf (<[clientIp := l]> h) clientIp = l.
Proof. unfold historyOf. now rewrite lookup_insert_eq. Qed.

Lemma sweep_is_filterRecent (currentTime : Z) (l : list Z) :
  filter (fun timestamp => ¬ timestamp < currentTime - oneMinute) l
  = filterRecent currentTime l.
Proof. apply list_filter_iff. intros ts. unfold recent. lia. Qed.

(** C6.  A comment request that reaches the rate-limit block (capacity
    above zero, cache miss) while the client has at least [capacity]
    timestamps inside the window is answered 429 with the
    [Too many requests] body, and no timestamp is added: the client's
    entry holds what it held inside the window before the call. *)
Theorem full_window_rejects (g : Globals) (w : Collaborators)
    (currentTime : Z) (req : Request) (clientIp : string) (path : string)
    (h : History) :
  reachesComment g req path ->
  CacheMiss w req path ->
  0 < rateLimitMaxRequests g ->
  rateLimitMaxRequests g
  <= Z.of_nat (length (filterRecent currentTime (historyOf h clientIp))) ->
  handleRequest g w currentTime req clientIp h
  = (Respond (jsonResponse
       (JObj [("errorCode", JNum 429); ("success", JBool false);
              ("errorMessage", JStr "Too many requests, please try again later")])
       429), swept currentTime clientIp h)
  /\ historyOf (swept currentTime clientIp h) clientIp
     = filterRecent currentTime (historyOf h clientIp)
  /\ (length (historyOf (swept currentTime clientIp h) clientIp)
      <= length (historyOf h clientIp))%nat.
Proof.
  intros Hreach Hmiss Hpos Hfull.
  rewrite (handleRequest_comment _ _ _ _ _ _ Hreach).
  rewrite (handleComment_miss _ _ _ _ _ _ _ Hmiss).
  rewrite (rateLimit_rejects _ _ _ _ Hpos Hfull). cbn [fst snd].
  rewrite historyOf_swept, sweep_is_filterRecent.
  repeat split. apply length_filter.
Qed.

Lemma full_window_rejects_witness :
  handleRequest (Sample.globals 2) Sample.world 61000
    (Sample.get "/secret/api/v2/comment/10003" []) "10.0.0.1"
    Sample.busy
  = (Respond tooManyRequests,
     swept 61000 "10.0.0.1" Sample.busy)
  /\ historyOf (swept 61000 "10.0.0.1" Sample.busy)
       "10.0.0.1"
     = filterRecent 61000 (historyOf Sample.busy "10.0.0.1")
  /\ (length (historyOf (swept 61000 "10.0.0.1"
                           Sample.busy) "10.0.0.1")
      <= length (historyOf Sample.busy "10.0.0.1"))%nat.
Proof.
  apply (full_window_rejects (Sample.globals 2) Sample.world 61000
           (Sample.get "/secret/api/v2/comment/10003" []) "10.0.0.1"
           "/api/v2/comment/10003").
  - repeat split; try discriminate; reflexivity.
  - apply MissById; reflexivity.
  - reflexivity.
  - vm_compute. discriminate.
Defined.

(** C10.  After a comment request is admitted under a capacity [N > 0],
    the client's entry is its former timestamps inside the window followed
    by the current time; it has at most [N] elements, all of which pass
    the window test of the handler, and all of which lie between
    [currentTime - 60000] and [currentTime] when no former timestamp is
    later than the current time. *)
Theorem admission_prunes_history (g : Globals) (w : Collaborators)
    (currentTime : Z) (req : Request) (clientIp : string) (h : History) :
  0 < rateLimitMaxRequests g ->
  admitted (fst (handleRequest g w currentTime req clientIp h)) = true ->
  let stored := historyOf (snd (handleRequest g w currentTime req clientIp h)) clientIp in
  stored = (filterRecent currentTime (historyOf h clientIp) ++ [currentTime])%list
  /\ Z.of_nat (length stored) <= rateLimitMaxRequests g
  /\ Forall (recent currentTime) stored
  /\ (Forall (fun ts => ts <= currentTime) (historyOf h clientIp) ->
      Forall (fun ts => currentTime - oneMinute <= ts <= currentTime) stored).
Proof.
  intros Hpos Hadm stored. subst stored.
  destruct (handleRequest_cases g w currentTime req clientIp h)
    as [(o & E & Hno & _) | (path & Hreach & Hmiss)].
  { rewrite E in Hadm. cbn [fst] in Hadm. congruence. }
  rewrite (handleRequest_comment _ _ _ _ _ _ Hreach) in *.
  rewrite (handleComment_miss _ _ _ _ _ _ _ Hmiss) in *. cbn [fst snd] in *.
  destruct (Z.le_gt_cases (rateLimitMaxRequests g)
              (Z.of_nat (length (filterRecent currentTime (historyOf h clientIp)))))
    as [Hfull | Hroom].
  { rewrite (rateLimit_rejects _ _ _ _ Hpos Hfull) in Hadm. discriminate Hadm. }
  rewrite (rateLimit_admits _ _ _ _ Hpos Hroom). cbn [snd].
  rewrite !historyOf_insert.
  split; [reflexivity|]. split; [|split].
  - rewrite length_app. cbn [length]. lia.
  - apply Forall_app. split.
    + apply Forall_forall. intros ts Hin.
      apply list_elem_of_filter in Hin. tauto.
    + apply Forall_singleton. unfold recent, oneMinute. lia.
  - intros Hpast. apply Forall_app. split.
    + apply Forall_forall. intros ts Hin.
      apply list_elem_of_filter in Hin. destruct Hin as [Hrec Hin].
      rewrite Forall_forall in Hpast. specialize (Hpast ts Hin).
      unfold recent in Hrec. lia.
    + apply Forall_singleton. unfold oneMinute. lia.
Qed.

Lemma admission_prunes_history_witness :
  let stored :=
    historyOf (snd (handleRequest (Sample.globals 3) Sample.world 61000
                      (Sample.get "/secret/api/v2/comment/10003" []) "10.0.0.1"
                      Sample.busy)) "10.0.0.1" in
  stored = (filterRecent 61000
              (historyOf Sample.busy "10.0.0.1")
            ++ [61000])%list
  /\ Z.of_nat (length stored) <= 3
  /\ Forall (recent 61000) stored
  /\ (Forall (fun ts => ts <= 61000)
        (historyOf Sample.busy "10.0.0.1") ->
      Forall (fun ts => 61000 - oneMinute <= ts <= 61000) stored).
Proof.
  apply (admission_prunes_history (Sample.globals 3) Sample.world 61000
           (Sample.get "/secret/api/v2/comment/10003" []) "10.0.0.1").
  - reflexivity.
  - vm_compute. reflexivity.
Defined.

Example admission_prunes_history_ex :
  handleRequest (Sample.globals 3) Sample.world 61000
    (Sample.get "/secret/api/v2/comment/10003" []) "10.0.0.1"
    Sample.busy
  = (GetComment "/api/v2/comment/10003" None,
     {[ "10.0.0.1" := [2000; 3000; 61000] ]}).
Proof. vm_compute. reflexivity. Qed.

(** C2, as the specification words it, fails: the window test is
    [currentTime - timestamp <= 60000], so a timestamp exactly 60000 ms
    old is kept and counted.  With capacity 1 a request made exactly one
    window after the only recorded one is refused; one millisecond later
    it is admitted. *)
Lemma boundary_timestamp_still_counts :
  60000 - oneMinute = 0
  /\ filterRecent 60000 [0] = [0]
  /\ handleRequest (Sample.globals 1) Sample.world 60000
       (Sample.get "/secret/api/v2/comment/10003" []) "10.0.0.1"
       {[ "10.0.0.1" := [0] ]}
     = (Respond tooManyRequests, {[ "10.0.0.1" := [0] ]})
  /\ handleRequest (Sample.globals 1) Sample.world 60001
       (Sample.get "/secret/api/v2/comment/10003" []) "10.0.0.1"
       {[ "10.0.0.1" := [0] ]}
     = (GetComment "/api/v2/comment/10003" None, {[ "10.0.0.1" := [60001] ]}).
Proof. repeat split; vm_compute; reflexivity. Qed.

(** C2, amended.  The count compared with the capacity is the number of
    the client's timestamps with [currentTime - timestamp <= 60000]: a
    timestamp recorded exactly 60000 ms before the check still counts,
    and one recorded more than 60000 ms before it does not. *)
Theorem window_boundary (g : Globals) (currentTime : Z) (clientIp : string)
    (h : History) :
  0 < rateLimitMaxRequests g ->
  fst (rateLimit g currentTime clientIp h)
  = (if rateLimitMaxRequests g
        <=? Z.of_nat (length (filterRecent currentTime (historyOf h clientIp)))
     then Some tooManyRequests else None)
  /\ (currentTime - 60000 ∈ historyOf h clientIp ->
      currentTime - 60000 ∈ filterRecent currentTime (historyOf h clientIp))
  /\ (forall timestamp, timestamp < currentTime - 60000 ->
      timestamp ∉ filterRecent currentTime (historyOf h clientIp)).
Proof.
  intros Hpos. split; [|split].
  - rewrite rateLimit_eq. apply Z.ltb_lt in Hpos. rewrite Hpos. cbn zeta.
    rewrite recent_after_sweep.
    now destruct (rateLimitMaxRequests g <=? _).
  - intros Hin. apply list_elem_of_filter. split; [|exact Hin].
    unfold recent, oneMinute. lia.
  - intros ts Hold Hin. apply list_elem_of_filter in Hin.
    destruct Hin as [Hrec _]. unfold recent, oneMinute in Hrec. lia.
Qed.

Lemma window_boundary_witness :
  fst (rateLimit (Sample.globals 2) 60500 "10.0.0.1" Sample.busy)
  = (if 2 <=? Z.of_nat (length (filterRecent 60500 (historyOf Sample.busy "10.0.0.1")))
     then Some tooManyRequests else None)
  /\ (60500 - 60000 ∈ historyOf Sample.busy "10.0.0.1" ->
      60500 - 60000 ∈ filterRecent 60500 (historyOf Sample.busy "10.0.0.1"))
  /\ (forall timestamp, timestamp < 60500 - 60000 ->
      timestamp ∉ filterRecent 60500 (historyOf Sample.busy "10.0.0.1")).
Proof.
  apply (window_boundary (Sample.globals 2) 60500 "10.0.0.1" Sample.busy).
  reflexivity.
Defined.

(** ** The limiter switched off *)

Section Disabled.

Context (g : Globals) (clientIp : string).
Hypothesis Hoff : rateLimitMaxRequests g <= 0.

Lemma disabled_call (w : Collaborators) (currentTime : Z) (req : Request)
    (h : History) :
  snd (handleRequest g w currentTime req clientIp h) = h
  /\ (forall r, fst (handleRequest g w currentTime req clientIp h) = Respond r ->
                status r <> 429)
  /\ (forall path, reachesComment g req path -> CacheMiss w req path ->
                   fst (handleRequest g w currentTime req clientIp h)
                   = fetch req path).
Proof.
  destruct (handleRequest_cases g w currentTime req clientIp h)
    as [(o & E & Hno & H429) | (path & Hreach & Hmiss)].
  - rewrite E. cbn [fst snd]. repeat split; [exact H429|].
    intros path Hreach Hmiss.
    rewrite (handleRequest_comment _ _ _ _ _ _ Hreach) in E.
    rewrite (handleComment_miss _ _ _ _ _ _ _ Hmiss) in E.
    rewrite (rateLimit_disabled _ _ _ _ Hoff) in E. cbn [fst snd] in E.
    congruence.
  - rewrite (handleRequest_comment _ _ _ _ _ _ Hreach).
    rewrite (handleComment_miss _ _ _ _ _ _ _ Hmiss).
    rewrite (rateLimit_disabled _ _ _ _ Hoff). cbn [fst snd].
    repeat split.
    + intros r. unfold fetch.
      destruct (truthyOpt _); discriminate.
    + intros path' Hreach' _.
      destruct Hreach as (_ & _ & Hc & _), Hreach' as (_ & _ & Hc' & _).
      congruence.
Qed.

End Disabled.

Lemma run_cons (g : Globals) (clientIp : string) (c : Call)
    (calls : list Call) (h : History) :
  run g clientIp (c :: calls) h
  = (fst (handleRequest g (collaborators c) (at_time c) (request c) clientIp h)
     :: fst (run g clientIp calls
               (snd (handleRequest g (collaborators c) (at_time c) (request c)
                       clientIp h))),
     snd (run g clientIp calls
            (snd (handleRequest g (collaborators c) (at_time c) (request c)
                    clientIp h)))).
Proof.
  cbn [run]. unfold mbind, M_bind, mret, M_ret.
  destruct (handleRequest _ _ _ _ _ h) as [o h1]. cbn [fst snd].
  now destruct (run g clientIp calls h1) as [os h2].
Qed.

(** C9.  With a capacity of zero or less, any run of calls from one
    client leaves the request history as it was, no call is answered 429,
    and every comment request that misses the cache goes on to the fetch
    of the comments. *)
Theorem disabled_limiter_admits_all (g : Globals) (clientIp : string)
    (calls : list Call) (h : History) :
  rateLimitMaxRequests g <= 0 ->
  snd (run g clientIp calls h) = h
  /\ Forall2
       (fun c o =>
          (forall r, o = Respond r -> status r <> 429)
          /\ (forall path, reachesComment g (request c) path ->
                           CacheMiss (collaborators c) (request c) path ->
                           o = fetch (request c) path /\ admitted o = true))
       calls (fst (run g clientIp calls h)).
Proof.
  intros Hoff. induction calls as [|c calls IH].
  - split; [reflexivity | constructor].
  - rewrite run_cons. cbn [fst snd].
    destruct (disabled_call g clientIp Hoff (collaborators c) (at_time c)
                (request c) h) as (Hsame & H429 & Hfetch).
    rewrite Hsame. destruct IH as [IHh IHo]. split; [exact IHh|].
    constructor; [|exact IHo]. split; [exact H429|].
    intros path Hreach Hmiss. rewrite (Hfetch path Hreach Hmiss).
    split; [reflexivity|]. unfold fetch. now destruct (truthyOpt _).
Qed.

Lemma disabled_limiter_admits_all_witness :
  snd (run (Sample.globals 0) "10.0.0.1"
         [Sample.call 1000 "/secret/api/v2/comment/10003";
          Sample.call 1000 "/secret/api/v2/comment/10003";
          Sample.call 1001 "/secret/api/v2/comment/10003"] ∅) = ∅
  /\ fst (run (Sample.globals 0) "10.0.0.1"
         [Sample.call 1000 "/secret/api/v2/comment/10003";
          Sample.call 1000 "/secret/api/v2/comment/10003";
          Sample.call 1001 "/secret/api/v2/comment/10003"] ∅)
     = [GetComment "/api/v2/comment/10003" None;
        GetComment "/api/v2/comment/10003" None;
        GetComment "/api/v2/comment/10003" None].
Proof.
  split.
  - apply (disabled_limiter_admits_all (Sample.globals 0) "10.0.0.1"
             [Sample.call 1000 "/secret/api/v2/comment/10003";
              Sample.call 1000 "/secret/api/v2/comment/10003";
              Sample.call 1001 "/secret/api/v2/comment/10003"] ∅).
    vm_compute. discriminate.
  - reflexivity.
Defined.

(** ** The capacity of the window *)

Section ListFacts.

Context {A : Type} (P Q : A -> Prop)
        `{!forall x, Decision (P x), !forall x, Decision (Q x)}.

Lemma sublist_filter_mono (l1 l2 : list A) :
  l1 `sublist_of` l2 -> filter P l1 `sublist_of` filter P l2.
Proof.
  induction 1 as [|x l1 l2 _ IH|x l1 l2 _ IH]; rewrite ?filter_cons.
  - constructor.
  - destruct (decide (P x)); [now apply sublist_skip | exact IH].
  - destruct (decide (P x)); [now apply sublist_cons | exact IH].
Qed.

Lemma length_filter_mono (l : list A) :
  (forall x, x ∈ l -> P x -> Q x) ->
  (length (filter P l) <= length (filter Q l))%nat.
Proof.
  induction l as [|x l IH]; intros Himp; [reflexivity|].
  assert (length (filter P l) <= length (filter Q l))%nat as IH'.
  { apply IH. intros y Hy. apply Himp. now right. }
  rewrite !filter_cons.
  destruct (decide (P x)) as [Hp|Hp].
  - rewrite decide_True by (apply Himp; [left | exact Hp]).
    cbn [length]. lia.
  - destruct (decide (Q x)); cbn [length]; lia.
Qed.

End ListFacts.

Section Capacity.

Context (g : Globals) (clientIp : string).
Hypothesis Hpos : 0 < rateLimitMaxRequests g.

(** What one call does to the client's entry. *)
Lemma handleRequest_step (w : Collaborators) (currentTime : Z)
    (req : Request) (h : History) :
  let r := handleRequest g w currentTime req clientIp h in
  (admitted (fst r) = false /\ snd r = h)
  \/ (admitted (fst r) = false /\
      historyOf (snd r) clientIp = filterRecent currentTime (historyOf h clientIp))
  \/ (admitted (fst r) = true /\
      historyOf (snd r) clientIp
      = (filterRecent currentTime (historyOf h clientIp) ++ [currentTime])%list /\
      Z.of_nat (length (filterRecent currentTime (historyOf h clientIp)))
      < rateLimitMaxRequests g).
Proof.
  intros r. subst r.
  destruct (handleRequest_cases g w currentTime req clientIp h)
    as [(o & E & Hno & _) | (path & Hreach & Hmiss)].
  { left. now rewrite E. }
  right.
  rewrite (handleRequest_comment _ _ _ _ _ _ Hreach).
  rewrite (handleComment_miss _ _ _ _ _ _ _ Hmiss). cbn [fst snd].
  destruct (Z.le_gt_cases (rateLimitMaxRequests g)
              (Z.of_nat (length (filterRecent currentTime (historyOf h clientIp)))))
    as [Hfull | Hroom].
  - left. rewrite (rateLimit_rejects _ _ _ _ Hpos Hfull). cbn [fst snd].
    split; [reflexivity|].
    now rewrite historyOf_swept, sweep_is_filterRecent.
  - right. rewrite (rateLimit_admits _ _ _ _ Hpos Hroom). cbn [fst snd].
    rewrite historyOf_insert. repeat split; [|exact Hroom].
    unfold fetch. now destruct (truthyOpt _).
Qed.

Lemma filterRecent_later (t0 t : Z) (l : list Z) :
  t0 <= t -> filterRecent t (filterRecent t0 l) = filterRecent t l.
Proof.
  intros Hle. unfold filterRecent. apply list_filter_filter_l.
  intros ts. unfold recent. lia.
Qed.

Lemma bounded_snoc (lo t0 : Z) (admittedTimes : list Z) (h : History) :
  lo <= t0 ->
  recorded clientIp lo admittedTimes h ->
  bounded (rateLimitMaxRequests g) admittedTimes ->
  Z.of_nat (length (filterRecent t0 (historyOf h clientIp)))
  < rateLimitMaxRequests g ->
  bounded (rateLimitMaxRequests g) (admittedTimes ++ [t0]).
Proof.
  intros Hlo Hrec Hb Hroom T.
  destruct (Z.lt_ge_cases T t0) as [Hbefore | Hafter].
  - rewrite filter_app, filter_cons, decide_False, filter_nil, app_nil_r.
    + apply Hb.
    + unfold inWindow. lia.
  - transitivity (Z.of_nat (length (filterRecent t0 (admittedTimes ++ [t0])))).
    + apply Nat2Z.inj_le. apply length_filter_mono.
      intros a _. unfold inWindow, recent. lia.
    + unfold filterRecent at 1.
      rewrite filter_app, filter_cons, decide_True, filter_nil
        by (unfold recent, oneMinute; lia).
      rewrite length_app. cbn [length].
      pose proof (sublist_length _ _ (Hrec t0 Hlo)) as Hlen.
      unfold filterRecent in *. lia.
Qed.

Lemma run_bounded (calls : list Call) :
  forall (h : History) (admittedTimes : list Z) (lo : Z),
    StronglySorted Z.le (at_time <$> calls) ->
    Forall (fun c => lo <= at_time c) calls ->
    recorded clientIp lo admittedTimes h ->
    bounded (rateLimitMaxRequests g) admittedTimes ->
    bounded (rateLimitMaxRequests g) (admittedTimes ++ admissions calls (fst (run g clientIp calls h))).
Proof.
  induction calls as [|c calls IH]; intros h A lo Hsorted Hlo Hrec Hb.
  - cbn [admissions]. now rewrite app_nil_r.
  - rewrite run_cons. cbn [fst admissions].
    rewrite fmap_cons in Hsorted.
    apply StronglySorted_inv in Hsorted. destruct Hsorted as [Hsorted Hhd].
    apply Forall_cons in Hlo. destruct Hlo as [Hlo0 _].
    assert (Forall (fun c' => at_time c <= at_time c') calls) as Hnext.
    { rewrite Forall_forall in Hhd. apply Forall_forall. intros c' Hin.
      apply Hhd, list_elem_of_fmap. now exists c'. }
    destruct (handleRequest_step (collaborators c) (at_time c) (request c) h)
      as [[Hno Hh] | [[Hno Hh] | (Hyes & Hh & Hroom)]].
    + rewrite Hno, Hh. apply (IH h A (at_time c)); try assumption.
      intros t Ht. apply Hrec. lia.
    + rewrite Hno. apply (IH _ A (at_time c)); try assumption.
      intros t Ht. rewrite Hh, filterRecent_later by exact Ht.
      apply Hrec. lia.
    + rewrite Hyes.
      rewrite cons_middle, app_assoc.
      apply (IH _ (A ++ [at_time c])%list (at_time c)); try assumption.
      * intros t Ht. rewrite Hh. unfold filterRecent at 1 2.
        rewrite !filter_app. apply sublist_app; [|reflexivity].
        fold (filterRecent t A).
        fold (filterRecent t (filterRecent (at_time c) (historyOf h clientIp))).
        rewrite filterRecent_later by exact Ht. apply Hrec. lia.
      * now apply (bounded_snoc lo _ _ h).
Qed.

End Capacity.

(** C5.  Under a capacity [N > 0], in a run of calls from one client at
    times that do not go backwards, no trailing 60-second window ever
    holds more than [N] admitted requests: for every instant [T], at most
    [N] of the admission times lie in [[T - 60000, T]]. *)
Theorem capacity_never_exceeded (g : Globals) (clientIp : string)
    (calls : list Call) (h : History) (T : Z) :
  0 < rateLimitMaxRequests g ->
  Sorted Z.le (at_time <$> calls) ->
  Z.of_nat (length (filter (inWindow T)
                      (admissions calls (fst (run g clientIp calls h)))))
  <= rateLimitMaxRequests g.
Proof.
  intros Hpos Hsorted.
  apply Sorted_StronglySorted in Hsorted; [|intros x y z; apply Z.le_trans].
  destruct calls as [|c calls]; [cbn; lia|].
  apply (run_bounded g clientIp Hpos (c :: calls) h [] (at_time c) Hsorted).
  - rewrite fmap_cons in Hsorted.
    apply StronglySorted_inv in Hsorted. destruct Hsorted as [_ Hhd].
    constructor; [lia|].
    rewrite Forall_forall in Hhd. apply Forall_forall. intros c' Hin.
    apply Hhd, list_elem_of_fmap. now exists c'.
  - intros t _. apply sublist_nil_l.
  - intros T'. cbn. lia.
Qed.

Lemma capacity_never_exceeded_witness :
  Z.of_nat (length (filter (inWindow 60001)
    (admissions
       [Sample.call 0 "/secret/api/v2/comment/10003";
        Sample.call 10 "/secret/api/v2/comment/10003";
        Sample.call 20 "/secret/api/v2/comment/10003";
        Sample.call 60001 "/secret/api/v2/comment/10003"]
       (fst (run (Sample.globals 2) "10.0.0.1"
               [Sample.call 0 "/secret/api/v2/comment/10003";
                Sample.call 10 "/secret/api/v2/comment/10003";
                Sample.call 20 "/secret/api/v2/comment/10003";
                Sample.call 60001 "/secret/api/v2/comment/10003"] ∅)))))
  <= 2.
Proof.
  apply (capacity_never_exceeded (Sample.globals 2) "10.0.0.1"
           [Sample.call 0 "/secret/api/v2/comment/10003";
            Sample.call 10 "/secret/api/v2/comment/10003";
            Sample.call 20 "/secret/api/v2/comment/10003";
            Sample.call 60001 "/secret/api/v2/comment/10003"] ∅ 60001).
  - reflexivity.
  - repeat constructor; vm_compute; discriminate.
Defined.

(** The boundary case of the specification: with capacity 2 the second
    call is admitted, the third is refused, and a call 60001 ms after the
    first admitted one is admitted again. *)
Example rate_limit_boundary :
  run (Sample.globals 2) "10.0.0.1"
    [Sample.call 0 "/secret/api/v2/comment/10003";
     Sample.call 10 "/secret/api/v2/comment/10003";
     Sample.call 20 "/secret/api/v2/comment/10003";
     Sample.call 60001 "/secret/api/v2/comment/10003"] ∅
  = ([GetComment "/api/v2/comment/10003" None;
      GetComment "/api/v2/comment/10003" None;
      Respond tooManyRequests;
      GetComment "/api/v2/comment/10003" None],
     {[ "10.0.0.1" := [10; 60001] ]}).
Proof. vm_compute. reflexivity. Qed.

(** ** The remaining cases of the specification, evaluated *)

(** An identifier that resolves to nothing is not answered by the
    handler itself: it passes the rate-limit block, which records the
    call, and goes to [getComment]. *)
Example unknown_comment_id :
  handleRequest (Sample.globals 3) Sample.world 1000
    (Sample.get "/secret/api/v2/comment/999999" []) "10.0.0.1" ∅
  = (GetComment "/api/v2/comment/999999" None, {[ "10.0.0.1" := [1000] ]}).
Proof. vm_compute. reflexivity. Qed.

(** A cached URL is served while the client is over its capacity for
    other lookups, and the history is not touched. *)
Example cache_bypass :
  handleRequest (Sample.globals 3) Sample.world 4000
    (Sample.get "/secret/api/v2/comment" [("url", "https://v.example.com/ep3")])
    "10.0.0.1" Sample.busy
  = (Respond tooManyRequests, Sample.busy)
  /\ handleRequest (Sample.globals 3) Sample.world 4000
       (Sample.get "/secret/api/v2/comment"
          [("url", "https://v.example.com/ep1"); ("format", "xml")])
       "10.0.0.1" Sample.busy
     = (FormatDanmuResponse (cachedResponseData [Sample.comment]) (Some "xml"),
        Sample.busy).
Proof. split; vm_compute; reflexivity. Qed.

(** A known path with the wrong method falls through to 404. *)
Example wrong_method_is_404 :
  handleRequest (Sample.globals 3) Sample.world 0
    {| pathname := "/secret/api/v2/match"; method := "GET"; searchParams := [] |}
    "10.0.0.1" ∅
  = (Respond notFound, ∅).
Proof. reflexivity. Qed.

(** * Properties of the URL utilities, the entry points and the routes *)

(** ** [getPathname] *)

Section Searching.

Lemma take_length_le (n : nat) (s : string) :
  (String.length (Str.take n s) <= n)%nat.
Proof.
  revert s. induction n as [|n IH]; intros [|c s]; cbn; try lia.
  specialize (IH s). lia.
Qed.

Lemma take_app (a b : string) : Str.take (String.length a) (a +:+ b) = a.
Proof. induction a as [|c a IH]; cbn; [now destruct b | now f_equal]. Qed.

Lemma substring_app (a b : string) : Js.substring (String.length a) (a +:+ b) = b.
Proof. induction a as [|c a IH]; [reflexivity | exact IH]. Qed.

Lemma substring_all (s : string) : Js.substring (String.length s) s = "".
Proof. induction s as [|c s IH]; [reflexivity | exact IH]. Qed.

Lemma substring_add (i j : nat) (s : string) :
  Js.substring i (Js.substring j s) = Js.substring (j + i) s.
Proof.
  revert s. induction j as [|j IH]; intros s; [reflexivity|].
  destruct s as [|c s]; cbn; [now destruct i | apply IH].
Qed.

Lemma take_all (n : nat) (s : string) :
  (String.length s <= n)%nat -> Str.take n s = s.
Proof.
  revert s. induction n as [|n IH]; intros [|c s] H; cbn in *; try reflexivity.
  - lia.
  - rewrite IH; [reflexivity | lia].
Qed.

(** An occurrence found at [i] is an occurrence, and it fits. *)
Lemma find_Some (x s : string) (i : nat) :
  Str.find x s = Some i ->
  String.prefix x (Js.substring i s) = true
  /\ (i + String.length x <= String.length s)%nat.
Proof.
  revert i. induction s as [|c s IH]; intros i; cbn [Str.find].
  - destruct (String.prefix x "") eqn:E; [|discriminate].
    intros [= <-]. split; [exact E|]. apply prefix_length in E. cbn in *. lia.
  - destruct (String.prefix x (String c s)) eqn:E.
    + intros [= <-]. split; [exact E|]. apply prefix_length in E. cbn in *. lia.
    + destruct (Str.find x s) as [j|]; [|discriminate].
      intros [= <-]. destruct (IH j eq_refl) as [Hp Hl].
      split; [exact Hp | cbn; lia].
Qed.

Lemma find_Some_from (x s : string) (a i : nat) :
  (a <= String.length s)%nat ->
  Str.find x (Js.substring a s) = Some i ->
  String.prefix x (Js.substring (a + i) s) = true
  /\ (a + i + String.length x <= String.length s)%nat.
Proof.
  intros Ha E. apply find_Some in E.
  rewrite substring_add, length_substring in E.
  destruct E as [Hp Hl]. split; [exact Hp | lia].
Qed.

Lemma find_char_cons (c d : ascii) (s : string) :
  Str.find (String c "") (String d s)
  = if Ascii.eqb c d then Some O else S <$> Str.find (String c "") s.
Proof.
  cbn [Str.find]. rewrite prefix_cons, prefix_nil.
  now destruct (Ascii.eqb c d).
Qed.

Lemma find_char_nil (c : ascii) : Str.find (String c "") "" = None.
Proof. reflexivity. Qed.

(** Searching a character in a concatenation. *)
Lemma find_char_app (c : ascii) (a b : string) :
  Str.find (String c "") (a +:+ b)
  = match Str.find (String c "") a with
    | Some i => Some i
    | None => (fun j => (String.length a + j)%nat) <$> Str.find (String c "") b
    end.
Proof.
  induction a as [|d a IH].
  - change ("" +:+ b) with b. rewrite find_char_nil.
    destruct (Str.find (String c "") b); reflexivity.
  - change (String d a +:+ b) with (String d (a +:+ b)).
    rewrite !find_char_cons. destruct (Ascii.eqb c d); [reflexivity|].
    rewrite IH. destruct (Str.find (String c "") a); [reflexivity|].
    destruct (Str.find (String c "") b); reflexivity.
Qed.

Lemma find_char_take (c : ascii) (n : nat) (s : string) :
  match Str.find (String c "") s with
  | Some i => (n <= i)%nat
  | None => True
  end ->
  Str.find (String c "") (Str.take n s) = None.
Proof.
  revert s. induction n as [|n IH]; intros s H; [now destruct s|].
  destruct s as [|d s]; [reflexivity|]. cbn [Str.take].
  rewrite find_char_cons in *. destruct (Ascii.eqb c d); [lia|].
  rewrite IH; [reflexivity|].
  destruct (Str.find (String c "") s); cbn in *; [lia | exact I].
Qed.

(** [indexOf] from a position inside the string. *)
Lemma indexOf_inside (s x : string) (p : nat) :
  (p <= String.length s)%nat ->
  Str.indexOf s x (Z.of_nat p)
  = match Str.find x (Js.substring p s) with
    | Some i => Z.of_nat (p + i)
    | None => -1
    end.
Proof.
  intros Hp. unfold Str.indexOf.
  now rewrite Nat2Z.id, Nat.min_l by exact Hp.
Qed.

Lemma substring_between (s : string) (a b : nat) :
  (a <= b)%nat -> (b <= String.length s)%nat ->
  Str.substring s (Z.of_nat a) (Z.of_nat b) = Str.take (b - a) (Js.substring a s).
Proof.
  intros Hab Hb. unfold Str.substring. rewrite !Nat2Z.id.
  rewrite (Nat.min_l a), (Nat.min_l b) by lia.
  now rewrite Nat.min_l, Nat.max_r by lia.
Qed.

End Searching.

Section GetPathname.

Lemma take_slash (n : nat) (s : string) :
  String.prefix "/" s = true ->
  Str.take n s = "" \/ String.prefix "/" (Str.take n s) = true.
Proof.
  intros H. destruct n; [left; now destruct s|].
  destruct s as [|c s]; [discriminate|]. right. cbn [Str.take].
  rewrite prefix_cons in *. destruct (Ascii.eqb "/" c); [apply prefix_nil | discriminate].
Qed.

(** The end of the path: the first question mark, else the first hash,
    else the end of the string. *)
Lemma pathEnd_cases (url : string) (a : nat) :
  (a <= String.length url)%nat ->
  exists b : nat,
    (a <= b <= String.length url)%nat /\
    match Str.find "?" (Js.substring a url) with
    | Some i => b = (a + i)%nat
    | None =>
        match Str.find "#" (Js.substring a url) with
        | Some i => b = (a + i)%nat
        | None => b = String.length url
        end
    end /\
    (if negb (Str.indexOf url "?" (Z.of_nat a) =? -1)
     then Str.indexOf url "?" (Z.of_nat a)
     else if negb (Str.indexOf url "#" (Z.of_nat a) =? -1)
          then Str.indexOf url "#" (Z.of_nat a)
          else Z.of_nat (String.length url)) = Z.of_nat b.
Proof.
  intros Ha. rewrite !(indexOf_inside url _ a Ha).
  destruct (Str.find "?" (Js.substring a url)) as [j|] eqn:Eq.
  - apply (find_Some_from _ _ _ _ Ha) in Eq. cbn in Eq.
    exists (a + j)%nat. split; [lia|]. split; [reflexivity|].
    destruct (Z.eqb_spec (Z.of_nat (a + j)) (-1)); [exfalso; lia | reflexivity].
  - cbn [Z.eqb negb].
    destruct (Str.find "#" (Js.substring a url)) as [j|] eqn:Eh.
    + apply (find_Some_from _ _ _ _ Ha) in Eh. cbn in Eh.
      exists (a + j)%nat. split; [lia|]. split; [reflexivity|].
      destruct (Z.eqb_spec (Z.of_nat (a + j)) (-1)); [exfalso; lia | reflexivity].
    + exists (String.length url). split; [lia|]. split; reflexivity.
Qed.

(** Where the search for the path starts: two characters after the first
    double slash, or at the beginning. *)
Lemma pathnameStart_cases (url : string) :
  exists p : nat,
    (p <= String.length url)%nat /\
    match Str.find "//" url with
    | Some i => p = (i + 2)%nat
    | None => p = 0%nat
    end /\
    (if Str.indexOf url "//" 0 + 2 =? 1 then 0
     else Str.indexOf url "//" 0 + 2) = Z.of_nat p.
Proof.
  pose proof (indexOf_inside url "//" 0 ltac:(lia)) as H0.
  change (Z.of_nat 0) with 0 in H0. rewrite H0. cbn [Js.substring].
  destruct (Str.find "//" url) as [i|] eqn:E.
  - apply find_Some in E. cbn in E. destruct E as [_ Hl]. exists (i + 2)%nat.
    split; [lia|]. split; [reflexivity|].
    destruct (Z.eqb_spec (Z.of_nat (0 + i) + 2) 1); lia.
  - exists 0%nat. split; [lia|]. split; reflexivity.
Qed.

(** [getPathname] in terms of positions: with [p] the start of the
    search, [a] the first slash from [p] on and [b] the end of the path,
    the result is the text between [a] and [b], or [/] when that text is
    empty or there is no slash. *)
Lemma getPathname_eq (url : string) :
  exists p : nat,
    (p <= String.length url)%nat /\
    match Str.find "//" url with
    | Some i => p = (i + 2)%nat
    | None => p = 0%nat
    end /\
    match Str.find "/" (Js.substring p url) with
    | None => getPathname url = "/"
    | Some i =>
        exists b : nat,
          (p + i <= b <= String.length url)%nat /\
          String.prefix "/" (Js.substring (p + i) url) = true /\
          match Str.find "?" (Js.substring (p + i) url) with
          | Some j => b = (p + i + j)%nat
          | None =>
              match Str.find "#" (Js.substring (p + i) url) with
              | Some j => b = (p + i + j)%nat
              | None => b = String.length url
              end
          end /\
          getPathname url
          = (if Js.truthy (Str.take (b - (p + i)) (Js.substring (p + i) url))
             then Str.take (b - (p + i)) (Js.substring (p + i) url)
             else "/")
    end.
Proof.
  destruct (pathnameStart_cases url) as (p & Hp & Hfirst & Hstart).
  exists p. split; [exact Hp|]. split; [exact Hfirst|].
  unfold getPathname. rewrite Hstart, (indexOf_inside url "/" p Hp).
  destruct (Str.find "/" (Js.substring p url)) as [i|] eqn:E; [|reflexivity].
  apply (find_Some_from _ _ _ _ Hp) in E. cbn in E.
  destruct E as [Hslash Hl].
  destruct (Z.eqb_spec (Z.of_nat (p + i)) (-1)); [exfalso; lia|].
  assert (p + i <= String.length url)%nat as Ha by lia.
  destruct (pathEnd_cases url (p + i) Ha) as (b & Hb & Hq & ->).
  exists b. rewrite (substring_between url (p + i) b) by lia.
  repeat split; try assumption; lia.
Qed.

End GetPathname.

(** X1.  The result of [getPathname] is never empty: it always begins with a
    slash. *)
Theorem getPathname_starts_with_slash (url : string) :
  Js.startsWith (getPathname url) "/" = true.
Proof.
  destruct (getPathname_eq url) as (p & _ & _ & H).
  destruct (Str.find "/" (Js.substring p url)) as [i|]; [|now rewrite H].
  destruct H as (b & _ & Hslash & _ & ->). unfold Js.truthy.
  destruct (String.eqb_spec (Str.take (b - (p + i)) (Js.substring (p + i) url)) "")
    as [E|E]; [reflexivity|]. cbn [negb].
  destruct (take_slash (b - (p + i)) _ Hslash) as [E' | E']; [congruence | exact E'].
Qed.

(** X2.  The result of [getPathname] never contains a question mark. *)
Theorem getPathname_has_no_query (url : string) :
  Str.find "?" (getPathname url) = None.
Proof.
  destruct (getPathname_eq url) as (p & _ & _ & H).
  destruct (Str.find "/" (Js.substring p url)) as [i|]; [|now rewrite H].
  destruct H as (b & Hb & _ & Hq & ->).
  destruct (Js.truthy _); [|reflexivity].
  apply find_char_take.
  destruct (Str.find "?" (Js.substring (p + i) url)); [lia | exact I].
Qed.

Section GetPathnameOnUrls.

Lemma find_char_None_cons (c d : ascii) (s : string) :
  Str.find (String c "") (String d s) = None ->
  Ascii.eqb c d = false /\ Str.find (String c "") s = None.
Proof.
  rewrite find_char_cons. destruct (Ascii.eqb c d); [discriminate|].
  destruct (Str.find (String c "") s); [discriminate | auto].
Qed.

Lemma find_double_slash (scheme r : string) :
  Str.find "/" scheme = None ->
  Str.find "//" (scheme +:+ "//" +:+ r) = Some (String.length scheme).
Proof.
  induction scheme as [|c scheme IH]; intros H.
  - change ("" +:+ "//" +:+ r) with (String "/" (String "/" r)).
    cbn [Str.find String.length]. now rewrite !prefix_cons, prefix_nil.
  - apply find_char_None_cons in H. destruct H as [Hc Hs].
    change (String c scheme +:+ "//" +:+ r) with (String c (scheme +:+ "//" +:+ r)).
    cbn [Str.find]. rewrite prefix_cons, Hc, (IH Hs). reflexivity.
Qed.

Lemma find_char_prefix (c : ascii) (s : string) :
  String.prefix (String c "") s = true -> Str.find (String c "") s = Some O.
Proof. intros H. destruct s; cbn [Str.find]; now rewrite H. Qed.

Lemma append_assoc (a b c : string) : (a +:+ b) +:+ c = a +:+ (b +:+ c).
Proof.
  induction a as [|x a IH]; [reflexivity|].
  change (String x ((a +:+ b) +:+ c) = String x (a +:+ (b +:+ c))).
  now rewrite IH.
Qed.

Lemma append_nil_r (a : string) : a +:+ "" = a.
Proof.
  induction a as [|x a IH]; [reflexivity|].
  change (String x (a +:+ "") = String x a). now rewrite IH.
Qed.

Lemma prefix_app_l (x a b : string) :
  String.prefix x a = true -> String.prefix x (a +:+ b) = true.
Proof.
  intros H. destruct (prefix_split _ _ H) as [r ->].
  rewrite append_assoc. apply prefix_append.
Qed.

Lemma getPathname_core (url host path rest : string) (p : nat) :
  (p <= String.length url)%nat ->
  match Str.find "//" url with
  | Some i => p = (i + 2)%nat
  | None => p = 0%nat
  end ->
  Js.substring p url = host +:+ path +:+ rest ->
  Str.find "/" host = None ->
  Js.startsWith path "/" = true ->
  Str.find "?" path = None ->
  Str.find "#" path = None ->
  rest = "" \/ Js.startsWith rest "?" = true
  \/ (Js.startsWith rest "#" = true /\ Str.find "?" rest = None) ->
  getPathname url = path.
Proof.
  intros Hp Hstart Hsub Hhost Hpath Hq Hh Hrest.
  destruct (getPathname_eq url) as (p' & _ & Hstart' & H).
  assert (p' = p) as ->.
  { destruct (Str.find "//" url); congruence. }
  rewrite Hsub, find_char_app, Hhost in H.
  rewrite (find_char_prefix "/" (path +:+ rest)) in H
    by (apply prefix_app_l; exact Hpath).
  cbn [fmap option_fmap option_map] in H.
  destruct H as (b & Hb & _ & Hend & ->).
  assert (Js.substring (p + (String.length host + 0)) url = path +:+ rest) as Hsub'.
  { rewrite <- substring_add, Hsub, Nat.add_0_r. apply substring_app. }
  rewrite Hsub' in *.
  assert (String.length url = (p + String.length host + String.length path
                               + String.length rest)%nat) as Hlen.
  { pose proof (length_substring p url) as Hl. rewrite Hsub in Hl.
    rewrite !length_append in Hl. lia. }
  assert (Str.take (b - (p + (String.length host + 0))) (path +:+ rest) = path) as ->.
  { rewrite !find_char_app, Hq, Hh in Hend.
    destruct Hrest as [-> | [Hr | [Hr Hnq]]].
    - cbn in Hend. subst b. rewrite take_all; [now rewrite append_nil_r|].
      rewrite length_append. cbn. lia.
    - rewrite (find_char_prefix "?" rest Hr) in Hend. cbn in Hend. subst b.
      replace (_ - _)%nat with (String.length path) by lia. apply take_app.
    - rewrite Hnq, (find_char_prefix "#" rest Hr) in Hend. cbn in Hend. subst b.
      replace (_ - _)%nat with (String.length path) by lia. apply take_app. }
  unfold Js.truthy. destruct path; [discriminate Hpath | reflexivity].
Qed.

End GetPathnameOnUrls.

(** X3.  On [scheme//authority path tail], where scheme and authority are free
    of slashes, the path begins with a slash and holds neither [?] nor
    [#], and the tail is empty, a query, or a fragment without [?],
    [getPathname] returns the path.  The authority is any text without a
    slash, a query that comes before the first slash included. *)
Theorem getPathname_of_url (scheme host path rest : string) :
  Str.find "/" scheme = None ->
  Str.find "/" host = None ->
  Js.startsWith path "/" = true ->
  Str.find "?" path = None ->
  Str.find "#" path = None ->
  rest = "" \/ Js.startsWith rest "?" = true
  \/ (Js.startsWith rest "#" = true /\ Str.find "?" rest = None) ->
  getPathname (scheme +:+ "//" +:+ host +:+ path +:+ rest) = path.
Proof.
  intros Hscheme Hhost Hpath Hq Hh Hrest.
  apply (getPathname_core _ host path rest (String.length scheme + 2));
    try assumption.
  - rewrite !length_append. cbn. lia.
  - now rewrite find_double_slash.
  - rewrite <- substring_add, substring_app. reflexivity.
Qed.

Lemma getPathname_of_url_witness :
  getPathname ("https:" +:+ "//" +:+ "example.com" +:+ "/api/v2/comment/1"
               +:+ "?format=xml#top")
  = "/api/v2/comment/1".
Proof.
  apply (getPathname_of_url "https:" "example.com" "/api/v2/comment/1"
           "?format=xml#top"); try reflexivity.
  right; left; reflexivity.
Defined.

(** X4.  Without any double slash the search starts at the beginning: on
    [prefix path tail] with a slash-free prefix the result is the path. *)
Theorem getPathname_relative (pre path rest : string) :
  Str.find "//" (pre +:+ path +:+ rest) = None ->
  Str.find "/" pre = None ->
  Js.startsWith path "/" = true ->
  Str.find "?" path = None ->
  Str.find "#" path = None ->
  rest = "" \/ Js.startsWith rest "?" = true
  \/ (Js.startsWith rest "#" = true /\ Str.find "?" rest = None) ->
  getPathname (pre +:+ path +:+ rest) = path.
Proof.
  intros Hnone Hpre Hpath Hq Hh Hrest.
  apply (getPathname_core _ pre path rest 0); try assumption.
  - lia.
  - now rewrite Hnone.
  - reflexivity.
Qed.

Lemma getPathname_relative_witness :
  getPathname ("" +:+ "/search/anime" +:+ "?keyword=x") = "/search/anime".
Proof.
  apply (getPathname_relative "" "/search/anime" "?keyword=x"); try reflexivity.
  right; left; reflexivity.
Defined.

(** X5.  When no slash follows the double slash the result is the root path. *)
Theorem getPathname_without_path (scheme rest : string) :
  Str.find "/" scheme = None ->
  Str.find "/" rest = None ->
  getPathname (scheme +:+ "//" +:+ rest) = "/".
Proof.
  intros Hscheme Hrest.
  destruct (getPathname_eq (scheme +:+ "//" +:+ rest)) as (p & _ & Hstart & H).
  rewrite find_double_slash in Hstart by exact Hscheme. subst p.
  rewrite <- substring_add, substring_app in H.
  change (Js.substring 2 ("//" +:+ rest)) with rest in H.
  now rewrite Hrest in H.
Qed.

Lemma getPathname_without_path_witness :
  getPathname ("https:" +:+ "//" +:+ "example.com?x=1") = "/".
Proof.
  apply (getPathname_without_path "https:" "example.com?x=1"); reflexivity.
Defined.

(** ** The address of the client *)

Lemma orDefault_nonempty (v : option string) (d : string) :
  d <> "" -> Entry.orDefault v d <> "".
Proof.
  intros Hd. unfold Entry.orDefault, truthyOpt, Js.truthy.
  destruct v as [s|]; [|exact Hd].
  destruct (String.eqb_spec s ""); [exact Hd | assumption].
Qed.

Lemma orDefault_falsy (v : option string) (d : string) :
  truthyOpt v = None -> Entry.orDefault v d = d.
Proof. unfold Entry.orDefault. now intros ->. Qed.

(** X6.  Whatever the headers and the connection hold, the address the three
    entry points hand to the handler is never the empty string; it is
    [unknown] when every source is missing or empty. *)
Theorem clientIp_never_empty (headers : string -> option string)
    (remoteAddress contextIp : option string) :
  (Entry.cloudflareClientIp headers <> ""
   /\ Entry.vercelClientIp headers remoteAddress <> ""
   /\ Entry.netlifyClientIp headers contextIp <> "")
  /\ (truthyOpt (headers "cf-connecting-ip") = None ->
      truthyOpt (headers "x-forwarded-for") = None ->
      Entry.cloudflareClientIp headers = "unknown")
  /\ (truthyOpt (headers "x-forwarded-for") = None ->
      truthyOpt remoteAddress = None ->
      Entry.vercelClientIp headers remoteAddress = "unknown")
  /\ (truthyOpt (headers "x-nf-client-connection-ip") = None ->
      truthyOpt (headers "x-forwarded-for") = None ->
      truthyOpt contextIp = None ->
      Entry.netlifyClientIp headers contextIp = "unknown").
Proof.
  assert ("unknown" <> "") as Hu by discriminate.
  repeat split.
  - now repeat apply orDefault_nonempty.
  - now repeat apply orDefault_nonempty.
  - now repeat apply orDefault_nonempty.
  - intros H1 H2. unfold Entry.cloudflareClientIp.
    now rewrite !orDefault_falsy.
  - intros H1 H2. unfold Entry.vercelClientIp. now rewrite !orDefault_falsy.
  - intros H1 H2 H3. unfold Entry.netlifyClientIp. now rewrite !orDefault_falsy.
Qed.

Lemma clientIp_never_empty_witness :
  Entry.cloudflareClientIp (fun name => if String.eqb name "x-forwarded-for"
                                        then Some "" else None)
  = "unknown".
Proof.
  apply (clientIp_never_empty
           (fun name => if String.eqb name "x-forwarded-for" then Some "" else None)
           None None); reflexivity.
Defined.

(** X7.  Requests that reach the Cloudflare entry without a usable address
    share the [unknown] entry of the history: once that entry holds as
    many timestamps inside the window as the capacity allows, the next
    such comment request that misses the cache is answered 429, and the
    entry gets no new timestamp. *)
Theorem unknown_clients_share_a_bucket (g : Globals) (w : Collaborators)
    (currentTime : Z) (headers : string -> option string) (req : Request)
    (path : string) (h : History) :
  truthyOpt (headers "cf-connecting-ip") = None ->
  truthyOpt (headers "x-forwarded-for") = None ->
  reachesComment g req path ->
  CacheMiss w req path ->
  0 < rateLimitMaxRequests g ->
  rateLimitMaxRequests g
  <= Z.of_nat (length (filterRecent currentTime (historyOf h "unknown"))) ->
  Entry.fetch g w currentTime headers req h
  = (Respond tooManyRequests, swept currentTime "unknown" h)
  /\ historyOf (swept currentTime "unknown" h) "unknown"
     = filterRecent currentTime (historyOf h "unknown").
Proof.
  intros H1 H2 Hreach Hmiss Hpos Hfull. unfold Entry.fetch, Entry.cloudflareClientIp.
  rewrite !orDefault_falsy by assumption.
  rewrite (handleRequest_comment _ _ _ _ _ _ Hreach).
  rewrite (handleComment_miss _ _ _ _ _ _ _ Hmiss).
  rewrite (rateLimit_rejects _ _ _ _ Hpos Hfull). cbn [fst snd].
  split; [reflexivity|]. now rewrite historyOf_swept, sweep_is_filterRecent.
Qed.

Lemma unknown_clients_share_a_bucket_witness :
  Entry.fetch (Sample.globals 1) Sample.world 2000 (fun _ => None)
    (Sample.get "/secret/api/v2/comment/10003" []) {[ "unknown" := [1000] ]}
  = (Respond tooManyRequests, swept 2000 "unknown" {[ "unknown" := [1000] ]})
  /\ historyOf (swept 2000 "unknown" {[ "unknown" := [1000] ]}) "unknown"
     = filterRecent 2000 (historyOf {[ "unknown" := [1000] ]} "unknown").
Proof.
  apply (unknown_clients_share_a_bucket (Sample.globals 1) Sample.world 2000
           (fun _ => None) (Sample.get "/secret/api/v2/comment/10003" [])
           "/api/v2/comment/10003").
  - reflexivity.
  - reflexivity.
  - repeat split; try discriminate; reflexivity.
  - apply MissById; reflexivity.
  - reflexivity.
  - vm_compute. discriminate.
Defined.

(** ** Percent-encoding *)

Section PercentEncoding.

Lemma hexDigit_unreserved (n : nat) :
  (n < 16)%nat -> Uri.unreserved (Uri.hexDigit n) = true.
Proof.
  intros H. do 16 (destruct n as [|n]; [reflexivity|]). lia.
Qed.

Lemma hexValue_hexDigit (n : nat) :
  (n < 16)%nat -> Uri.hexValue (Uri.hexDigit n) = Some n.
Proof.
  intros H. do 16 (destruct n as [|n]; [reflexivity|]). lia.
Qed.

Lemma nat_of_ascii_lt (c : ascii) : (nat_of_ascii c < 256)%nat.
Proof. apply nat_ascii_bounded. Qed.

Lemma octet_escape (c : ascii) :
  Uri.octet (Uri.hexDigit (nat_of_ascii c / 16))
            (Uri.hexDigit (nat_of_ascii c mod 16))
  = Some (nat_of_ascii c).
Proof.
  pose proof (nat_of_ascii_lt c) as Hc. unfold Uri.octet.
  rewrite !hexValue_hexDigit.
  - f_equal. symmetry. apply Nat.div_mod_eq.
  - apply Nat.mod_upper_bound. discriminate.
  - apply Nat.Div0.div_lt_upper_bound. lia.
Qed.

Lemma unreserved_ascii (c : ascii) :
  Uri.unreserved c = true -> c <> "%"%char /\ (nat_of_ascii c < 128)%nat.
Proof.
  destruct c as [[] [] [] [] [] [] [] []]; vm_compute; intros H;
    (discriminate H || (split; [discriminate | lia])).
Qed.

Lemma find_char_single (c d : ascii) :
  Str.find (String c "") (String d "") = if Ascii.eqb c d then Some O else None.
Proof. rewrite find_char_cons. now destruct (Ascii.eqb c d). Qed.

Lemma find_char_escape (c d : ascii) :
  Uri.unreserved c = false -> c <> "%"%char ->
  Str.find (String c "") (Uri.escape d) = None.
Proof.
  intros Hc Hp. unfold Uri.escape. pose proof (nat_of_ascii_lt d) as Hd.
  assert (forall n, (n < 16)%nat -> Ascii.eqb c (Uri.hexDigit n) = false) as Hhex.
  { intros n Hn. apply Ascii.eqb_neq. intros ->.
    rewrite hexDigit_unreserved in Hc by exact Hn. discriminate. }
  rewrite !find_char_cons, find_char_nil.
  apply Ascii.eqb_neq in Hp. rewrite Hp.
  rewrite !Hhex; [reflexivity | |].
  - apply Nat.mod_upper_bound. discriminate.
  - apply Nat.Div0.div_lt_upper_bound. lia.
Qed.

End PercentEncoding.

(** The output of [encodeURIComponent] consists of unreserved characters
    and percent signs only: no other character (such as [&], [=], [?],
    [#], [/], [+] or a space) occurs in it. *)
Lemma encodeURIComponent_is_safe (s : string) (c : ascii) :
  Uri.unreserved c = false -> c <> "%"%char ->
  Str.find (String c "") (Uri.encodeURIComponent s) = None.
Proof.
  intros Hc Hp. induction s as [|d s IH]; [reflexivity|].
  cbn [Uri.encodeURIComponent]. rewrite find_char_app, IH.
  destruct (Uri.unreserved d) eqn:Hd.
  - rewrite find_char_single.
    destruct (Ascii.eqb_spec c d) as [->|_]; [congruence | reflexivity].
  - now rewrite find_char_escape.
Qed.


Section RoundTrip.

Lemma byte_nat (c : ascii) : Uri.byte (nat_of_ascii c) = c.
Proof. apply ascii_nat_embedding. Qed.

Lemma decode_cons_plain (c : ascii) (r : string) :
  c <> "%"%char ->
  Uri.decodeURIComponent (String c r) = String c <$> Uri.decodeURIComponent r.
Proof.
  intros Hc. cbn [Uri.decodeURIComponent].
  apply Ascii.eqb_neq in Hc. now rewrite Hc.
Qed.

Lemma decode_cons_percent (h1 h2 : ascii) (r1 : string) :
  Uri.decodeURIComponent (String "%" (String h1 (String h2 r1)))
  = match Uri.octet h1 h2 with
    | None => None
    | Some b1 =>
        if (b1 <? 128)%nat
        then String (Uri.byte b1) <$> Uri.decodeURIComponent r1
        else if Uri.within 192 223 b1 then
          match r1 with
          | String p1 (String x1 (String x2 r2)) =>
              match Uri.octet x1 x2 with
              | Some b2 =>
                  if Ascii.eqb p1 "%" && Uri.valid2 b1 b2
                  then (fun t => String (Uri.byte b1) (String (Uri.byte b2) t))
                         <$> Uri.decodeURIComponent r2
                  else None
              | None => None
              end
          | _ => None
          end
        else if Uri.within 224 239 b1 then
          match r1 with
          | String p1 (String x1 (String x2
              (String p2 (String y1 (String y2 r3))))) =>
              match Uri.octet x1 x2, Uri.octet y1 y2 with
              | Some b2, Some b3 =>
                  if Ascii.eqb p1 "%" && Ascii.eqb p2 "%" && Uri.valid3 b1 b2 b3
                  then (fun t => String (Uri.byte b1) (String (Uri.byte b2)
                                   (String (Uri.byte b3) t)))
                         <$> Uri.decodeURIComponent r3
                  else None
              | _, _ => None
              end
          | _ => None
          end
        else if Uri.within 240 247 b1 then
          match r1 with
          | String p1 (String x1 (String x2
              (String p2 (String y1 (String y2
                (String p3 (String z1 (String z2 r4)))))))) =>
              match Uri.octet x1 x2, Uri.octet y1 y2, Uri.octet z1 z2 with
              | Some b2, Some b3, Some b4 =>
                  if Ascii.eqb p1 "%" && Ascii.eqb p2 "%" && Ascii.eqb p3 "%"
                     && Uri.valid4 b1 b2 b3 b4
                  then (fun t => String (Uri.byte b1) (String (Uri.byte b2)
                                   (String (Uri.byte b3) (String (Uri.byte b4) t))))
                         <$> Uri.decodeURIComponent r4
                  else None
              | _, _, _ => None
              end
          | _ => None
          end
        else None
    end.
Proof. reflexivity. Qed.

Lemma decode_escape1 (c : ascii) (r : string) :
  (nat_of_ascii c < 128)%nat ->
  Uri.decodeURIComponent (Uri.escape c +:+ r)
  = String c <$> Uri.decodeURIComponent r.
Proof.
  intros Hc.
  change (Uri.escape c +:+ r)
    with (String "%" (String (Uri.hexDigit (nat_of_ascii c / 16))
                        (String (Uri.hexDigit (nat_of_ascii c mod 16)) r))).
  rewrite decode_cons_percent, octet_escape.
  apply Nat.ltb_lt in Hc. now rewrite Hc, byte_nat.
Qed.

Lemma decode_escape2 (c1 c2 : ascii) (r : string) :
  Uri.within 192 223 (nat_of_ascii c1) = true ->
  Uri.valid2 (nat_of_ascii c1) (nat_of_ascii c2) = true ->
  Uri.decodeURIComponent (Uri.escape c1 +:+ Uri.escape c2 +:+ r)
  = (fun t => String c1 (String c2 t)) <$> Uri.decodeURIComponent r.
Proof.
  intros Hlead Hvalid.
  change (Uri.escape c1 +:+ Uri.escape c2 +:+ r)
    with (String "%" (String (Uri.hexDigit (nat_of_ascii c1 / 16))
           (String (Uri.hexDigit (nat_of_ascii c1 mod 16))
             (String "%" (String (Uri.hexDigit (nat_of_ascii c2 / 16))
               (String (Uri.hexDigit (nat_of_ascii c2 mod 16)) r)))))).
  rewrite decode_cons_percent, !octet_escape, Hlead, Hvalid, !byte_nat.
  destruct (Nat.ltb_spec (nat_of_ascii c1) 128) as [Hlt|_]; [|reflexivity].
  unfold Uri.within in Hlead. apply andb_true_iff in Hlead.
  destruct Hlead as [Hlo _]. apply Nat.leb_le in Hlo. lia.
Qed.

Lemma decode_escape3 (c1 c2 c3 : ascii) (r : string) :
  Uri.within 224 239 (nat_of_ascii c1) = true ->
  Uri.valid3 (nat_of_ascii c1) (nat_of_ascii c2) (nat_of_ascii c3) = true ->
  Uri.decodeURIComponent (Uri.escape c1 +:+ Uri.escape c2 +:+ Uri.escape c3 +:+ r)
  = (fun t => String c1 (String c2 (String c3 t))) <$> Uri.decodeURIComponent r.
Proof.
  intros Hlead Hvalid.
  change (Uri.escape c1 +:+ Uri.escape c2 +:+ Uri.escape c3 +:+ r)
    with (String "%" (String (Uri.hexDigit (nat_of_ascii c1 / 16))
           (String (Uri.hexDigit (nat_of_ascii c1 mod 16))
             (String "%" (String (Uri.hexDigit (nat_of_ascii c2 / 16))
               (String (Uri.hexDigit (nat_of_ascii c2 mod 16))
                 (String "%" (String (Uri.hexDigit (nat_of_ascii c3 / 16))
                   (String (Uri.hexDigit (nat_of_ascii c3 mod 16)) r))))))))).
  rewrite decode_cons_percent, !octet_escape, Hlead, Hvalid, !byte_nat.
  unfold Uri.within in Hlead. apply andb_true_iff in Hlead.
  destruct Hlead as [Hlo Hhi]. apply Nat.leb_le in Hlo, Hhi.
  destruct (Nat.ltb_spec (nat_of_ascii c1) 128) as [Hlt|_]; [lia|].
  unfold Uri.within.
  destruct (Nat.leb_spec (nat_of_ascii c1) 223) as [Hle|_]; [lia|].
  now rewrite andb_false_r.
Qed.

Lemma decode_escape4 (c1 c2 c3 c4 : ascii) (r : string) :
  Uri.within 240 247 (nat_of_ascii c1) = true ->
  Uri.valid4 (nat_of_ascii c1) (nat_of_ascii c2) (nat_of_ascii c3)
    (nat_of_ascii c4) = true ->
  Uri.decodeURIComponent
    (Uri.escape c1 +:+ Uri.escape c2 +:+ Uri.escape c3 +:+ Uri.escape c4 +:+ r)
  = (fun t => String c1 (String c2 (String c3 (String c4 t))))
      <$> Uri.decodeURIComponent r.
Proof.
  intros Hlead Hvalid.
  change (Uri.escape c1 +:+ Uri.escape c2 +:+ Uri.escape c3 +:+ Uri.escape c4 +:+ r)
    with (String "%" (String (Uri.hexDigit (nat_of_ascii c1 / 16))
           (String (Uri.hexDigit (nat_of_ascii c1 mod 16))
             (String "%" (String (Uri.hexDigit (nat_of_ascii c2 / 16))
               (String (Uri.hexDigit (nat_of_ascii c2 mod 16))
                 (String "%" (String (Uri.hexDigit (nat_of_ascii c3 / 16))
                   (String (Uri.hexDigit (nat_of_ascii c3 mod 16))
                     (String "%" (String (Uri.hexDigit (nat_of_ascii c4 / 16))
                       (String (Uri.hexDigit (nat_of_ascii c4 mod 16)) r)))))))))))).
  rewrite decode_cons_percent, !octet_escape, Hlead, Hvalid, !byte_nat.
  unfold Uri.within in Hlead. apply andb_true_iff in Hlead.
  destruct Hlead as [Hlo Hhi]. apply Nat.leb_le in Hlo, Hhi.
  destruct (Nat.ltb_spec (nat_of_ascii c1) 128) as [Hlt|_]; [lia|].
  unfold Uri.within.
  destruct (Nat.leb_spec (nat_of_ascii c1) 223) as [Hle|_]; [lia|].
  destruct (Nat.leb_spec (nat_of_ascii c1) 239) as [Hle|_]; [lia|].
  now rewrite !andb_false_r.
Qed.

Lemma encode_cons_escaped (c : ascii) (s : string) :
  (128 <= nat_of_ascii c)%nat ->
  Uri.encodeURIComponent (String c s) = Uri.escape c +:+ Uri.encodeURIComponent s.
Proof.
  intros Hc. cbn [Uri.encodeURIComponent].
  destruct (Uri.unreserved c) eqn:E; [|reflexivity].
  apply unreserved_ascii in E. lia.
Qed.

Lemma within_ge (lo hi n : nat) : Uri.within lo hi n = true -> (lo <= n <= hi)%nat.
Proof.
  unfold Uri.within. intros H. apply andb_true_iff in H.
  destruct H as [H1 H2]. apply Nat.leb_le in H1, H2. lia.
Qed.

Lemma valid2_high b1 b2 : Uri.valid2 b1 b2 = true -> (128 <= b2)%nat.
Proof.
  unfold Uri.valid2. intros H. apply andb_true_iff in H.
  destruct H as [_ H]. apply within_ge in H. lia.
Qed.

Lemma valid3_high b1 b2 b3 :
  Uri.valid3 b1 b2 b3 = true -> (128 <= b2)%nat /\ (128 <= b3)%nat.
Proof.
  unfold Uri.valid3. intros H. apply andb_true_iff in H.
  destruct H as [H H3]. apply within_ge in H3.
  repeat (apply orb_true_iff in H; destruct H as [H|H]);
    apply andb_true_iff in H; destruct H as [_ H]; apply within_ge in H; lia.
Qed.

Lemma valid4_high b1 b2 b3 b4 :
  Uri.valid4 b1 b2 b3 b4 = true ->
  (128 <= b2)%nat /\ (128 <= b3)%nat /\ (128 <= b4)%nat.
Proof.
  unfold Uri.valid4. intros H. apply andb_true_iff in H.
  destruct H as [H H4]. apply andb_true_iff in H. destruct H as [H H3].
  apply within_ge in H3, H4.
  repeat (apply orb_true_iff in H; destruct H as [H|H]);
    apply andb_true_iff in H; destruct H as [_ H]; apply within_ge in H; lia.
Qed.

Lemma decode_encode_length (n : nat) :
  forall s, (String.length s <= n)%nat -> Uri.wellFormed s = true ->
            Uri.decodeURIComponent (Uri.encodeURIComponent s) = Some s.
Proof.
  induction n as [|n IH]; intros s Hlen Hwf.
  { destruct s; [reflexivity | cbn in Hlen; lia]. }
  destruct s as [|c1 r1]; [reflexivity|].
  cbn [Uri.wellFormed] in Hwf. cbn [String.length] in Hlen.
  destruct (Nat.ltb_spec (nat_of_ascii c1) 128) as [Hlt|Hge].
  { cbn [Uri.encodeURIComponent].
    destruct (Uri.unreserved c1) eqn:E.
    - apply unreserved_ascii in E. destruct E as [Hp _].
      change (String c1 "" +:+ Uri.encodeURIComponent r1)
        with (String c1 (Uri.encodeURIComponent r1)).
      rewrite decode_cons_plain by exact Hp. rewrite IH; [reflexivity | lia | exact Hwf].
    - rewrite decode_escape1 by exact Hlt. rewrite IH; [reflexivity | lia | exact Hwf]. }
  rewrite encode_cons_escaped by exact Hge.
  destruct (Uri.within 192 223 (nat_of_ascii c1)) eqn:H2.
  { destruct r1 as [|c2 r2]; [discriminate|].
    apply andb_true_iff in Hwf. destruct Hwf as [Hv Hwf].
    rewrite encode_cons_escaped by (apply valid2_high in Hv; exact Hv).
    rewrite decode_escape2 by assumption. cbn [String.length] in Hlen.
    rewrite IH; [reflexivity | lia | exact Hwf]. }
  destruct (Uri.within 224 239 (nat_of_ascii c1)) eqn:H3.
  { destruct r1 as [|c2 [|c3 r3]]; try discriminate.
    apply andb_true_iff in Hwf. destruct Hwf as [Hv Hwf].
    pose proof (valid3_high _ _ _ Hv) as [Hb2 Hb3].
    rewrite !encode_cons_escaped by assumption.
    rewrite decode_escape3 by assumption. cbn [String.length] in Hlen.
    rewrite IH; [reflexivity | lia | exact Hwf]. }
  destruct (Uri.within 240 247 (nat_of_ascii c1)) eqn:H4; [|discriminate].
  destruct r1 as [|c2 [|c3 [|c4 r4]]]; try discriminate.
  apply andb_true_iff in Hwf. destruct Hwf as [Hv Hwf].
  pose proof (valid4_high _ _ _ _ Hv) as (Hb2 & Hb3 & Hb4).
  rewrite !encode_cons_escaped by assumption.
  rewrite decode_escape4 by assumption. cbn [String.length] in Hlen.
  rewrite IH; [reflexivity | lia | exact Hwf].
Qed.

End RoundTrip.

(** [decodeURIComponent] undoes [encodeURIComponent]: on every string
    (in UTF-8) the decoding of the encoding succeeds and gives the string
    back. *)
Lemma decode_encode (s : string) :
  Uri.wellFormed s = true ->
  Uri.decodeURIComponent (Uri.encodeURIComponent s) = Some s.
Proof. intros Hwf. now apply (decode_encode_length (String.length s)). Qed.


(** ** Query strings *)

Section SplitJoin.

Lemma split_without (sep : ascii) (s : string) :
  Str.find (String sep "") s = None -> Js.split sep s = [s].
Proof.
  induction s as [|c s IH]; intros H; [reflexivity|].
  apply find_char_None_cons in H. destruct H as [Hc Hs].
  cbn [Js.split]. rewrite Ascii.eqb_sym, Hc, (IH Hs). reflexivity.
Qed.

Lemma split_at (sep : ascii) (a b : string) :
  Str.find (String sep "") a = None ->
  Js.split sep (a +:+ String sep b) = a :: Js.split sep b.
Proof.
  induction a as [|c a IH]; intros H.
  - change ("" +:+ String sep b) with (String sep b). cbn [Js.split].
    now rewrite Ascii.eqb_refl.
  - apply find_char_None_cons in H. destruct H as [Hc Hs].
    change (String c a +:+ String sep b) with (String c (a +:+ String sep b)).
    cbn [Js.split]. rewrite Ascii.eqb_sym, Hc, (IH Hs). reflexivity.
Qed.

Lemma join_cons (sep x y : string) (l : list string) :
  Js.join sep (x :: y :: l) = x +:+ sep +:+ Js.join sep (y :: l).
Proof. reflexivity. Qed.

(** Splitting undoes joining when no piece holds the separator. *)
Lemma split_join (sep : ascii) (l : list string) :
  l <> [] ->
  Forall (fun x => Str.find (String sep "") x = None) l ->
  Js.split sep (Js.join (String sep "") l) = l.
Proof.
  intros Hne Hall. induction Hall as [|x l Hx Hall IH]; [congruence|].
  destruct l as [|y l].
  - now apply split_without.
  - rewrite join_cons.
    change (x +:+ String sep "" +:+ Js.join (String sep "") (y :: l))
      with (x +:+ String sep (Js.join (String sep "") (y :: l))).
    rewrite split_at by exact Hx. now rewrite IH.
Qed.

Lemma join_absorb (sep x y : string) (l : list string) :
  Js.join sep ((x +:+ sep +:+ y) :: l) = Js.join sep (x :: y :: l).
Proof.
  rewrite join_cons. destruct l as [|z l]; [reflexivity|].
  rewrite !join_cons, !append_assoc. reflexivity.
Qed.

End SplitJoin.

Section BuildQueryString.

Lemma find_char_append_None (c : ascii) (a b : string) :
  Str.find (String c "") a = None -> Str.find (String c "") b = None ->
  Str.find (String c "") (a +:+ b) = None.
Proof. intros Ha Hb. now rewrite find_char_app, Ha, Hb. Qed.

Lemma encodePair_no_amp (kv : string * string) :
  Str.find "&" (encodePair kv) = None.
Proof.
  unfold encodePair. repeat apply find_char_append_None;
    try reflexivity; now apply encodeURIComponent_is_safe.
Qed.

Lemma encodePair_nonempty (kv : string * string) :
  (0 < String.length (encodePair kv))%nat.
Proof. unfold encodePair. rewrite !length_append. cbn. lia. Qed.

Lemma encodePair_split (kv : string * string) :
  Js.split "=" (encodePair kv)
  = [Uri.encodeURIComponent kv.1; Uri.encodeURIComponent kv.2].
Proof.
  unfold encodePair.
  change (Uri.encodeURIComponent kv.1 +:+ "=" +:+ Uri.encodeURIComponent kv.2)
    with (Uri.encodeURIComponent kv.1 +:+ String "=" (Uri.encodeURIComponent kv.2)).
  rewrite split_at by now apply encodeURIComponent_is_safe.
  now rewrite split_without by now apply encodeURIComponent_is_safe.
Qed.

Lemma build_loop (ps : Obj.t) :
  forall acc : string,
    (0 < String.length acc)%nat ->
    fold_left
      (fun queryString kv =>
         (if (0 <? String.length queryString)%nat
          then queryString +:+ "&" else queryString) +:+ encodePair kv)
      ps acc
    = Js.join "&" (acc :: List.map encodePair ps).
Proof.
  induction ps as [|kv ps IH]; intros acc Hacc; [reflexivity|].
  cbn [fold_left List.map]. apply Nat.ltb_lt in Hacc. rewrite Hacc.
  rewrite IH.
  - rewrite append_assoc. apply join_absorb.
  - rewrite !length_append. pose proof (encodePair_nonempty kv). lia.
Qed.

Lemma buildQueryString_join (ps : Obj.t) :
  existsb (fun kv => String.eqb kv.1 "hasOwnProperty") ps = false ->
  buildQueryString ps = Some (Js.join "&" (List.map encodePair ps)).
Proof.
  intros Hown. unfold buildQueryString. rewrite Hown. f_equal.
  destruct ps as [|kv ps]; [reflexivity|].
  cbn [fold_left List.map]. change (0 <? String.length "")%nat with false.
  change ("" +:+ encodePair kv) with (encodePair kv).
  apply build_loop, encodePair_nonempty.
Qed.

(** What the parser of [updateQueryString] makes of an encoded pair. *)
Lemma parsePair_encodePair (kv : string * string) (o : Obj.t) :
  Uri.wellFormed kv.1 = true -> Uri.wellFormed kv.2 = true ->
  parsePair (encodePair kv) o = Some (Obj.set kv.1 kv.2 o).
Proof.
  intros Hk Hv. unfold parsePair, Js.truthy.
  destruct (String.eqb_spec (encodePair kv) "") as [E|_].
  { pose proof (encodePair_nonempty kv) as H. rewrite E in H. cbn in H. lia. }
  cbn [negb]. rewrite encodePair_split. cbn [mapM].
  rewrite !decode_encode by assumption. reflexivity.
Qed.

Lemma parsePairs_encoded (ps : Obj.t) :
  Forall (fun kv => Uri.wellFormed kv.1 = true /\ Uri.wellFormed kv.2 = true) ps ->
  forall o, parsePairs (List.map encodePair ps) o
            = Some (fold_left (fun o kv => Obj.set kv.1 kv.2 o) ps o).
Proof.
  induction 1 as [|kv ps [Hk Hv] _ IH]; intros o; [reflexivity|].
  cbn [List.map parsePairs fold_left].
  rewrite parsePair_encodePair by assumption. apply IH.
Qed.

(** The pieces of a query string that [buildQueryString] returns. *)
Lemma buildQueryString_split (params : Obj.t) (queryString : string) :
  buildQueryString params = Some queryString ->
  queryString = Js.join "&" (List.map encodePair params)
  /\ (params <> [] -> Js.split "&" queryString = List.map encodePair params).
Proof.
  intros Hbuild.
  destruct (existsb (fun kv => String.eqb kv.1 "hasOwnProperty") params) eqn:Hown.
  { unfold buildQueryString in Hbuild. rewrite Hown in Hbuild. discriminate. }
  rewrite (buildQueryString_join _ Hown) in Hbuild. injection Hbuild as <-.
  split; [reflexivity|]. intros Hne. apply split_join.
  - now destruct params.
  - apply Forall_forall. intros x Hx. apply list_elem_of_In, in_map_iff in Hx.
    destruct Hx as (kv & <- & _). apply encodePair_no_amp.
Qed.

End BuildQueryString.



(** X9.  The parser of [updateQueryString] reads the output of
    [buildQueryString] back: the pairs it finds are the parameters, with
    their keys and values decoded to what they were. *)
Theorem buildQueryString_parses_back (params : Obj.t) (queryString : string) :
  Forall (fun kv => Uri.wellFormed kv.1 = true /\ Uri.wellFormed kv.2 = true)
         params ->
  buildQueryString params = Some queryString ->
  parsePairs (Js.split "&" queryString) []
  = Some (fold_left (fun o kv => Obj.set kv.1 kv.2 o) params []).
Proof.
  intros Hwf Hbuild.
  destruct (buildQueryString_split params queryString Hbuild) as [-> Hsplit].
  destruct params as [|kv ps]; [reflexivity|].
  rewrite Hsplit by discriminate. now apply parsePairs_encoded.
Qed.

Lemma buildQueryString_parses_back_witness :
  parsePairs (Js.split "&" "q=a%20b%26c&page=2") []
  = Some [("q", "a b&c"); ("page", "2")].
Proof.
  apply (buildQueryString_parses_back [("q", "a b&c"); ("page", "2")]).
  - repeat constructor.
  - reflexivity.
Defined.

(** ** Objects and [sortedQueryString] *)

Section CodeUnitOrder.

Lemma leb_total (l1 l2 : list N) :
  Utf16.leb l1 l2 = true \/ Utf16.leb l2 l1 = true.
Proof.
  revert l2. induction l1 as [|x l1 IH]; intros [|y l2]; cbn; auto.
  destruct (N.ltb_spec x y), (N.ltb_spec y x); auto; lia.
Qed.

Lemma leb_trans (l1 l2 l3 : list N) :
  Utf16.leb l1 l2 = true -> Utf16.leb l2 l3 = true -> Utf16.leb l1 l3 = true.
Proof.
  revert l2 l3. induction l1 as [|x l1 IH]; intros [|y l2] [|z l3]; cbn;
    try congruence.
  destruct (N.ltb_spec x y), (N.ltb_spec y x), (N.ltb_spec y z),
    (N.ltb_spec z y), (N.ltb_spec x z), (N.ltb_spec z x);
    try congruence; try lia; eauto.
Qed.

Lemma leb_antisym (l1 l2 : list N) :
  Utf16.leb l1 l2 = true -> Utf16.leb l2 l1 = true -> l1 = l2.
Proof.
  revert l2. induction l1 as [|x l1 IH]; intros [|y l2]; cbn; try congruence.
  destruct (N.ltb_spec x y), (N.ltb_spec y x); try congruence; try lia.
  intros H1 H2. f_equal; [lia | now apply IH].
Qed.

#[local] Instance le_total : Total Utf16.le.
Proof. intros a b. apply leb_total. Qed.

#[local] Instance le_trans : Transitive Utf16.le.
Proof. intros a b c. apply leb_trans. Qed.

(** Two sorted arrangements of the same keys are the same list, when the
    keys differ as sequences of code units. *)
Lemma sortKeys_perm (ks1 ks2 : list string) :
  ks1 ≡ₚ ks2 -> NoDup (Utf16.codeUnits <$> ks1) -> sortKeys ks1 = sortKeys ks2.
Proof.
  intros Hperm Hnd. unfold sortKeys.
  apply (Sorted_unique_strong Utf16.le).
  - intros a b Ha Hb Hab Hba.
    rewrite merge_sort_Permutation in Ha, Hb. rewrite <- Hperm in Hb.
    pose proof (leb_antisym _ _ Hab Hba) as Hcu.
    apply (NoDup_fmap_1 Utf16.codeUnits) in Hnd as Hnd'.
    apply list_elem_of_lookup in Ha, Hb. destruct Ha as [i Hi], Hb as [j Hj].
    assert (i = j) as ->.
    { apply (NoDup_lookup _ i j (Utf16.codeUnits a) Hnd).
      - now rewrite list_lookup_fmap, Hi.
      - now rewrite list_lookup_fmap, Hj, Hcu. }
    congruence.
  - apply Sorted_merge_sort; apply _.
  - apply Sorted_merge_sort; apply _.
  - now rewrite !merge_sort_Permutation.
Qed.

End CodeUnitOrder.

Section Objects.

Lemma entries_parts (o : Obj.t) : ((Obj.indexed o).*2 ++ Obj.named o)%list ≡ₚ o.
Proof.
  induction o as [|kv o IH]; [reflexivity|].
  unfold Obj.indexed, Obj.named in *. cbn [omap list_omap List.filter].
  destruct (Obj.arrayIndex kv.1) as [n|]; cbn.
  - now rewrite IH.
  - now rewrite <- Permutation_middle, IH.
Qed.

(** Enumerating an object visits its properties, each once. *)
Lemma entries_perm (o : Obj.t) : Obj.entries o ≡ₚ o.
Proof.
  unfold Obj.entries. rewrite merge_sort_Permutation. apply entries_parts.
Qed.

Lemma update_fresh (k v : string) (o : Obj.t) :
  k ∉ o.*1 -> Obj.update k v o = (o ++ [(k, v)])%list.
Proof.
  induction o as [|[k' v'] o IH]; intros Hk; [reflexivity|].
  cbn [Obj.update]. rewrite fmap_cons in Hk. apply not_elem_of_cons in Hk.
  destruct Hk as [Hne Hk]. cbn in Hne.
  destruct (String.eqb_spec k' k); [congruence|]. now rewrite IH.
Qed.

(** Assigning parameters with distinct new names appends them in order,
    the name [__proto__] left out. *)
Lemma setAll_fresh (ps o : Obj.t) :
  NoDup ps.*1 ->
  (forall k, k ∈ ps.*1 -> k ∉ o.*1) ->
  fold_left (fun o kv => Obj.set kv.1 kv.2 o) ps o
  = (o ++ filter (fun kv => kv.1 <> "__proto__") ps)%list.
Proof.
  revert o. induction ps as [|[k v] ps IH]; intros o Hnd Hfresh.
  { now rewrite filter_nil, app_nil_r. }
  rewrite fmap_cons in Hnd. apply NoDup_cons in Hnd. destruct Hnd as [Hk Hnd].
  cbn [fold_left]. unfold Obj.set at 2. cbn [fst snd].
  rewrite filter_cons. cbn [fst].
  destruct (String.eqb_spec k "__proto__") as [->|Hne].
  - rewrite decide_False by (intros H; now apply H).
    apply IH; [exact Hnd|]. intros k' Hk'. apply Hfresh. rewrite fmap_cons. now right.
  - rewrite decide_True by exact Hne.
    rewrite update_fresh by (apply Hfresh; rewrite fmap_cons; now left).
    rewrite IH; [now rewrite <- app_assoc | exact Hnd |].
    intros k' Hk'. rewrite fmap_app. apply not_elem_of_app. split.
    + apply Hfresh. rewrite fmap_cons. now right.
    + cbn. apply not_elem_of_cons. split; [|apply not_elem_of_nil].
      intros ->. contradiction.
Qed.

Lemma get_elem (o : Obj.t) (k v : string) :
  NoDup o.*1 -> (k, v) ∈ o -> Obj.get k o = Some v.
Proof.
  induction o as [|[k' v'] o IH]; intros Hnd Hin; [now apply elem_of_nil in Hin|].
  rewrite fmap_cons in Hnd. apply NoDup_cons in Hnd. destruct Hnd as [Hk Hnd].
  cbn [Obj.get]. apply elem_of_cons in Hin. destruct Hin as [[= <- <-] | Hin].
  - now rewrite String.eqb_refl.
  - destruct (String.eqb_spec k' k) as [->|_]; [|now apply IH].
    exfalso. apply Hk. cbn. apply list_elem_of_fmap. now exists (k, v).
Qed.

End Objects.

Section SortedKeys.

Lemma normalized_eq (params : list (string * ParamValue)) :
  NoDup params.*1 ->
  fold_left (fun o kv => Obj.set kv.1 (normalizeValue kv.2) o) params []
  = filter (fun kv => kv.1 <> "__proto__")
      (prod_map id normalizeValue <$> params).
Proof.
  intros Hnd.
  assert (forall o,
            fold_left (fun o kv => Obj.set kv.1 (normalizeValue kv.2) o) params o
            = fold_left (fun o kv => Obj.set kv.1 kv.2 o)
                (prod_map id normalizeValue <$> params) o) as ->.
  { induction params as [|kv ps IH]; intros o; [reflexivity|].
    cbn [fold_left fmap list_fmap]. apply IH.
    rewrite fmap_cons in Hnd. now apply NoDup_cons in Hnd. }
  rewrite setAll_fresh; [reflexivity | |].
  - rewrite <- list_fmap_compose.
    now replace (fst ∘ prod_map id normalizeValue) with (@fst string ParamValue)
      by reflexivity.
  - intros k _. apply not_elem_of_nil.
Qed.

End SortedKeys.

(** X10.  The result of [sortedQueryString] does not depend on the order in
    which the parameters are listed, as long as their names are distinct
    strings. *)
Theorem sortedQueryString_order_independent
    (params1 params2 : list (string * ParamValue)) :
  params1 ≡ₚ params2 ->
  NoDup (Utf16.codeUnits <$> params1.*1) ->
  sortedQueryString params1 = sortedQueryString params2.
Proof.
  intros Hperm Hcu.
  assert (NoDup params1.*1) as Hnd1 by exact (NoDup_fmap_1 _ _ Hcu).
  assert (NoDup params2.*1) as Hnd2 by now rewrite <- Hperm.
  unfold sortedQueryString. rewrite !normalized_eq by assumption.
  set (n1 := filter _ (_ <$> params1)). set (n2 := filter _ (_ <$> params2)).
  assert (n1 ≡ₚ n2) as Hn by (subst n1 n2; now rewrite Hperm).
  assert (n1.*1 `sublist_of` params1.*1) as Hsub.
  { subst n1. clear. induction params1 as [|[k v] ps IH]; [constructor|].
    rewrite !fmap_cons, filter_cons. destruct (decide _).
    - rewrite fmap_cons. now apply sublist_skip.
    - now apply sublist_cons. }
  assert (NoDup n1.*1) as Hndn1 by exact (sublist_NoDup _ _ Hnd1 Hsub).
  assert (NoDup n2.*1) as Hndn2 by now rewrite <- Hn.
  assert (sortKeys (Obj.keys n1) = sortKeys (Obj.keys n2)) as Hkeys.
  { apply sortKeys_perm.
    - unfold Obj.keys. now rewrite !entries_perm, Hn.
    - unfold Obj.keys. rewrite entries_perm.
      apply (sublist_NoDup _ (Utf16.codeUnits <$> params1.*1)); [exact Hcu|].
      now apply fmap_sublist. }
  rewrite <- Hkeys. f_equal. apply map_ext_in. intros key Hin.
  assert (key ∈ n1.*1) as Hk.
  { apply list_elem_of_In in Hin. unfold sortKeys in Hin.
    rewrite merge_sort_Permutation in Hin. unfold Obj.keys in Hin.
    now rewrite entries_perm in Hin. }
  apply list_elem_of_fmap in Hk. destruct Hk as ([k v] & -> & Hkv). cbn [fst].
  rewrite (get_elem n1 k v Hndn1 Hkv).
  rewrite Hn in Hkv. now rewrite (get_elem n2 k v Hndn2 Hkv).
Qed.

Lemma sortedQueryString_order_independent_witness :
  sortedQueryString [("b", POther "2"); ("a", PBoolean true); ("10", PNullish)]
  = sortedQueryString [("10", PNullish); ("b", POther "2"); ("a", PBoolean true)].
Proof.
  apply sortedQueryString_order_independent.
  - symmetry. apply (Permutation_cons_append
             [("b", POther "2"); ("a", PBoolean true)] ("10", PNullish)).
  - apply (bool_decide_unpack _). vm_compute. exact I.
Defined.

(** ** [updateQueryString] *)

Section UpdateQueryString.

Lemma indexOf_start (s x : string) :
  Str.indexOf s x 0
  = match Str.find x s with
    | Some i => Z.of_nat i
    | None => -1
    end.
Proof.
  pose proof (indexOf_inside s x 0 ltac:(lia)) as H.
  change (Z.of_nat 0) with 0 in H. rewrite H. cbn [Js.substring].
  now destruct (Str.find x s).
Qed.

Lemma substring_prefix (s : string) (i : nat) :
  (i <= String.length s)%nat ->
  Str.substring s 0 (Z.of_nat i) = Str.take i s.
Proof.
  intros Hi. pose proof (substring_between s 0 i ltac:(lia) Hi) as H.
  change (Z.of_nat 0) with 0 in H. rewrite H. cbn [Js.substring].
  now rewrite Nat.sub_0_r.
Qed.

(** The function in terms of the three parts of the URL. *)
Lemma updateQueryString_eq (url : string) (params : Obj.t) :
  updateQueryString url params
  = (queryParams ← (if Js.truthy (urlQuery url)
                    then parsePairs (Js.split "&" (urlQuery url)) []
                    else Some []);
     Some (urlBase url +:+ renderQuery (assignAll params queryParams)
           +:+ urlHash url)).
Proof.
  unfold updateQueryString, urlBase, urlQuery, urlBeforeHash, urlHash.
  rewrite indexOf_start.
  destruct (Str.find "#" url) as [i|] eqn:Eh.
  - apply find_Some in Eh. destruct Eh as [_ Hi]. cbn in Hi.
    destruct (Z.eqb_spec (Z.of_nat i) (-1)); [exfalso; lia|]. cbn [negb].
    rewrite substring_prefix by lia. rewrite Nat2Z.id, indexOf_start.
    destruct (Str.find "?" (Str.take i url)) as [j|] eqn:Eq.
    + apply find_Some in Eq. destruct Eq as [_ Hj]. cbn in Hj.
      destruct (Z.eqb_spec (Z.of_nat j) (-1)); [exfalso; lia|]. cbn [negb].
      rewrite substring_prefix by lia.
      replace (Z.to_nat (Z.of_nat j + 1)) with (S j) by lia. reflexivity.
    + reflexivity.
  - change (-1 =? -1) with true. cbn [negb]. rewrite indexOf_start.
    destruct (Str.find "?" url) as [j|] eqn:Eq.
    + apply find_Some in Eq. destruct Eq as [_ Hj]. cbn in Hj.
      destruct (Z.eqb_spec (Z.of_nat j) (-1)); [exfalso; lia|]. cbn [negb].
      rewrite substring_prefix by lia.
      replace (Z.to_nat (Z.of_nat j + 1)) with (S j) by lia. reflexivity.
    + reflexivity.
Qed.

Lemma find_char_take_None (c : ascii) (n : nat) (s : string) :
  Str.find (String c "") s = None -> Str.find (String c "") (Str.take n s) = None.
Proof. intros H. apply find_char_take. now rewrite H. Qed.

Lemma find_char_take_first (c : ascii) (i : nat) (s : string) :
  Str.find (String c "") s = Some i -> Str.find (String c "") (Str.take i s) = None.
Proof. intros H. apply find_char_take. now rewrite H. Qed.

Lemma urlBeforeHash_no_hash (url : string) :
  Str.find "#" (urlBeforeHash url) = None.
Proof.
  unfold urlBeforeHash. destruct (Str.find "#" url) eqn:E; [|exact E].
  now apply find_char_take_first.
Qed.

Lemma urlBase_no_hash (url : string) : Str.find "#" (urlBase url) = None.
Proof.
  unfold urlBase. pose proof (urlBeforeHash_no_hash url) as H.
  destruct (Str.find "?" (urlBeforeHash url)); [|exact H].
  now apply find_char_take_None.
Qed.

Lemma urlBase_no_query (url : string) : Str.find "?" (urlBase url) = None.
Proof.
  unfold urlBase. destruct (Str.find "?" (urlBeforeHash url)) eqn:E; [|exact E].
  now apply find_char_take_first.
Qed.

Lemma urlHash_cases (url : string) :
  urlHash url = "" \/ Js.startsWith (urlHash url) "#" = true.
Proof.
  unfold urlHash. destruct (Str.find "#" url) as [i|] eqn:E; [|now left].
  right. now apply find_Some in E.
Qed.

Lemma take_substring (n : nat) (s : string) :
  Str.take n s +:+ Js.substring n s = s.
Proof.
  revert s. induction n as [|n IH]; intros [|c s]; try reflexivity.
  cbn [Str.take Js.substring].
  change (String c (Str.take n s) +:+ Js.substring n s)
    with (String c (Str.take n s +:+ Js.substring n s)).
  now rewrite IH.
Qed.

(** A URL is its base, its query with the question mark, if any, and its
    fragment. *)
Lemma url_parts (url : string) :
  url = urlBase url
        +:+ match Str.find "?" (urlBeforeHash url) with
            | Some _ => "?" +:+ urlQuery url
            | None => ""
            end
        +:+ urlHash url.
Proof.
  assert (url = urlBeforeHash url +:+ urlHash url) as Hu.
  { unfold urlBeforeHash, urlHash. destruct (Str.find "#" url) as [i|].
    - now rewrite take_substring.
    - now rewrite append_nil_r. }
  rewrite Hu at 1. rewrite <- append_assoc. f_equal.
  unfold urlBase, urlQuery.
  destruct (Str.find "?" (urlBeforeHash url)) as [j|] eqn:E.
  - rewrite <- (take_substring j (urlBeforeHash url)) at 1. f_equal.
    apply find_Some in E. destruct E as [Hp _].
    destruct (prefix_split _ _ Hp) as [r Hr].
    replace (S j) with (j + 1)%nat by lia.
    rewrite <- (substring_add 1 j), Hr. reflexivity.
  - now rewrite append_nil_r.
Qed.

Lemma encodePair_no (c : ascii) (kv : string * string) :
  Uri.unreserved c = false -> c <> "%"%char -> c <> "="%char ->
  Str.find (String c "") (encodePair kv) = None.
Proof.
  intros Hc Hp He. unfold encodePair. repeat apply find_char_append_None;
    try now apply encodeURIComponent_is_safe.
  rewrite find_char_single. apply Ascii.eqb_neq in He. now rewrite He.
Qed.

Lemma join_no (c sep : ascii) (l : list string) :
  Ascii.eqb c sep = false ->
  Forall (fun x => Str.find (String c "") x = None) l ->
  Str.find (String c "") (Js.join (String sep "") l) = None.
Proof.
  intros Hsep. induction 1 as [|x l Hx Hl IH]; [reflexivity|].
  destruct l as [|y l]; [exact Hx|].
  rewrite join_cons. repeat apply find_char_append_None; try assumption.
  now rewrite find_char_single, Hsep.
Qed.

Lemma renderQuery_cases (o : Obj.t) :
  (Obj.entries o = [] /\ renderQuery o = "")
  \/ (Obj.entries o <> [] /\
      renderQuery o = "?" +:+ Js.join "&" (List.map encodePair (Obj.entries o))).
Proof.
  unfold renderQuery. destruct (Obj.entries o) as [|kv l]; [now left|].
  right. split; [discriminate | reflexivity].
Qed.

Lemma query_no (c : ascii) (o : Obj.t) :
  Uri.unreserved c = false -> c <> "%"%char -> c <> "="%char -> c <> "&"%char ->
  Str.find (String c "") (Js.join "&" (List.map encodePair (Obj.entries o))) = None.
Proof.
  intros Hc Hp He Ha. apply join_no; [now apply Ascii.eqb_neq|].
  apply Forall_forall. intros x Hx. apply list_elem_of_In, in_map_iff in Hx.
  destruct Hx as (kv & <- & _). now apply encodePair_no.
Qed.

End UpdateQueryString.

(** X11.  [updateQueryString] only rewrites the query: the result is the text
    before the first [?] or [#] of the URL, then nothing or a [?] followed
    by a query without [?] and [#], then the URL from its first [#] on. *)
Theorem updateQueryString_keeps_base_and_fragment (url : string)
    (params : Obj.t) (result : string) :
  updateQueryString url params = Some result ->
  exists query,
    result = urlBase url +:+ query +:+ urlHash url
    /\ (query = ""
        \/ exists q, query = "?" +:+ q /\ q <> ""
                     /\ Str.find "?" q = None /\ Str.find "#" q = None).
Proof.
  rewrite updateQueryString_eq. intros H.
  destruct (if Js.truthy (urlQuery url) then _ else _) as [o|]; [|discriminate].
  cbn in H. injection H as <-.
  exists (renderQuery (assignAll params o)). split; [reflexivity|].
  destruct (renderQuery_cases (assignAll params o)) as [[_ ->] | [Hne ->]];
    [now left|].
  right. eexists. split; [reflexivity|]. split; [|split].
  - destruct (Obj.entries (assignAll params o)) as [|kv l]; [congruence|].
    intros E. apply (f_equal String.length) in E.
    destruct l; cbn [List.map] in E.
    + pose proof (encodePair_nonempty kv). cbn in E. lia.
    + rewrite join_cons, !length_append in E.
      pose proof (encodePair_nonempty kv). cbn in E. lia.
  - apply query_no; [reflexivity | discriminate..].
  - apply query_no; [reflexivity | discriminate..].
Qed.

Lemma updateQueryString_keeps_base_and_fragment_witness :
  exists query,
    "https://example.com/video?t=30&id=7#comments"
    = urlBase "https://example.com/video?t=10&id=7#comments" +:+ query
      +:+ urlHash "https://example.com/video?t=10&id=7#comments"
    /\ (query = ""
        \/ exists q, query = "?" +:+ q /\ q <> ""
                     /\ Str.find "?" q = None /\ Str.find "#" q = None).
Proof.
  apply (updateQueryString_keeps_base_and_fragment
           "https://example.com/video?t=10&id=7#comments" [("t", "30")]).
  vm_compute. reflexivity.
Defined.

(** X12.  Without parameters, a URL that has no question mark before its
    fragment comes back unchanged. *)
Theorem updateQueryString_nothing_to_do (url : string) :
  Str.find "?" (urlBeforeHash url) = None ->
  updateQueryString url [] = Some url.
Proof.
  intros Hq. rewrite updateQueryString_eq. pose proof (url_parts url) as Hu.
  unfold urlQuery in *. rewrite Hq in *. cbn.
  change (urlBase url +:+ "" +:+ urlHash url) with (urlBase url +:+ ("" +:+ urlHash url)).
  now rewrite <- Hu.
Qed.

Lemma updateQueryString_nothing_to_do_witness :
  updateQueryString "https://example.com/a/b#top?x" [] =
  Some "https://example.com/a/b#top?x".
Proof. apply updateQueryString_nothing_to_do. reflexivity. Defined.

Section UpdateResult.

Lemma take_app_length (a b : string) (n : nat) :
  n = String.length a -> Str.take n (a +:+ b) = a.
Proof. intros ->. apply take_app. Qed.

Lemma substring_app_length (a b : string) (n : nat) :
  n = String.length a -> Js.substring n (a +:+ b) = b.
Proof. intros ->. apply substring_app. Qed.

(** The parts of a URL put together from a base without [?] and [#], a
    query without [?] and [#], and a fragment. *)
Lemma parts_of_result (base hash : string) (q : option string) :
  Str.find "#" base = None ->
  Str.find "?" base = None ->
  hash = "" \/ Js.startsWith hash "#" = true ->
  match q with
  | Some j => Str.find "?" j = None /\ Str.find "#" j = None
  | None => True
  end ->
  let result := base +:+ match q with Some j => "?" +:+ j | None => "" end
                +:+ hash in
  urlBase result = base /\ urlQuery result = default "" q
  /\ urlHash result = hash.
Proof.
  intros Hbh Hbq Hhash Hq result.
  set (mid := match q with Some j => "?" +:+ j | None => "" end) in *.
  assert (Str.find "#" mid = None) as Hmh.
  { subst mid. destruct q as [j|]; [|reflexivity]. destruct Hq as [_ Hj].
    change ("?" +:+ j) with (String "?" j). now rewrite find_char_cons, Hj. }
  assert (urlBeforeHash result = base +:+ mid /\ urlHash result = hash)
    as [Hbefore Hh].
  { unfold urlBeforeHash, urlHash. subst result.
    rewrite <- append_assoc, find_char_app.
    rewrite (find_char_append_None "#" base mid Hbh Hmh).
    destruct Hhash as [-> | Hhash].
    - cbn. now rewrite append_nil_r.
    - rewrite (find_char_prefix "#" hash Hhash). cbn [fmap option_fmap option_map].
      rewrite Nat.add_0_r. now rewrite take_app, substring_app. }
  unfold urlBase, urlQuery. rewrite Hbefore, find_char_app, Hbq.
  subst mid. destruct q as [j|].
  - change ("?" +:+ j) with (String "?" j). rewrite find_char_cons.
    cbn [Ascii.eqb Bool.eqb fmap option_fmap option_map]. rewrite Nat.add_0_r.
    repeat split; [apply take_app | | exact Hh].
    replace (S (String.length base)) with (String.length base + 1)%nat by lia.
    now rewrite <- substring_add, substring_app.
  - cbn. rewrite append_nil_r. repeat split. exact Hh.
Qed.

Lemma update_elem (k v : string) (o : Obj.t) : (k, v) ∈ Obj.update k v o.
Proof.
  induction o as [|[k' v'] o IH]; cbn [Obj.update]; [now left|].
  destruct (String.eqb k' k); [now left | now right].
Qed.

Lemma update_other (k v k' v' : string) (o : Obj.t) :
  k' <> k -> (k, v) ∈ o -> (k, v) ∈ Obj.update k' v' o.
Proof.
  intros Hne. induction o as [|[k0 v0] o IH]; intros Hin; cbn [Obj.update].
  - now apply elem_of_nil in Hin.
  - apply elem_of_cons in Hin. destruct (String.eqb_spec k0 k') as [->|_].
    + destruct Hin as [[= <- <-] | Hin]; [exfalso; now apply Hne | now right].
    + destruct Hin as [-> | Hin]; [now left | right; now apply IH].
Qed.

Lemma set_other (k v k' v' : string) (o : Obj.t) :
  k' <> k -> (k, v) ∈ o -> (k, v) ∈ Obj.set k' v' o.
Proof.
  intros Hne Hin. unfold Obj.set.
  destruct (String.eqb k' "__proto__"); [exact Hin | now apply update_other].
Qed.

Lemma assignAll_keeps (params o : Obj.t) (k v : string) :
  k ∉ params.*1 -> (k, v) ∈ o -> (k, v) ∈ assignAll params o.
Proof.
  revert o. induction params as [|[k' v'] ps IH]; intros o Hk Hin; [exact Hin|].
  rewrite fmap_cons in Hk. apply not_elem_of_cons in Hk. destruct Hk as [Hne Hk].
  unfold assignAll. cbn [fold_left]. apply IH; [exact Hk|].
  apply set_other; [|exact Hin]. intros E. apply Hne. now rewrite <- E.
Qed.

Lemma assignAll_sets (params o : Obj.t) (k v : string) :
  NoDup params.*1 -> (k, v) ∈ params -> k <> "__proto__" ->
  (k, v) ∈ assignAll params o.
Proof.
  revert o. induction params as [|[k' v'] ps IH]; intros o Hnd Hin Hk.
  { now apply elem_of_nil in Hin. }
  rewrite fmap_cons in Hnd. apply NoDup_cons in Hnd. destruct Hnd as [Hfresh Hnd].
  unfold assignAll. cbn [fold_left].
  apply elem_of_cons in Hin. destruct Hin as [[= <- <-] | Hin].
  - apply assignAll_keeps; [exact Hfresh|]. unfold Obj.set. cbn [fst snd].
    apply String.eqb_neq in Hk. rewrite Hk. apply update_elem.
  - now apply IH.
Qed.

Lemma get_Some_elem (o : Obj.t) (k v : string) :
  Obj.get k o = Some v -> (k, v) ∈ o.
Proof.
  induction o as [|[k' v'] o IH]; cbn [Obj.get]; [discriminate|].
  destruct (String.eqb_spec k' k) as [->|_].
  - intros [= ->]. now left.
  - intros H. right. now apply IH.
Qed.

(** The query of the result, cut at [&], is the encoded properties of
    the final object. *)
Lemma result_pieces (url : string) (params o0 : Obj.t) :
  let o := assignAll params o0 in
  let result := urlBase url +:+ renderQuery o +:+ urlHash url in
  Obj.entries o <> [] ->
  urlBase result = urlBase url /\ urlHash result = urlHash url
  /\ urlQuery result = Js.join "&" (List.map encodePair (Obj.entries o))
  /\ Js.split "&" (urlQuery result) = List.map encodePair (Obj.entries o).
Proof.
  intros o result Hne. subst result.
  destruct (renderQuery_cases o) as [[E _] | [_ ->]]; [congruence|].
  destruct (parts_of_result (urlBase url) (urlHash url)
              (Some (Js.join "&" (List.map encodePair (Obj.entries o)))))
    as (Hb & Hq & Hh).
  - apply urlBase_no_hash.
  - apply urlBase_no_query.
  - apply urlHash_cases.
  - split; apply query_no; (reflexivity || discriminate).
  - cbn [default] in Hq. rewrite Hb, Hq, Hh. repeat split.
    apply split_join.
    + destruct (Obj.entries o); [congruence | discriminate].
    + apply Forall_forall. intros x Hx. apply list_elem_of_In, in_map_iff in Hx.
      destruct Hx as (kv & <- & _). apply encodePair_no_amp.
Qed.

End UpdateResult.

(** X13.  In the query of the result, every parameter given (the name
    [__proto__] apart) appears with its new value, and every parameter of
    the URL that is not given appears with the value it had. *)
Theorem updateQueryString_writes_params (url : string) (params : Obj.t)
    (result : string) :
  NoDup params.*1 ->
  updateQueryString url params = Some result ->
  (forall k v, (k, v) ∈ params -> k <> "__proto__" ->
               encodePair (k, v) ∈ Js.split "&" (urlQuery result))
  /\ (forall o0 k v,
        parsePairs (Js.split "&" (urlQuery url)) [] = Some o0 ->
        Obj.get k o0 = Some v -> k ∉ params.*1 ->
        encodePair (k, v) ∈ Js.split "&" (urlQuery result)).
Proof.
  intros Hnd. rewrite updateQueryString_eq. intros H.
  destruct (if Js.truthy (urlQuery url) then _ else _) as [o|] eqn:Ho;
    [|discriminate].
  cbn in H. injection H as <-.
  assert (forall k v, (k, v) ∈ assignAll params o ->
            encodePair (k, v)
            ∈ Js.split "&" (urlQuery (urlBase url +:+ renderQuery (assignAll params o)
                                      +:+ urlHash url))) as Hpieces.
  { intros k v Hin.
    assert (Obj.entries (assignAll params o) <> []) as Hne.
    { intros E. rewrite <- entries_perm, E in Hin. now apply elem_of_nil in Hin. }
    destruct (result_pieces url params o Hne) as (_ & _ & _ & ->).
    apply list_elem_of_In, in_map, list_elem_of_In. now rewrite entries_perm. }
  split.
  - intros k v Hin Hk. now apply Hpieces, assignAll_sets.
  - intros o0 k v Hparse Hget Hk. apply Hpieces, assignAll_keeps; [exact Hk|].
    apply get_Some_elem.
    unfold Js.truthy in Ho. destruct (String.eqb_spec (urlQuery url) "") as [E|_].
    + rewrite E in Hparse. cbn in Hparse. injection Hparse as <-. discriminate Hget.
    + cbn [negb] in Ho. congruence.
Qed.

Lemma updateQueryString_writes_params_witness :
  (forall k v, (k, v) ∈ [("t", "30"); ("lang", "zh CN")] -> k <> "__proto__" ->
               encodePair (k, v)
               ∈ Js.split "&" (urlQuery "https://example.com/v?t=30&id=7&lang=zh%20CN#c"))
  /\ (forall o0 k v,
        parsePairs (Js.split "&" (urlQuery "https://example.com/v?t=10&id=7#c")) []
        = Some o0 ->
        Obj.get k o0 = Some v -> k ∉ [("t", "30"); ("lang", "zh CN")].*1 ->
        encodePair (k, v)
        ∈ Js.split "&" (urlQuery "https://example.com/v?t=30&id=7&lang=zh%20CN#c")).
Proof.
  apply (updateQueryString_writes_params "https://example.com/v?t=10&id=7#c"
           [("t", "30"); ("lang", "zh CN")]).
  - apply (bool_decide_unpack _). vm_compute. exact I.
  - vm_compute. reflexivity.
Defined.

(** ** [updateQueryString] applied twice *)

Section AsciiText.

Lemma isAscii_take (n : nat) (s : string) :
  Uri.isAscii s = true -> Uri.isAscii (Str.take n s) = true.
Proof.
  revert s. induction n as [|n IH]; intros [|c s] H; try reflexivity.
  cbn [Str.take Uri.isAscii] in *. apply andb_true_iff in H.
  destruct H as [Hc Hs]. now rewrite Hc, IH.
Qed.

Lemma isAscii_substring (n : nat) (s : string) :
  Uri.isAscii s = true -> Uri.isAscii (Js.substring n s) = true.
Proof.
  revert s. induction n as [|n IH]; intros [|c s] H; try reflexivity; [exact H|].
  cbn [Js.substring]. cbn [Uri.isAscii] in H. apply andb_true_iff in H.
  now apply IH.
Qed.

Lemma isAscii_split (sep : ascii) (s : string) :
  Uri.isAscii s = true -> Forall (fun x => Uri.isAscii x = true) (Js.split sep s).
Proof.
  induction s as [|c s IH]; intros H; [now repeat constructor|].
  cbn [Uri.isAscii] in H. apply andb_true_iff in H. destruct H as [Hc Hs].
  specialize (IH Hs). cbn [Js.split]. destruct (Ascii.eqb c sep).
  - now constructor.
  - destruct (Js.split sep s) as [|w ws].
    + repeat constructor. cbn [Uri.isAscii]. now rewrite Hc.
    + apply Forall_cons in IH. destruct IH as [Hw Hws].
      constructor; [|exact Hws]. cbn [Uri.isAscii]. now rewrite Hc, Hw.
Qed.

Lemma isAscii_urlQuery (url : string) :
  Uri.isAscii url = true -> Uri.isAscii (urlQuery url) = true.
Proof.
  intros H. unfold urlQuery, urlBeforeHash.
  destruct (Str.find "#" url).
  - destruct (Str.find "?" _); [|reflexivity].
    now apply isAscii_substring, isAscii_take.
  - destruct (Str.find "?" _); [|reflexivity]. now apply isAscii_substring.
Qed.

Lemma hexValue_lt (c : ascii) (n : nat) :
  Uri.hexValue c = Some n -> (n < 16)%nat.
Proof.
  unfold Uri.hexValue.
  destruct (Uri.between 48 57 c) eqn:E1; [|destruct (Uri.between 65 70 c) eqn:E2;
    [|destruct (Uri.between 97 102 c) eqn:E3; [|discriminate]]];
    intros [= <-];
    match goal with H : Uri.between _ _ _ = true |- _ =>
      unfold Uri.between in H; apply andb_true_iff in H; destruct H as [Hlo Hhi];
      apply Nat.leb_le in Hlo, Hhi; lia
    end.
Qed.

Lemma octet_lt (h1 h2 : ascii) (b : nat) :
  Uri.octet h1 h2 = Some b -> (b < 256)%nat.
Proof.
  unfold Uri.octet.
  destruct (Uri.hexValue h1) as [a|] eqn:E1; [|discriminate].
  destruct (Uri.hexValue h2) as [a'|] eqn:E2; [|discriminate].
  intros [= <-]. apply hexValue_lt in E1, E2. lia.
Qed.

Lemma nat_byte (b : nat) : (b < 256)%nat -> nat_of_ascii (Uri.byte b) = b.
Proof. apply nat_ascii_embedding. Qed.

Lemma fmap_Some_inv {A B} (f : A -> B) (x : option A) (y : B) :
  f <$> x = Some y -> exists a, x = Some a /\ y = f a.
Proof. destruct x as [a|]; [|discriminate]. intros [= <-]. now exists a. Qed.

(** Decoding a string of ASCII characters gives UTF-8. *)
Lemma decode_ascii (n : nat) :
  forall s r, (String.length s <= n)%nat -> Uri.isAscii s = true ->
              Uri.decodeURIComponent s = Some r -> Uri.wellFormed r = true.
Proof.
  induction n as [|n IH]; intros s r Hlen Hs Hdec.
  { destruct s; [|cbn in Hlen; lia]. now injection Hdec as <-. }
  destruct s as [|c r0]; [now injection Hdec as <-|].
  cbn [String.length] in Hlen. cbn [Uri.isAscii] in Hs.
  apply andb_true_iff in Hs. destruct Hs as [Hc Hr0].
  destruct (Ascii.eqb_spec c "%") as [->|Hp].
  2: { rewrite decode_cons_plain in Hdec by exact Hp.
       apply fmap_Some_inv in Hdec. destruct Hdec as (r' & Hr' & ->).
       cbn [Uri.wellFormed]. rewrite Hc. apply (IH r0); [lia | assumption..]. }
  destruct r0 as [|h1 [|h2 r1]]; try discriminate Hdec.
  cbn [Uri.isAscii] in Hr0. apply andb_true_iff in Hr0. destruct Hr0 as [_ Hr0].
  apply andb_true_iff in Hr0. destruct Hr0 as [_ Hr1].
  cbn [String.length] in Hlen.
  rewrite decode_cons_percent in Hdec.
  destruct (Uri.octet h1 h2) as [b1|] eqn:Eb1; [|discriminate].
  pose proof (octet_lt _ _ _ Eb1) as Hb1.
  destruct (b1 <? 128)%nat eqn:Elow.
  { apply fmap_Some_inv in Hdec. destruct Hdec as (r' & Hr' & ->).
    cbn [Uri.wellFormed]. rewrite nat_byte, Elow by exact Hb1.
    apply (IH r1); [lia | assumption..]. }
  destruct (Uri.within 192 223 b1) eqn:E2.
  { destruct r1 as [|p1 [|x1 [|x2 r2]]]; try discriminate Hdec.
    destruct (Uri.octet x1 x2) as [b2|] eqn:Eb2; [|discriminate].
    destruct (Ascii.eqb p1 "%" && Uri.valid2 b1 b2) eqn:Ev; [|discriminate].
    apply andb_true_iff in Ev. destruct Ev as [_ Ev].
    apply fmap_Some_inv in Hdec. destruct Hdec as (r' & Hr' & ->).
    cbn [Uri.wellFormed]. rewrite !nat_byte by eauto using octet_lt.
    rewrite Elow, E2, Ev. cbn [andb]. apply (IH r2); [cbn in Hlen; lia | | exact Hr'].
    cbn [Uri.isAscii] in Hr1. repeat (apply andb_true_iff in Hr1; destruct Hr1 as [_ Hr1]).
    exact Hr1. }
  destruct (Uri.within 224 239 b1) eqn:E3.
  { destruct r1 as [|p1 [|x1 [|x2 [|p2 [|y1 [|y2 r3]]]]]]; try discriminate Hdec.
    destruct (Uri.octet x1 x2) as [b2|] eqn:Eb2; [|discriminate].
    destruct (Uri.octet y1 y2) as [b3|] eqn:Eb3; [|discriminate].
    destruct (Ascii.eqb p1 "%" && Ascii.eqb p2 "%" && Uri.valid3 b1 b2 b3) eqn:Ev;
      [|discriminate].
    apply andb_true_iff in Ev. destruct Ev as [_ Ev].
    apply fmap_Some_inv in Hdec. destruct Hdec as (r' & Hr' & ->).
    cbn [Uri.wellFormed]. rewrite !nat_byte by eauto using octet_lt.
    rewrite Elow, E2, E3, Ev. cbn [andb]. apply (IH r3); [cbn in Hlen; lia | | exact Hr'].
    cbn [Uri.isAscii] in Hr1. repeat (apply andb_true_iff in Hr1; destruct Hr1 as [_ Hr1]).
    exact Hr1. }
  destruct (Uri.within 240 247 b1) eqn:E4; [|discriminate].
  destruct r1 as [|p1 [|x1 [|x2 [|p2 [|y1 [|y2 [|p3 [|z1 [|z2 r4]]]]]]]]];
    try discriminate Hdec.
  destruct (Uri.octet x1 x2) as [b2|] eqn:Eb2; [|discriminate].
  destruct (Uri.octet y1 y2) as [b3|] eqn:Eb3; [|discriminate].
  destruct (Uri.octet z1 z2) as [b4|] eqn:Eb4; [|discriminate].
  destruct (Ascii.eqb p1 "%" && Ascii.eqb p2 "%" && Ascii.eqb p3 "%"
            && Uri.valid4 b1 b2 b3 b4) eqn:Ev; [|discriminate].
  apply andb_true_iff in Ev. destruct Ev as [_ Ev].
  apply fmap_Some_inv in Hdec. destruct Hdec as (r' & Hr' & ->).
  cbn [Uri.wellFormed]. rewrite !nat_byte by eauto using octet_lt.
  rewrite Elow, E2, E3, E4, Ev. cbn [andb]. apply (IH r4); [cbn in Hlen; lia | | exact Hr'].
  cbn [Uri.isAscii] in Hr1. repeat (apply andb_true_iff in Hr1; destruct Hr1 as [_ Hr1]).
  exact Hr1.
Qed.

End AsciiText.

Section ObjectInvariants.

Lemma update_keys_new (k v : string) (o : Obj.t) :
  ((Obj.update k v o).*1 = o.*1)
  \/ ((k ∉ o.*1) /\ ((Obj.update k v o).*1 = (o.*1 ++ [k])%list)).
Proof.
  induction o as [|[k' v'] o IH]; [right; split; [apply not_elem_of_nil | reflexivity]|].
  cbn [Obj.update]. destruct (String.eqb_spec k' k) as [->|Hne]; [now left|].
  rewrite !fmap_cons. cbn [fst]. destruct IH as [-> | [Hk ->]]; [now left|].
  right. split; [|reflexivity]. apply not_elem_of_cons. split; [congruence | exact Hk].
Qed.

Lemma set_names (k v : string) (o : Obj.t) : objNames o -> objNames (Obj.set k v o).
Proof.
  intros [Hnd Hp]. unfold Obj.set.
  destruct (String.eqb_spec k "__proto__") as [->|Hk]; [now split|].
  destruct (update_keys_new k v o) as [E | [Hfresh E]]; unfold objNames; rewrite E.
  - now split.
  - split.
    + apply NoDup_app. split; [exact Hnd|]. split; [|apply NoDup_singleton].
      intros x Hx Hx'. apply list_elem_of_singleton in Hx'. now subst.
    + apply not_elem_of_app. split; [exact Hp|].
      intros H. apply list_elem_of_singleton in H. congruence.
Qed.

Lemma update_text (k v : string) (o : Obj.t) :
  Uri.wellFormed k = true -> Uri.wellFormed v = true ->
  objText o -> objText (Obj.update k v o).
Proof.
  intros Hk Hv. induction 1 as [|[k' v'] o Hkv Ho IH]; cbn [Obj.update].
  - now repeat constructor.
  - destruct (String.eqb k' k); constructor; auto.
Qed.

Lemma set_text (k v : string) (o : Obj.t) :
  Uri.wellFormed k = true -> Uri.wellFormed v = true ->
  objText o -> objText (Obj.set k v o).
Proof.
  intros Hk Hv Ho. unfold Obj.set.
  destruct (String.eqb k "__proto__"); [exact Ho | now apply update_text].
Qed.

Lemma assignAll_names (params o : Obj.t) : objNames o -> objNames (assignAll params o).
Proof.
  revert o. induction params as [|kv ps IH]; intros o Ho; [exact Ho|].
  unfold assignAll. cbn [fold_left]. apply IH. now apply set_names.
Qed.

Lemma assignAll_text (params o : Obj.t) :
  objText params -> objText o -> objText (assignAll params o).
Proof.
  intros Hps. revert o. induction Hps as [|kv ps [Hk Hv] _ IH]; intros o Ho;
    [exact Ho|].
  unfold assignAll. cbn [fold_left]. apply IH. now apply set_text.
Qed.

Lemma mapM_decode_ascii (l rs : list string) :
  Forall (fun x => Uri.isAscii x = true) l ->
  mapM Uri.decodeURIComponent l = Some rs ->
  Forall (fun r => Uri.wellFormed r = true) rs.
Proof.
  intros Hl. revert rs. induction Hl as [|x l Hx Hl IH]; intros rs H.
  - cbn in H. injection H as <-. constructor.
  - cbn [mapM] in H.
    destruct (Uri.decodeURIComponent x) as [r|] eqn:Er; [|discriminate].
    destruct (mapM Uri.decodeURIComponent l) as [rs'|]; [|discriminate].
    cbn in H. injection H as <-. constructor; [|now apply IH].
    apply (decode_ascii (String.length x) x r); auto.
Qed.

Lemma parsePair_invariants (p : string) (o o' : Obj.t) :
  Uri.isAscii p = true ->
  parsePair p o = Some o' ->
  objNames o -> objText o -> objNames o' /\ objText o'.
Proof.
  intros Hp Hparse Hn Ht. unfold parsePair in Hparse.
  destruct (Js.truthy p); [|injection Hparse as <-; now split].
  destruct (mapM Uri.decodeURIComponent (Js.split "=" p)) as [decoded|] eqn:Ed;
    [|discriminate].
  cbn in Hparse. destruct decoded as [|key rest]; [discriminate|].
  injection Hparse as <-.
  pose proof (mapM_decode_ascii _ _ (isAscii_split "=" p Hp) Ed) as Hwf.
  apply Forall_cons in Hwf. destruct Hwf as [Hkey Hrest].
  split; [now apply set_names|]. apply set_text; [exact Hkey | | exact Ht].
  destruct rest as [|value rest]; [reflexivity|].
  now apply Forall_cons in Hrest.
Qed.

Lemma parsePairs_invariants (pairs : list string) :
  Forall (fun x => Uri.isAscii x = true) pairs ->
  forall o o', parsePairs pairs o = Some o' ->
               objNames o -> objText o -> objNames o' /\ objText o'.
Proof.
  induction 1 as [|p pairs Hp _ IH]; intros o o' Hparse Hn Ht.
  - cbn in Hparse. injection Hparse as <-. now split.
  - cbn [parsePairs] in Hparse.
    destruct (parsePair p o) as [o1|] eqn:E1; [|discriminate].
    cbn in Hparse. destruct (parsePair_invariants p o o1 Hp E1 Hn Ht) as [Hn1 Ht1].
    exact (IH o1 o' Hparse Hn1 Ht1).
Qed.

Lemma update_same (k v : string) (o : Obj.t) :
  NoDup o.*1 -> (k, v) ∈ o -> Obj.update k v o = o.
Proof.
  induction o as [|[k' v'] o IH]; intros Hnd Hin; [now apply elem_of_nil in Hin|].
  rewrite fmap_cons in Hnd. apply NoDup_cons in Hnd. destruct Hnd as [Hk Hnd].
  cbn [Obj.update]. apply elem_of_cons in Hin.
  destruct (String.eqb_spec k' k) as [->|Hne].
  - destruct Hin as [[= <-] | Hin]; [reflexivity|].
    exfalso. apply Hk. cbn. apply list_elem_of_fmap. now exists (k, v).
  - destruct Hin as [[= <- <-] | Hin]; [exfalso; now apply Hne|]. now rewrite IH.
Qed.

(** Assigning again what the object already holds changes nothing. *)
Lemma assignAll_noop (params o : Obj.t) :
  NoDup o.*1 ->
  (forall k v, (k, v) ∈ params -> k <> "__proto__" -> (k, v) ∈ o) ->
  assignAll params o = o.
Proof.
  intros Hnd. induction params as [|[k v] ps IH]; intros Hall; [reflexivity|].
  unfold assignAll. cbn [fold_left]. unfold Obj.set at 2. cbn [fst snd].
  destruct (String.eqb_spec k "__proto__") as [->|Hk].
  - apply IH. intros k' v' Hin. apply Hall. now right.
  - rewrite update_same; [|exact Hnd | apply Hall; [now left | exact Hk]].
    apply IH. intros k' v' Hin. apply Hall. now right.
Qed.

Lemma assignAll_from_empty (o : Obj.t) : objNames o -> assignAll o [] = o.
Proof.
  intros [Hnd Hp]. unfold assignAll. rewrite setAll_fresh.
  - cbn [app]. clear Hnd. induction o as [|[k v] o IH]; [reflexivity|].
    rewrite fmap_cons in Hp. apply not_elem_of_cons in Hp. destruct Hp as [Hk Hp].
    rewrite filter_cons, decide_True by (cbn; intros E; apply Hk; now rewrite E).
    now rewrite IH.
  - exact Hnd.
  - intros k _. apply not_elem_of_nil.
Qed.

End ObjectInvariants.

Section ArrayIndex.

Local Open Scope N_scope.

Lemma isDigit_digitOf (c : ascii) :
  Obj.isDigit c = true ->
  digitOf c <= 9 /\ nat_of_ascii c = (48 + N.to_nat (digitOf c))%nat.
Proof.
  unfold Obj.isDigit, digitOf. intros H. apply andb_true_iff in H.
  destruct H as [Hlo Hhi]. apply Nat.leb_le in Hlo, Hhi. lia.
Qed.

Lemma digitOf_inj (c1 c2 : ascii) :
  Obj.isDigit c1 = true -> Obj.isDigit c2 = true ->
  digitOf c1 = digitOf c2 -> c1 = c2.
Proof.
  intros H1 H2 E. apply isDigit_digitOf in H1, H2.
  destruct H1 as [_ H1], H2 as [_ H2].
  rewrite <- (ascii_nat_embedding c1), <- (ascii_nat_embedding c2).
  f_equal. lia.
Qed.

Lemma width_cons (c : ascii) (s : string) : width (String c s) = N.succ (width s).
Proof. unfold width. cbn [String.length]. lia. Qed.

(** The value read with a start value is the start value shifted by the
    number of digits, plus the value read from zero. *)
Lemma decimal_shift (s : string) :
  forall acc n,
    Obj.decimal s acc = Some n ->
    exists v, Obj.decimal s 0 = Some v /\ n = acc * 10 ^ width s + v
              /\ v < 10 ^ width s.
Proof.
  induction s as [|c s IH]; intros acc n H.
  - cbn [Obj.decimal] in *. injection H as <-. exists 0.
    unfold width. cbn [String.length]. change (N.of_nat 0) with 0.
    rewrite N.pow_0_r. repeat split; lia.
  - cbn [Obj.decimal] in *. destruct (Obj.isDigit c) eqn:Hd; [|discriminate].
    fold (digitOf c) in *. destruct (isDigit_digitOf c Hd) as [Hd9 _].
    destruct (IH _ _ H) as (v & Hv & -> & Hlt).
    change (10 * 0 + digitOf c) with (digitOf c).
    destruct (Obj.decimal s (digitOf c)) as [m|] eqn:Em.
    + destruct (IH _ _ Em) as (v' & Hv' & -> & _).
      assert (v' = v) as -> by congruence.
      exists (digitOf c * 10 ^ width s + v). rewrite width_cons, N.pow_succ_r'.
      repeat split; nia.
    + exfalso. clear H. revert Em Hv. generalize (digitOf c). generalize 0.
      clear. induction s as [|c s IH]; intros a b; cbn [Obj.decimal];
        [discriminate|].
      destruct (Obj.isDigit c); [apply IH | discriminate].
Qed.

Lemma decimal_cons (c : ascii) (s : string) (n : N) :
  Obj.decimal (String c s) 0 = Some n ->
  Obj.isDigit c = true
  /\ exists v, Obj.decimal s 0 = Some v /\ n = digitOf c * 10 ^ width s + v
               /\ v < 10 ^ width s.
Proof.
  cbn [Obj.decimal]. destruct (Obj.isDigit c) eqn:Hd; [|discriminate].
  fold (digitOf c). change (10 * 0 + digitOf c) with (digitOf c).
  intros H. split; [reflexivity|]. exact (decimal_shift s _ _ H).
Qed.

Lemma digit_split (P d1 v1 d2 v2 : N) :
  v1 < P -> v2 < P -> d1 * P + v1 = d2 * P + v2 -> d1 = d2 /\ v1 = v2.
Proof.
  intros H1 H2 E.
  destruct (N.lt_trichotomy d1 d2) as [Hlt | [-> | Hgt]].
  - exfalso. assert ((d1 + 1) * P <= d2 * P) by (apply N.mul_le_mono_r; lia). lia.
  - split; [reflexivity | lia].
  - exfalso. assert ((d2 + 1) * P <= d1 * P) by (apply N.mul_le_mono_r; lia). lia.
Qed.

Lemma decimal_same_length (s1 : string) :
  forall s2 v, String.length s1 = String.length s2 ->
               Obj.decimal s1 0 = Some v -> Obj.decimal s2 0 = Some v -> s1 = s2.
Proof.
  induction s1 as [|c1 s1 IH]; intros [|c2 s2] v Hlen H1 H2;
    try discriminate Hlen; [reflexivity|].
  injection Hlen as Hlen.
  apply decimal_cons in H1, H2.
  destruct H1 as (Hd1 & v1 & Hv1 & E1 & Hlt1), H2 as (Hd2 & v2 & Hv2 & E2 & Hlt2).
  assert (width s1 = width s2) as Hsize by (unfold width; now rewrite Hlen).
  rewrite Hsize in *.
  assert (digitOf c1 = digitOf c2 /\ v1 = v2) as [Ed Ev].
  { apply (digit_split (10 ^ width s2)); [assumption..|]. now rewrite <- E1, <- E2. }
  f_equal; [now apply digitOf_inj|]. apply (IH s2 v1 Hlen Hv1). now rewrite Ev.
Qed.

(** A numeral that starts with a digit other than zero lies between two
    successive powers of ten. *)
Lemma decimal_bounds (c : ascii) (s : string) (n : N) :
  Obj.decimal (String c s) 0 = Some n -> c <> "0"%char ->
  10 ^ width s <= n < 10 ^ width (String c s).
Proof.
  intros H Hc. apply decimal_cons in H. destruct H as (Hd & v & _ & -> & Hlt).
  destruct (isDigit_digitOf c Hd) as [Hd9 Hnat].
  assert (1 <= digitOf c).
  { destruct (N.eq_dec (digitOf c) 0) as [E|]; [|lia]. exfalso. apply Hc.
    rewrite <- (ascii_nat_embedding c), Hnat, E. reflexivity. }
  rewrite width_cons, N.pow_succ_r'. nia.
Qed.

Lemma arrayIndex_cases (k : string) (n : N) :
  Obj.arrayIndex k = Some n ->
  (k = "0"%string /\ n = 0)
  \/ exists c s, k = String c s /\ c <> "0"%char /\ Obj.decimal k 0 = Some n.
Proof.
  unfold Obj.arrayIndex. destruct k as [|c s]; [discriminate|].
  destruct (Ascii.eqb_spec c "0") as [->|Hc].
  - destruct s; [|discriminate]. intros [= <-]. now left.
  - intros H. right. exists c, s. split; [reflexivity|]. split; [exact Hc|].
    assert (match Obj.decimal (String c s) 0 with
            | Some n => if n <? 4294967295 then Some n else None
            | None => None
            end = Some n) as H'.
    { destruct c as [[] [] [] [] [] [] [] []]; try exact H; now contradiction Hc. }
    destruct (Obj.decimal (String c s) 0) as [m|]; [|discriminate].
    destruct (m <? 4294967295); [congruence | discriminate].
Qed.

(** Two names that are the same array index are the same name. *)
Lemma arrayIndex_inj (k1 k2 : string) (n : N) :
  Obj.arrayIndex k1 = Some n -> Obj.arrayIndex k2 = Some n -> k1 = k2.
Proof.
  intros H1 H2. apply arrayIndex_cases in H1, H2.
  destruct H1 as [[-> ->] | (c1 & s1 & -> & Hc1 & Hd1)],
           H2 as [[-> E2] | (c2 & s2 & -> & Hc2 & Hd2)]; try reflexivity.
  - pose proof (decimal_bounds _ _ _ Hd2 Hc2) as [Hlo _].
    assert (10 ^ width s2 <> 0) by (apply N.pow_nonzero; lia). lia.
  - subst n. pose proof (decimal_bounds _ _ _ Hd1 Hc1) as [Hlo _].
    assert (10 ^ width s1 <> 0) by (apply N.pow_nonzero; lia). lia.
  - pose proof (decimal_bounds _ _ _ Hd1 Hc1) as [Hlo1 Hhi1].
    pose proof (decimal_bounds _ _ _ Hd2 Hc2) as [Hlo2 Hhi2].
    apply (decimal_same_length _ _ n); [|assumption..].
    cbn [String.length]. f_equal.
    destruct (Nat.lt_trichotomy (String.length s1) (String.length s2))
      as [Hlt | [E | Hgt]]; [exfalso | exact E | exfalso].
    + assert (10 ^ width (String c1 s1) <= 10 ^ width s2).
      { apply N.pow_le_mono_r; [lia|]. rewrite width_cons. unfold width. lia. }
      lia.
    + assert (10 ^ width (String c2 s2) <= 10 ^ width s1).
      { apply N.pow_le_mono_r; [lia|]. rewrite width_cons. unfold width. lia. }
      lia.
Qed.

End ArrayIndex.

(** *** Enumerating twice *)

#[local] Instance indexLe_total : Total Obj.indexLe.
Proof. intros a b. unfold Obj.indexLe. lia. Qed.

#[local] Instance indexLe_trans : Transitive Obj.indexLe.
Proof. intros a b c. unfold Obj.indexLe. lia. Qed.

Lemma indexed_elem (o : Obj.t) (x : N * (string * string)) :
  x ∈ Obj.indexed o <-> x.2 ∈ o /\ Obj.arrayIndex x.2.1 = Some x.1.
Proof.
  unfold Obj.indexed. rewrite list_elem_of_omap. split.
  - intros (kv & Hin & E). destruct (Obj.arrayIndex kv.1) as [n|] eqn:En;
      [|discriminate]. cbn in E. injection E as <-. cbn. now split.
  - intros [Hin E]. exists x.2. split; [exact Hin|]. rewrite E. cbn.
    now destruct x.
Qed.

Lemma named_elem (o : Obj.t) (kv : string * string) :
  kv ∈ Obj.named o <-> kv ∈ o /\ Obj.arrayIndex kv.1 = None.
Proof.
  unfold Obj.named. rewrite !list_elem_of_In, filter_In, <- list_elem_of_In.
  split; intros [Hin E]; (split; [exact Hin|]).
  - apply negb_true_iff, bool_decide_eq_false in E.
    destruct (Obj.arrayIndex kv.1); [|reflexivity]. exfalso. apply E. eauto.
  - rewrite E. reflexivity.
Qed.

Lemma indexed_of_indexed (l : list (N * (string * string))) :
  Forall (fun x => Obj.arrayIndex x.2.1 = Some x.1) l -> Obj.indexed l.*2 = l.
Proof.
  unfold Obj.indexed. induction 1 as [|[n kv] l E _ IH]; [reflexivity|].
  cbn in E. cbn [fmap list_fmap omap list_omap snd]. rewrite E. cbn.
  f_equal. exact IH.
Qed.

Lemma named_of_indexed (l : Obj.t) :
  Forall (fun kv => is_Some (Obj.arrayIndex kv.1)) l -> Obj.named l = [].
Proof.
  unfold Obj.named. induction 1 as [|kv l E _ IH]; [reflexivity|].
  cbn [List.filter]. rewrite (bool_decide_eq_true_2 _ E). exact IH.
Qed.

Lemma indexed_of_named (l : Obj.t) :
  Forall (fun kv => Obj.arrayIndex kv.1 = None) l -> Obj.indexed l = [].
Proof.
  unfold Obj.indexed. induction 1 as [|kv l E _ IH]; [reflexivity|].
  cbn [omap list_omap]. rewrite E. exact IH.
Qed.

Lemma named_of_named (l : Obj.t) :
  Forall (fun kv => Obj.arrayIndex kv.1 = None) l -> Obj.named l = l.
Proof.
  unfold Obj.named. induction 1 as [|kv l E _ IH]; [reflexivity|].
  cbn [List.filter]. rewrite E. cbn. f_equal. exact IH.
Qed.

(** In an object, a name has one value. *)
Lemma value_unique (o : Obj.t) (k v1 v2 : string) :
  NoDup o.*1 -> (k, v1) ∈ o -> (k, v2) ∈ o -> v1 = v2.
Proof.
  induction o as [|[k' v'] o IH]; intros Hnd H1 H2.
  - inversion H1.
  - cbn in Hnd. apply NoDup_cons in Hnd. destruct Hnd as [Hk Hnd].
    apply elem_of_cons in H1, H2.
    destruct H1 as [E1 | H1], H2 as [E2 | H2].
    + congruence.
    + exfalso. apply Hk. apply (list_elem_of_fmap_2 fst) in H2.
      injection E1 as -> _. exact H2.
    + exfalso. apply Hk. apply (list_elem_of_fmap_2 fst) in H1.
      injection E2 as -> _. exact H1.
    + now apply IH.
Qed.

(** Sorting the array indices of an object that are already in order
    changes nothing. *)
Lemma sort_sorted (o : Obj.t) :
  NoDup o.*1 ->
  let sorted := merge_sort Obj.indexLe (Obj.indexed o) in
  merge_sort Obj.indexLe sorted = sorted.
Proof.
  intros Hnd sorted.
  apply (Sorted_unique_strong Obj.indexLe).
  - intros [n1 [k1 v1]] [n2 [k2 v2]] H1 H2 Hle Hge.
    unfold Obj.indexLe in Hle, Hge. cbn in Hle, Hge.
    assert (n1 = n2) as -> by lia.
    rewrite merge_sort_Permutation in H1. subst sorted.
    rewrite merge_sort_Permutation in H1, H2.
    apply indexed_elem in H1, H2. cbn in H1, H2.
    destruct H1 as [H1 E1], H2 as [H2 E2].
    assert (k1 = k2) as -> by exact (arrayIndex_inj _ _ _ E1 E2).
    now rewrite (value_unique o k2 v1 v2 Hnd H1 H2).
  - apply Sorted_merge_sort; apply _.
  - apply Sorted_merge_sort; apply _.
  - apply merge_sort_Permutation.
Qed.

(** Enumerating the enumeration of an object gives the same order. *)
Lemma entries_idem (o : Obj.t) :
  NoDup o.*1 -> Obj.entries (Obj.entries o) = Obj.entries o.
Proof.
  intros Hnd. unfold Obj.entries at 1.
  set (sorted := merge_sort Obj.indexLe (Obj.indexed o)).
  assert (Forall (fun x => Obj.arrayIndex x.2.1 = Some x.1) sorted) as Hs.
  { apply Forall_forall. intros x Hx. subst sorted.
    rewrite merge_sort_Permutation in Hx. now apply indexed_elem in Hx. }
  assert (Forall (fun kv => Obj.arrayIndex kv.1 = None) (Obj.named o)) as Hn.
  { apply Forall_forall. intros kv Hkv. now apply named_elem in Hkv. }
  assert (Forall (fun kv => is_Some (Obj.arrayIndex kv.1)) sorted.*2) as Hs2.
  { apply Forall_fmap. eapply Forall_impl; [exact Hs|]. intros x E. cbn.
    rewrite E. eauto. }
  assert (Obj.indexed (Obj.entries o) = sorted) as ->.
  { unfold Obj.entries. fold sorted. unfold Obj.indexed. rewrite omap_app.
    fold (Obj.indexed sorted.*2). fold (Obj.indexed (Obj.named o)).
    rewrite (indexed_of_indexed _ Hs), (indexed_of_named _ Hn).
    apply app_nil_r. }
  assert (Obj.named (Obj.entries o) = Obj.named o) as ->.
  { unfold Obj.entries. fold sorted. unfold Obj.named at 1.
    rewrite List.filter_app. fold (Obj.named sorted.*2).
    fold (Obj.named (Obj.named o)).
    now rewrite (named_of_indexed _ Hs2), (named_of_named _ Hn). }
  subst sorted. rewrite (sort_sorted o Hnd). reflexivity.
Qed.

(** *** Updating twice *)

Lemma truthy_length (s : string) :
  (0 < String.length s)%nat -> Js.truthy s = true.
Proof. destruct s; [cbn; lia | reflexivity]. Qed.

Lemma join_nonempty (sep x : string) (l : list string) :
  (0 < String.length x)%nat -> (0 < String.length (Js.join sep (x :: l)))%nat.
Proof.
  intros Hx. destruct l as [|y l].
  - exact Hx.
  - rewrite join_cons, length_append. lia.
Qed.

Lemma set_nil_inv (k v : string) (o : Obj.t) : Obj.set k v o = [] -> o = [].
Proof.
  unfold Obj.set. destruct (String.eqb k "__proto__"); [easy|].
  destruct o as [|[k' v'] o]; [easy|]. cbn [Obj.update].
  destruct (String.eqb k' k); discriminate.
Qed.

Lemma assignAll_nil_inv (params : Obj.t) :
  forall o, assignAll params o = [] -> o = [].
Proof.
  unfold assignAll. induction params as [|[k v] params IH]; intros o H.
  - exact H.
  - cbn [fold_left] in H. apply IH in H. exact (set_nil_inv _ _ _ H).
Qed.

Lemma objNames_perm (o1 o2 : Obj.t) : o1 ≡ₚ o2 -> objNames o1 -> objNames o2.
Proof.
  intros Hp [Hnd Hproto]. unfold objNames. now rewrite <- Hp.
Qed.

Lemma objText_perm (o1 o2 : Obj.t) : o1 ≡ₚ o2 -> objText o1 -> objText o2.
Proof. intros Hp H. unfold objText in *. now rewrite <- Hp. Qed.

Lemma renderQuery_entries (o : Obj.t) :
  NoDup o.*1 -> renderQuery (Obj.entries o) = renderQuery o.
Proof. intros Hnd. unfold renderQuery. now rewrite (entries_idem o Hnd). Qed.

(** What [updateQueryString] parses from the query of a URL in ASCII. *)
Lemma parsed_invariants (url : string) (o0 : Obj.t) :
  Uri.isAscii url = true ->
  (if Js.truthy (urlQuery url)
   then parsePairs (Js.split "&" (urlQuery url)) []
   else Some []) = Some o0 ->
  objNames o0 /\ objText o0.
Proof.
  intros Hascii H.
  assert (objNames [] /\ objText []) as [Hn0 Ht0].
  { split; [split; [constructor | apply not_elem_of_nil] | constructor]. }
  destruct (Js.truthy (urlQuery url)).
  - apply (parsePairs_invariants (Js.split "&" (urlQuery url))
             (isAscii_split _ _ (isAscii_urlQuery url Hascii)) [] o0 H Hn0 Ht0).
  - injection H as <-. now split.
Qed.

(** Updating the result with the same parameters gives the result again. *)
Lemma update_again (url : string) (params o0 : Obj.t) :
  objNames o0 -> objText o0 -> objText params -> NoDup params.*1 ->
  let result := urlBase url +:+ renderQuery (assignAll params o0)
                +:+ urlHash url in
  updateQueryString result params = Some result.
Proof.
  intros Hn0 Ht0 Htp Hndp result.
  set (o := assignAll params o0) in *.
  assert (objNames o) as Hn by now apply assignAll_names.
  assert (objText o) as Ht by now apply assignAll_text.
  rewrite updateQueryString_eq.
  destruct (renderQuery_cases o) as [[He Hr] | [He Hr]].
  - assert (o = []) as Ho.
    { apply Permutation_nil_r. rewrite <- He. symmetry. apply entries_perm. }
    assert (o0 = []) as -> by exact (assignAll_nil_inv params o0 Ho).
    destruct (parts_of_result (urlBase url) (urlHash url) None)
      as (Hb & Hq & Hh);
      [apply urlBase_no_hash | apply urlBase_no_query | apply urlHash_cases
      | exact I |].
    cbn [default] in Hq. cbn zeta in Hb, Hq, Hh.
    assert (result = urlBase url +:+ "" +:+ urlHash url) as Hres.
    { subst result. now rewrite Hr. }
    rewrite <- Hres in Hb, Hq, Hh. rewrite Hb, Hq, Hh.
    change (Js.truthy "") with false. cbn [mbind option_bind].
    reflexivity.
  - destruct (result_pieces url params o0 He) as (Hb & Hh & Hq & Hs).
    fold o in Hb, Hh, Hq, Hs. fold result in Hb, Hh, Hq, Hs.
    rewrite Hb, Hh, Hs.
    assert (Js.truthy (urlQuery result) = true) as ->.
    { rewrite Hq. apply truthy_length.
      destruct (Obj.entries o) as [|kv l]; [congruence|].
      cbn [List.map]. apply join_nonempty, encodePair_nonempty. }
    assert (objNames (Obj.entries o)) as Hne
        by exact (objNames_perm _ _ (symmetry (entries_perm o)) Hn).
    assert (objText (Obj.entries o)) as Hte
        by exact (objText_perm _ _ (symmetry (entries_perm o)) Ht).
    rewrite (parsePairs_encoded (Obj.entries o) Hte []).
    cbn [mbind option_bind]. fold (assignAll (Obj.entries o) []).
    rewrite (assignAll_from_empty _ Hne).
    rewrite (assignAll_noop params (Obj.entries o)).
    + now rewrite (renderQuery_entries o (proj1 Hn)).
    + exact (proj1 Hne).
    + intros k v Hin Hk. rewrite entries_perm. now apply assignAll_sets.
Qed.

(** X14.  Updating a URL twice with the same parameters is the same as updating
    it once: the second call finds the URL as the first one wrote it. *)
Theorem updateQueryString_idempotent (url : string) (params : Obj.t)
    (result : string) :
  Uri.isAscii url = true -> objText params -> NoDup params.*1 ->
  updateQueryString url params = Some result ->
  updateQueryString result params = Some result.
Proof.
  intros Hascii Htp Hndp H. rewrite updateQueryString_eq in H.
  destruct (if Js.truthy (urlQuery url)
            then parsePairs (Js.split "&" (urlQuery url)) []
            else Some []) as [o0|] eqn:Ho0; [|discriminate].
  cbn [mbind option_bind] in H. injection H as <-.
  destruct (parsed_invariants url o0 Hascii Ho0) as [Hn0 Ht0].
  exact (update_again url params o0 Hn0 Ht0 Htp Hndp).
Qed.

Lemma updateQueryString_idempotent_witness :
  updateQueryString "https://example.com/v?t=30&id=7&lang=zh%20CN#c"
                    [("t", "30"); ("lang", "zh CN")]
  = Some "https://example.com/v?t=30&id=7&lang=zh%20CN#c".
Proof.
  apply (updateQueryString_idempotent "https://example.com/v?t=10&id=7#c").
  - reflexivity.
  - repeat constructor.
  - apply (bool_decide_unpack _). vm_compute. exact I.
  - vm_compute. reflexivity.
Defined.

(** ** The prefix [/api/v2] in request paths *)

Section ApiPrefix.

Lemma split_app (sep : ascii) (a b : string) :
  Js.split sep (a +:+ String sep b) = (Js.split sep a ++ Js.split sep b)%list.
Proof.
  induction a as [|c a IH].
  - change ("" +:+ String sep b) with (String sep b). cbn [Js.split].
    now rewrite Ascii.eqb_refl.
  - change (String c a +:+ String sep b) with (String c (a +:+ String sep b)).
    cbn [Js.split]. rewrite IH. destruct (Ascii.eqb c sep); [reflexivity|].
    pose proof (split_nonempty sep a) as Hne.
    destruct (Js.split sep a) as [|x xs]; [congruence | reflexivity].
Qed.

Lemma segments_app (a b : string) :
  Path.segments (a +:+ String "/" b)
  = (Path.segments a ++ Path.segments b)%list.
Proof.
  unfold Path.segments, Js.filterBoolean. rewrite split_app.
  apply List.filter_app.
Qed.

Lemma segments_slash (b : string) :
  Path.segments (String "/" b) = Path.segments b.
Proof. exact (segments_app "" b). Qed.

(** A token that can pass the gate is one segment. *)
Lemma segments_token (tok : string) :
  tok <> "" -> Str.find "/" tok = None -> Path.segments (String "/" tok) = [tok].
Proof.
  intros Hne Hno. rewrite segments_slash. unfold Path.segments.
  rewrite (split_without "/" tok Hno). cbn. unfold Js.truthy.
  apply String.eqb_neq in Hne. now rewrite Hne.
Qed.

Lemma authenticate_token (tok rest : string) :
  tok <> "" -> Str.find "/" tok = None ->
  Path.authenticate tok ("/" +:+ tok +:+ "/" +:+ rest)
  = Some (pathOfSegments rest).
Proof.
  intros Hne Hno. unfold Path.authenticate, pathOfSegments.
  change ("/" +:+ tok +:+ "/" +:+ rest) with (String "/" (tok +:+ String "/" rest)).
  change (String "/" (tok +:+ String "/" rest))
    with (String "/" tok +:+ String "/" rest).
  rewrite segments_app, (segments_token tok Hne Hno).
  cbn [app]. now rewrite String.eqb_refl.
Qed.

Lemma apiPrefixes_slash (n : nat) (rest : string) :
  exists r, apiPrefixes n +:+ "/" +:+ rest = String "/" r.
Proof.
  destruct n as [|n]; [now exists rest|].
  cbn [apiPrefixes]. rewrite append_assoc. now eexists.
Qed.

Lemma segments_prefixed (y : string) :
  Path.segments ("/api/v2" +:+ String "/" y) = "api" :: "v2" :: Path.segments y.
Proof. now rewrite segments_app. Qed.

Lemma join_prefixed (l : list string) :
  l <> [] ->
  "/" +:+ Js.join "/" ("api" :: "v2" :: l) = "/api/v2" +:+ ("/" +:+ Js.join "/" l).
Proof. destruct l as [|x l]; [congruence | reflexivity]. Qed.

(** The working path of a request with [n] prefixes before the rest. *)
Lemma pathOfSegments_prefixes (n : nat) (rest : string) :
  Path.segments rest <> [] ->
  Path.segments (apiPrefixes n +:+ "/" +:+ rest) <> []
  /\ pathOfSegments (apiPrefixes n +:+ "/" +:+ rest)
     = apiPrefixes n +:+ pathOfSegments rest.
Proof.
  intros Hrest. unfold pathOfSegments. induction n as [|n [IHne IH]].
  - change (apiPrefixes 0 +:+ "/" +:+ rest) with (String "/" rest).
    rewrite segments_slash. now split.
  - cbn [apiPrefixes]. rewrite !append_assoc.
    destruct (apiPrefixes_slash n rest) as [r Hr].
    rewrite Hr in IHne, IH |- *.
    rewrite segments_prefixed. rewrite segments_slash in IHne, IH.
    split; [discriminate|].
    rewrite (join_prefixed _ IHne), IH. reflexivity.
Qed.

Lemma pathOfSegments_slash (rest : string) :
  exists r, pathOfSegments rest = String "/" r.
Proof. unfold pathOfSegments. now eexists. Qed.

Lemma normalize_eq (p : string) :
  p <> "/" -> p <> "/api/logs" ->
  Path.normalize p = Path.complete (Path.collapse p).
Proof.
  intros H1 H2. unfold Path.normalize.
  apply String.eqb_neq in H1, H2. now rewrite H1, H2.
Qed.

(** Two prefixes or more before a path are cleaned down to one. *)
Lemma normalize_prefixes (n : nat) (r : string) :
  Path.normalize (apiPrefixes (S n) +:+ String "/" r)
  = Path.normalize ("/api/v2" +:+ String "/" r).
Proof.
  induction n as [|n IH]; [reflexivity|].
  rewrite <- IH.
  destruct (apiPrefixes_slash n r) as [y Hy].
  assert (apiPrefixes (S n) +:+ String "/" r = "/api/v2" +:+ String "/" y) as E1.
  { cbn [apiPrefixes]. rewrite append_assoc. f_equal. exact Hy. }
  assert (apiPrefixes (S (S n)) +:+ String "/" r
          = "/api/v2" +:+ "/api/v2" +:+ String "/" y) as E2.
  { change (apiPrefixes (S (S n))) with ("/api/v2" +:+ apiPrefixes (S n)).
    rewrite append_assoc, E1. reflexivity. }
  rewrite E1, E2.
  rewrite !normalize_eq by discriminate.
  rewrite (collapse_unfold ("/api/v2" +:+ "/api/v2" +:+ String "/" y)).
  change (Js.startsWith ("/api/v2" +:+ "/api/v2" +:+ String "/" y)
            "/api/v2/api/v2/") with (String.prefix "" y).
  rewrite prefix_nil.
  reflexivity.
Qed.

End ApiPrefix.

(** X15.  However often the prefix [/api/v2] is repeated after the token, the
    request is served as with the prefix written once. *)
Theorem repeated_api_prefix (tok rest : string) (n : nat) :
  tok <> "" -> Str.find "/" tok = None ->
  Path.segments rest <> [] ->
  Path.canonical tok ("/" +:+ tok +:+ apiPrefixes (S n) +:+ "/" +:+ rest)
  = Path.canonical tok ("/" +:+ tok +:+ "/api/v2" +:+ "/" +:+ rest)
  /\ Path.canonical tok ("/" +:+ tok +:+ "/api/v2" +:+ "/" +:+ rest)
     = Some (Path.normalize ("/api/v2" +:+ pathOfSegments rest)).
Proof.
  intros Hne Hno Hrest.
  assert (forall m,
             Path.canonical tok ("/" +:+ tok +:+ apiPrefixes (S m) +:+ "/" +:+ rest)
             = Some (Path.normalize (apiPrefixes (S m) +:+ pathOfSegments rest)))
    as Hcanon.
  { intros m. unfold Path.canonical.
    destruct (apiPrefixes_slash (S m) rest) as [r Hr].
    replace ("/" +:+ tok +:+ apiPrefixes (S m) +:+ "/" +:+ rest)
      with ("/" +:+ tok +:+ "/" +:+ r).
    2: { change ("/" +:+ tok +:+ "/" +:+ r) with (String "/" (tok +:+ String "/" r)).
         rewrite <- Hr. reflexivity. }
    rewrite (authenticate_token tok r Hne Hno). cbn [fmap option_fmap option_map].
    f_equal. f_equal.
    destruct (pathOfSegments_prefixes (S m) rest Hrest) as [_ E].
    rewrite Hr in E. unfold pathOfSegments in E |- *.
    rewrite segments_slash in E. exact E. }
  pose proof (Hcanon O) as Hone. change (apiPrefixes 1) with "/api/v2" in Hone.
  split; [|exact Hone].
  rewrite (Hcanon n), Hone.
  destruct (pathOfSegments_slash rest) as [r ->].
  f_equal. apply normalize_prefixes.
Qed.

Lemma repeated_api_prefix_witness :
  Path.canonical "secret" "/secret/api/v2/api/v2/api/v2/comment/10003"
  = Path.canonical "secret" "/secret/api/v2/comment/10003"
  /\ Path.canonical "secret" "/secret/api/v2/comment/10003"
     = Some (Path.normalize ("/api/v2" +:+ pathOfSegments "comment/10003")).
Proof.
  apply (repeated_api_prefix "secret" "comment/10003" 2);
    [discriminate | reflexivity | discriminate].
Defined.

(** X16.  The prefix [/api/v2] may be left out: a path after the token that is
    not the root and starts neither with [/api/v2] nor with [/api/logs]
    reaches the dispatch table as the same path with the prefix. *)
Theorem api_prefix_is_optional (tok rest : string) :
  tok <> "" -> Str.find "/" tok = None ->
  Path.segments rest <> [] ->
  Js.startsWith (pathOfSegments rest) "/api/v2" = false ->
  Js.startsWith (pathOfSegments rest) "/api/logs" = false ->
  Path.canonical tok ("/" +:+ tok +:+ "/" +:+ rest)
  = Path.canonical tok ("/" +:+ tok +:+ "/api/v2" +:+ "/" +:+ rest)
  /\ Path.canonical tok ("/" +:+ tok +:+ "/" +:+ rest)
     = Some ("/api/v2" +:+ pathOfSegments rest).
Proof.
  intros Hne Hno Hrest Hv2 Hlogs.
  assert (Path.normalize (pathOfSegments rest) = "/api/v2" +:+ pathOfSegments rest)
    as Hnorm.
  { assert (pathOfSegments rest <> "/") as H1.
    { unfold pathOfSegments. destruct (Path.segments rest) as [|x l] eqn:E;
        [congruence|].
      pose proof (segments_pieces rest) as Hall. rewrite E in Hall.
      apply Forall_cons in Hall. destruct Hall as [[Hx _] _].
      intros Hq. change (String "/" (Js.join "/" (x :: l)) = "/") in Hq.
      injection Hq as Hq. destruct l as [|y l].
      - apply Hx. exact Hq.
      - destruct x as [|c x]; [now apply Hx|].
        change (String c (x +:+ "/" +:+ Js.join "/" (y :: l)) = "") in Hq.
        discriminate Hq. }
    assert (pathOfSegments rest <> "/api/logs") as H2.
    { intros E. rewrite E in Hlogs. discriminate Hlogs. }
    rewrite (normalize_eq _ H1 H2).
    rewrite collapse_fixed.
    - unfold Path.complete. rewrite Hv2, Hlogs.
      apply String.eqb_neq in H1. now rewrite H1.
    - destruct (Js.startsWith (pathOfSegments rest) "/api/v2/api/v2/") eqn:E;
        [|reflexivity].
      apply (prefix_weaken "/api/v2" "/api/v2/") in E.
      unfold Js.startsWith in Hv2. congruence. }
  assert (Path.canonical tok ("/" +:+ tok +:+ "/" +:+ rest)
          = Some ("/api/v2" +:+ pathOfSegments rest)) as Hleft.
  { unfold Path.canonical. rewrite (authenticate_token tok rest Hne Hno).
    cbn [fmap option_fmap option_map]. now rewrite Hnorm. }
  split; [|exact Hleft]. rewrite Hleft.
  unfold Path.canonical.
  change ("/" +:+ tok +:+ "/api/v2" +:+ "/" +:+ rest)
    with (String "/" (tok +:+ String "/" ("api/v2" +:+ String "/" rest))).
  change (String "/" (tok +:+ String "/" ("api/v2" +:+ String "/" rest)))
    with ("/" +:+ tok +:+ "/" +:+ ("api/v2" +:+ String "/" rest)).
  rewrite (authenticate_token tok _ Hne Hno). cbn [fmap option_fmap option_map].
  f_equal. symmetry. unfold pathOfSegments at 1. rewrite segments_app.
  change (Path.segments "api/v2") with ["api"; "v2"]. cbn [app].
  rewrite (join_prefixed _ Hrest). fold (pathOfSegments rest).
  assert ("/api/v2" +:+ pathOfSegments rest <> "/") as H1 by discriminate.
  assert ("/api/v2" +:+ pathOfSegments rest <> "/api/logs") as H2 by discriminate.
  rewrite (normalize_eq _ H1 H2).
  rewrite (collapse_fixed _ (prefixed_not_dup _ Hv2)).
  apply complete_fixed. left. apply prefix_append.
Qed.

Lemma api_prefix_is_optional_witness :
  Path.canonical "secret" "/secret/search/anime"
  = Path.canonical "secret" "/secret/api/v2/search/anime"
  /\ Path.canonical "secret" "/secret/search/anime"
     = Some ("/api/v2" +:+ pathOfSegments "search/anime").
Proof.
  apply (api_prefix_is_optional "secret" "search/anime");
    [discriminate | reflexivity | discriminate | reflexivity | reflexivity].
Defined.

(** ** Methods, and the two ways out of the rate-limit block *)

(** X17.  A request that is not a [GET] is answered 204, 401 or 404 by the
    handler itself, or it is a [POST] to [/api/v2/match]; in every case
    the request history is left as it was. *)
Theorem other_methods_are_not_served (g : Globals) (w : Collaborators)
    (currentTime : Z) (req : Request) (clientIp : string) (h : History) :
  method req <> "GET" ->
  (exists r, handleRequest g w currentTime req clientIp h = (Respond r, h)
             /\ (r = noContent \/ r = unauthorized \/ r = notFound))
  \/ (handleRequest g w currentTime req clientIp h = (MatchAnime req req, h)
      /\ method req = "POST"
      /\ Path.canonical (token g) (pathname req) = Some "/api/v2/match").
Proof.
  intros Hm. unfold handleRequest, isGET.
  apply String.eqb_neq in Hm. rewrite Hm, andb_false_r.
  destruct (String.eqb (pathname req) "/favicon.ico"
            || String.eqb (pathname req) "/robots.txt");
    [left; eexists; split; [reflexivity | auto]|].
  unfold Path.canonical.
  destruct (Path.authenticate (token g) (pathname req)) as [p|];
    [|left; eexists; split; [reflexivity | auto]].
  unfold dispatch, isGET. rewrite Hm, !andb_false_r.
  destruct (String.eqb_spec (Path.normalize p) "/api/v2/match") as [E|_];
    [|left; eexists; split; [reflexivity | auto]].
  unfold isPOST. destruct (String.eqb_spec (method req) "POST") as [Hp|_];
    [|left; eexists; split; [reflexivity | auto]].
  right. cbn [andb fmap option_fmap option_map]. rewrite E. repeat split.
  exact Hp.
Qed.

Lemma other_methods_are_not_served_witness :
  (exists r, handleRequest (Sample.globals 2) Sample.world 61000
               {| pathname := "/secret/api/v2/comment/10003"; method := "DELETE";
                  searchParams := [] |} "10.0.0.1" Sample.busy
             = (Respond r, Sample.busy)
             /\ (r = noContent \/ r = unauthorized \/ r = notFound))
  \/ (handleRequest (Sample.globals 2) Sample.world 61000
        {| pathname := "/secret/api/v2/comment/10003"; method := "DELETE";
           searchParams := [] |} "10.0.0.1" Sample.busy
      = (MatchAnime
           {| pathname := "/secret/api/v2/comment/10003"; method := "DELETE";
              searchParams := [] |}
           {| pathname := "/secret/api/v2/comment/10003"; method := "DELETE";
              searchParams := [] |}, Sample.busy)
      /\ "DELETE" = "POST"
      /\ Path.canonical "secret" "/secret/api/v2/comment/10003"
         = Some "/api/v2/match").
Proof.
  apply (other_methods_are_not_served (Sample.globals 2) Sample.world 61000
           {| pathname := "/secret/api/v2/comment/10003"; method := "DELETE";
              searchParams := [] |} "10.0.0.1" Sample.busy).
  discriminate.
Defined.

(** X18.  The answer 429 has one origin: a comment request that missed the
    cache, under a capacity above zero, from a client with at least that
    many timestamps inside the window. *)
Theorem too_many_requests_only_when_full (g : Globals) (w : Collaborators)
    (currentTime : Z) (req : Request) (clientIp : string) (h h' : History)
    (r : Response) :
  handleRequest g w currentTime req clientIp h = (Respond r, h') ->
  status r = 429 ->
  0 < rateLimitMaxRequests g
  /\ rateLimitMaxRequests g
     <= Z.of_nat (length (filterRecent currentTime (historyOf h clientIp)))
  /\ (exists path, reachesComment g req path /\ CacheMiss w req path)
  /\ r = tooManyRequests
  /\ h' = swept currentTime clientIp h.
Proof.
  intros Hrun Hst.
  destruct (handleRequest_cases g w currentTime req clientIp h)
    as [(o & E & _ & Hno) | (path & Hreach & Hmiss)].
  { rewrite E in Hrun. injection Hrun as -> _. now destruct (Hno r eq_refl). }
  rewrite (handleRequest_comment _ _ _ _ _ _ Hreach) in Hrun.
  rewrite (handleComment_miss _ _ _ _ _ _ _ Hmiss) in Hrun.
  destruct (Z.le_gt_cases (rateLimitMaxRequests g) 0) as [Hoff | Hpos].
  { rewrite (rateLimit_disabled _ _ _ _ Hoff) in Hrun. cbn [fst snd] in Hrun.
    unfold fetch in Hrun. destruct (truthyOpt _); discriminate Hrun. }
  destruct (Z.le_gt_cases (rateLimitMaxRequests g)
              (Z.of_nat (length (filterRecent currentTime (historyOf h clientIp)))))
    as [Hfull | Hroom].
  - rewrite (rateLimit_rejects _ _ _ _ Hpos Hfull) in Hrun. cbn [fst snd] in Hrun.
    injection Hrun as <- <-. repeat split; try assumption; try lia.
    now exists path.
  - rewrite (rateLimit_admits _ _ _ _ Hpos Hroom) in Hrun. cbn [fst snd] in Hrun.
    unfold fetch in Hrun. destruct (truthyOpt _); discriminate Hrun.
Qed.

Lemma too_many_requests_only_when_full_witness :
  0 < 2
  /\ 2 <= Z.of_nat (length (filterRecent 61000 (historyOf Sample.busy "10.0.0.1")))
  /\ (exists path,
        reachesComment (Sample.globals 2)
          (Sample.get "/secret/api/v2/comment/10003" []) path
        /\ CacheMiss Sample.world
             (Sample.get "/secret/api/v2/comment/10003" []) path)
  /\ tooManyRequests = tooManyRequests
  /\ swept 61000 "10.0.0.1" Sample.busy = swept 61000 "10.0.0.1" Sample.busy.
Proof.
  apply (too_many_requests_only_when_full (Sample.globals 2) Sample.world 61000
           (Sample.get "/secret/api/v2/comment/10003" []) "10.0.0.1"
           Sample.busy (swept 61000 "10.0.0.1" Sample.busy) tooManyRequests).
  - vm_compute. reflexivity.
  - reflexivity.
Defined.

Lemma filterRecent_idle (currentTime : Z) (l : list Z) :
  Forall (fun timestamp => oneMinute < currentTime - timestamp) l ->
  filterRecent currentTime l = [].
Proof.
  unfold filterRecent. induction 1 as [|ts l Hts _ IH]; [reflexivity|].
  rewrite filter_cons, decide_False; [exact IH|]. unfold recent. lia.
Qed.

(** X19.  A client whose recorded requests are all more than a minute old is
    admitted, whatever the capacity above zero: the comment request goes
    on to the fetch, and the client's entry becomes the current time
    alone. *)
Theorem idle_client_is_admitted (g : Globals) (w : Collaborators)
    (currentTime : Z) (req : Request) (clientIp : string) (path : string)
    (h : History) :
  reachesComment g req path ->
  CacheMiss w req path ->
  0 < rateLimitMaxRequests g ->
  Forall (fun timestamp => oneMinute < currentTime - timestamp)
         (historyOf h clientIp) ->
  handleRequest g w currentTime req clientIp h
  = (fetch req path, <[clientIp := [currentTime]]> (swept currentTime clientIp h))
  /\ admitted (fetch req path) = true.
Proof.
  intros Hreach Hmiss Hpos Hidle.
  rewrite (handleRequest_comment _ _ _ _ _ _ Hreach).
  rewrite (handleComment_miss _ _ _ _ _ _ _ Hmiss).
  pose proof (filterRecent_idle _ _ Hidle) as Hnone.
  rewrite (rateLimit_admits g currentTime clientIp h Hpos)
    by (rewrite Hnone; cbn [length]; lia).
  rewrite Hnone. cbn [fst snd app]. split; [reflexivity|].
  unfold fetch. now destruct (truthyOpt _).
Qed.

Lemma idle_client_is_admitted_witness :
  handleRequest (Sample.globals 1) Sample.world 70000
    (Sample.get "/secret/api/v2/comment/10003" []) "10.0.0.1" Sample.busy
  = (fetch (Sample.get "/secret/api/v2/comment/10003" []) "/api/v2/comment/10003",
     <["10.0.0.1" := [70000]]> (swept 70000 "10.0.0.1" Sample.busy))
  /\ admitted (fetch (Sample.get "/secret/api/v2/comment/10003" [])
                     "/api/v2/comment/10003") = true.
Proof.
  apply (idle_client_is_admitted (Sample.globals 1) Sample.world 70000
           (Sample.get "/secret/api/v2/comment/10003" []) "10.0.0.1"
           "/api/v2/comment/10003" Sample.busy).
  - repeat split; try discriminate; reflexivity.
  - apply MissById; reflexivity.
  - reflexivity.
  - repeat constructor.
Defined.

(** ** The homepage *)

(** X20.  A [GET] of the root path, or of a path whose only segment is the
    token, is answered with the homepage, and the request history is left
    as it was: the homepage is public, and [/TOKEN], [/TOKEN/] and
    [//TOKEN] lead to it as well. *)
Theorem homepage_with_or_without_token (g : Globals) (w : Collaborators)
    (currentTime : Z) (req : Request) (clientIp : string) (h : History) :
  method req = "GET" ->
  pathname req <> "/favicon.ico" -> pathname req <> "/robots.txt" ->
  pathname req = "/" \/ Path.segments (pathname req) = [token g] ->
  handleRequest g w currentTime req clientIp h = (handleHomepage g, h).
Proof.
  intros Hm Hf Hr Hpath. unfold handleRequest, isGET. rewrite Hm.
  change (String.eqb "GET" "GET") with true. rewrite andb_true_r.
  destruct (String.eqb_spec (pathname req) "/") as [_|Hroot]; [reflexivity|].
  destruct Hpath as [E | Hseg]; [contradiction|].
  apply String.eqb_neq in Hf, Hr. rewrite Hf, Hr. cbn [orb].
  unfold Path.authenticate. rewrite Hseg, String.eqb_refl.
  change (Path.normalize ("/" +:+ Js.join "/" (Js.slice1 [token g]))) with "/".
  unfold dispatch, isGET. rewrite Hm. reflexivity.
Qed.

Lemma homepage_with_or_without_token_witness :
  handleRequest (Sample.globals 2) Sample.world 61000
    (Sample.get "/secret/" []) "10.0.0.1" Sample.busy
  = (handleHomepage (Sample.globals 2), Sample.busy).
Proof.
  apply (homepage_with_or_without_token (Sample.globals 2) Sample.world 61000
           (Sample.get "/secret/" []) "10.0.0.1" Sample.busy).
  - reflexivity.
  - discriminate.
  - discriminate.
  - right. reflexivity.
Defined.

(** ** One client and another *)

Section Isolation.

Context (g : Globals).

(** Apart from the comment requests that miss the cache, the answer of
    the handler is the same for every history, which it leaves alone. *)
Lemma handleRequest_frame (w : Collaborators) (currentTime : Z)
    (req : Request) (clientIp : string) :
  (exists o, forall h, handleRequest g w currentTime req clientIp h = (o, h))
  \/ (exists path, reachesComment g req path /\ CacheMiss w req path).
Proof.
  unfold handleRequest.
  destruct (String.eqb (pathname req) "/" && isGET req);
    [left; eexists; intros h; reflexivity|].
  destruct (String.eqb_spec (pathname req) "/favicon.ico") as [|Hf];
    [left; eexists; intros h; reflexivity|].
  destruct (String.eqb_spec (pathname req) "/robots.txt") as [|Hr];
    [left; eexists; intros h; reflexivity|].
  cbn [orb].
  destruct (Path.authenticate (token g) (pathname req)) as [p|] eqn:Ha;
    [|left; eexists; intros h; reflexivity].
  unfold dispatch.
  repeat match goal with
  | |- context [if (?a && isGET req) then _ else _] =>
      lazymatch a with
      | Js.startsWith _ "/api/v2/comment" => fail
      | _ => destruct (a && isGET req); [left; eexists; intros h; reflexivity|]
      end
  | |- context [if (?a && isPOST req) then _ else _] =>
      destruct (a && isPOST req); [left; eexists; intros h; reflexivity|]
  end.
  destruct (Js.startsWith (Path.normalize p) "/api/v2/comment") eqn:Hp;
    cbn [andb].
  2: { destruct (String.eqb (Path.normalize p) "/api/logs" && isGET req);
       left; eexists; intros h; reflexivity. }
  destruct (isGET req) eqn:Hm.
  2: { destruct (String.eqb (Path.normalize p) "/api/logs" && false);
       left; eexists; intros h; reflexivity. }
  assert (reachesComment g req (Path.normalize p)) as Hreach.
  { repeat split; try assumption.
    - unfold Path.canonical. now rewrite Ha.
    - now apply String.eqb_eq. }
  destruct (handleComment_cases w req (Path.normalize p))
    as [[Hq Hn] | [(u & cs & Haddr & Hc) | Hmiss]].
  - left. eexists. intros h.
    now rewrite (handleComment_no_id g w currentTime req clientIp _ Hq Hn).
  - left. eexists. intros h.
    now rewrite (handleComment_hit g w currentTime req clientIp _ _ _ Haddr Hc).
  - right. now exists (Path.normalize p).
Qed.

(** What the sweep leaves of the entry of a client other than the one
    served. *)
Lemma historyOf_swept_other (currentTime : Z) (a b : string) (h : History) :
  a <> b ->
  historyOf (swept currentTime a h) b
  = filterRecent currentTime (historyOf h b).
Proof.
  intros Hab. rewrite <- sweep_is_filterRecent.
  unfold swept, historyOf, cleanupExpiredIPs. case_bool_decide.
  - rewrite lookup_fmap. now destruct (h !! b).
  - rewrite lookup_insert_ne by exact Hab. rewrite lookup_fmap.
    now destruct (h !! b).
Qed.

Lemma historyOf_insert_other (a b : string) (l : list Z) (h : History) :
  a <> b -> historyOf (<[a := l]> h) b = historyOf h b.
Proof. intros Hab. unfold historyOf. now rewrite lookup_insert_ne. Qed.

(** After a call for client [a], the entry of another client is what it
    was, or what the sweep of that call leaves of it. *)
Lemma other_entry_after_call (w : Collaborators) (currentTime : Z)
    (req : Request) (a b : string) (h : History) :
  a <> b ->
  let h1 := snd (handleRequest g w currentTime req a h) in
  historyOf h1 b = historyOf h b
  \/ historyOf h1 b = filterRecent currentTime (historyOf h b).
Proof.
  intros Hab h1. subst h1.
  destruct (handleRequest_frame w currentTime req a)
    as [(o & E) | (path & Hreach & Hmiss)].
  { left. now rewrite E. }
  rewrite (handleRequest_comment _ _ _ _ _ _ Hreach).
  rewrite (handleComment_miss _ _ _ _ _ _ _ Hmiss). cbn [snd].
  rewrite rateLimit_eq.
  destruct (0 <? rateLimitMaxRequests g); [|now left]. cbn zeta.
  match goal with |- context [?x <=? ?y] => destruct (x <=? y) end; cbn [snd];
    right.
  - now apply historyOf_swept_other.
  - rewrite historyOf_insert_other by exact Hab.
    now apply historyOf_swept_other.
Qed.

(** The answer to a client depends on the history through the client's
    timestamps inside the window only. *)
Lemma answer_by_window (w : Collaborators) (currentTime : Z) (req : Request)
    (b : string) (h1 h2 : History) :
  filterRecent currentTime (historyOf h1 b)
  = filterRecent currentTime (historyOf h2 b) ->
  fst (handleRequest g w currentTime req b h1)
  = fst (handleRequest g w currentTime req b h2).
Proof.
  intros Hsame.
  destruct (handleRequest_frame w currentTime req b)
    as [(o & E) | (path & Hreach & Hmiss)].
  { now rewrite !E. }
  rewrite !(handleRequest_comment _ _ _ _ _ _ Hreach).
  rewrite !(handleComment_miss _ _ _ _ _ _ _ Hmiss). cbn [fst].
  rewrite !rateLimit_eq.
  destruct (0 <? rateLimitMaxRequests g); [|reflexivity]. cbn zeta.
  rewrite !recent_after_sweep, Hsame.
  now match goal with |- context [?x <=? ?y] => destruct (x <=? y) end.
Qed.

End Isolation.

(** X21.  The requests of one client cost another client nothing.  After any
    call for client [a], what the handler has on record for another
    client [b] inside the window of any later moment is what it was
    before the call; so the answer to a later request of [b] is the one
    [b] would have got had [a] never called. *)
Theorem clients_do_not_interfere (g : Globals) (wa wb : Collaborators)
    (ta tb : Z) (ra rb : Request) (a b : string) (h : History) :
  a <> b -> ta <= tb ->
  let h1 := snd (handleRequest g wa ta ra a h) in
  (forall t, ta <= t ->
     filterRecent t (historyOf h1 b) = filterRecent t (historyOf h b))
  /\ fst (handleRequest g wb tb rb b h1) = fst (handleRequest g wb tb rb b h).
Proof.
  intros Hab Hle h1.
  assert (forall t, ta <= t ->
            filterRecent t (historyOf h1 b) = filterRecent t (historyOf h b))
    as Hwindow.
  { intros t Ht.
    destruct (other_entry_after_call g wa ta ra a b h Hab) as [E | E];
      fold h1 in E; rewrite E; [reflexivity|].
    now apply filterRecent_later. }
  split; [exact Hwindow|].
  apply answer_by_window. now apply Hwindow.
Qed.

Lemma clients_do_not_interfere_witness :
  let h1 := snd (handleRequest (Sample.globals 3) Sample.world 61000
                   (Sample.get "/secret/api/v2/comment/10003" []) "10.0.0.2"
                   Sample.busy) in
  (forall t, 61000 <= t ->
     filterRecent t (historyOf h1 "10.0.0.1")
     = filterRecent t (historyOf Sample.busy "10.0.0.1"))
  /\ fst (handleRequest (Sample.globals 3) Sample.world 61500
            (Sample.get "/secret/api/v2/comment/10003" []) "10.0.0.1" h1)
     = fst (handleRequest (Sample.globals 3) Sample.world 61500
              (Sample.get "/secret/api/v2/comment/10003" []) "10.0.0.1"
              Sample.busy).
Proof.
  apply (clients_do_not_interfere (Sample.globals 3) Sample.world Sample.world
           61000 61500
           (Sample.get "/secret/api/v2/comment/10003" [])
           (Sample.get "/secret/api/v2/comment/10003" [])
           "10.0.0.2" "10.0.0.1" Sample.busy).
  - discriminate.
  - lia.
Defined.
